(** * The clock tree of the STM32F2xx model (stm32_clktree), embedded in Rocq

    The source is [hw/arm/prusa/stm32f407/stm32f2xx_crc.c]; its second half
    is the clock-tree engine: nodes ([struct Clk]) with a frequency state, a
    multiplier/divisor ratio, an enable gate, a bounded array of candidate
    inputs, a bounded array of fan-out nodes and a bounded array of
    observers (IRQ lines).

    The C code works on pointers to caller-allocated structs.  Here the
    memory holding the structs is a list of [Clk] records, an address is an
    index into it, and a [Clk_p] is [None] (the NULL pointer) or [Some a].
    Every function of the source is a computation in a small state-and-error
    monad over that memory plus a trace of the externally visible effects
    ([fprintf] diagnostics and [qemu_set_irq] pulses).  What C leaves
    undefined (reading outside an array, dereferencing NULL or an address
    that holds no struct, dividing by zero) and what C aborts on (a failed
    [assert]) both end the computation with an [Abort].  Integers are [Z];
    an argument is a value of the C type of its parameter (the conversion
    at a call is the caller's), and the conversions the functions themselves
    perform are written out. *)

From Stdlib Require Import ZArith Lia Bool.
From stdpp Require Import base tactics option list strings.

Local Open Scope Z_scope.

(** ** Machine integers *)

(** Conversion to [uint32_t]: reduction modulo 2^32. *)
Definition u32 (z : Z) : Z := z mod 2 ^ 32.

(** Conversion to [uint64_t]. *)
Definition u64 (z : Z) : Z := z mod 2 ^ 64.

(** Two's-complement [int] (32 bits; QEMU is built with wrapping signed
    arithmetic). *)
Definition int32 (z : Z) : Z := (z + 2 ^ 31) mod 2 ^ 32 - 2 ^ 31.

Definition UINT32_MAX : Z := 2 ^ 32 - 1.
Definition UINT16_MAX : Z := 2 ^ 16 - 1.
Definition INT_MIN : Z := - 2 ^ 31.
Definition INT_MAX : Z := 2 ^ 31 - 1.

Definition is_uint32 (z : Z) : Prop := 0 <= z <= UINT32_MAX.
Definition is_uint16 (z : Z) : Prop := 0 <= z <= UINT16_MAX.
Definition is_int (z : Z) : Prop := INT_MIN <= z <= INT_MAX.

(** Modelled from the spec: [muldiv64] is declared in [qemu/host-utils.h],
    which this development does not include.  The specification describes it
    as the ratio "applied in 64-bit-safe arithmetic", with "an intermediate
    width wide enough that input_freq * multiplier cannot overflow before
    the division": the product is exact, the quotient is the truncating
    division of C on non-negative operands, and the value comes back as a
    [uint64_t].  A zero divisor has no result (the division traps). *)
Definition muldiv64 (a b c : Z) : option Z :=
  if c =? 0 then None else Some (u64 (a * b / c)).

(** ** Constants of the missing header *)

(** The capacities of the three arrays of a node and the "no maximum"
    frequency are macros of [stm32_clktree.h] / [stm32_clk_type.h], which are
    not included; the development is parametric in them. *)
Class ClkConfig := {
  CLKTREE_MAX_IRQ : nat;
  CLKTREE_MAX_OUTPUT : nat;
  CLKTREE_MAX_INPUT : nat;
  CLKTREE_NO_MAX_FREQ : Z
}.

(** Modelled from the spec: the macro [CLKTREE_NO_INPUT] is the sentinel
    "none" of the selection ("index 0 reserved to mean no input"): the code
    reads [input[selected_input + 1]], stores NULL in [input[0]] and tests
    [selected_input > -1], so the sentinel is -1. *)
Definition CLKTREE_NO_INPUT : Z := -1.

(** ** Data model *)

(** An IRQ line ([qemu_irq]) is an opaque handle. *)
Abbreviation qemu_irq := nat (only parsing).

(** A pointer to a node: NULL or an address. *)
Abbreviation Clk_p := (option nat) (only parsing).

(** Modelled from the spec: [struct Clk] is declared in [stm32_clk_type.h],
    which this development does not include.  The fields are those the code
    reads and writes; their types are those of the locals and parameters
    they are copied from and to ([uint32_t] frequencies, [uint16_t] scale
    factors, [int selected_input], [bool] flags), and each array comes with
    its count of live entries.  The three counts are unsigned: the
    specification makes every index out of range a fatal error of
    [select_input], and the assertion
    [(selected_input + 1) < clk->input_count] fails on a negative sum only
    when the comparison is the unsigned one. *)
Record Clk := mkClk {
  name : string;
  enabled : bool;
  input_freq : Z;
  output_freq : Z;
  max_output_freq : Z;
  multiplier : Z;
  divisor : Z;
  user_count : nat;
  user : list qemu_irq;
  output_count : nat;
  output : list Clk_p;
  input_count : nat;
  selected_input : Z;
  input : list Clk_p;
  is_initialized : bool
}.

Definition with_input_freq (v : Z) (c : Clk) : Clk :=
  mkClk (name c) (enabled c) v (output_freq c) (max_output_freq c)
        (multiplier c) (divisor c) (user_count c) (user c)
        (output_count c) (output c) (input_count c) (selected_input c)
        (input c) (is_initialized c).

Definition with_output_freq (v : Z) (c : Clk) : Clk :=
  mkClk (name c) (enabled c) (input_freq c) v (max_output_freq c)
        (multiplier c) (divisor c) (user_count c) (user c)
        (output_count c) (output c) (input_count c) (selected_input c)
        (input c) (is_initialized c).

Definition with_scale (m d : Z) (c : Clk) : Clk :=
  mkClk (name c) (enabled c) (input_freq c) (output_freq c)
        (max_output_freq c) m d (user_count c) (user c)
        (output_count c) (output c) (input_count c) (selected_input c)
        (input c) (is_initialized c).

Definition with_enabled (b : bool) (c : Clk) : Clk :=
  mkClk (name c) b (input_freq c) (output_freq c) (max_output_freq c)
        (multiplier c) (divisor c) (user_count c) (user c)
        (output_count c) (output c) (input_count c) (selected_input c)
        (input c) (is_initialized c).

Definition with_selected_input (i : Z) (c : Clk) : Clk :=
  mkClk (name c) (enabled c) (input_freq c) (output_freq c)
        (max_output_freq c) (multiplier c) (divisor c) (user_count c)
        (user c) (output_count c) (output c) (input_count c) i
        (input c) (is_initialized c).

Definition with_users (n : nat) (l : list qemu_irq) (c : Clk) : Clk :=
  mkClk (name c) (enabled c) (input_freq c) (output_freq c)
        (max_output_freq c) (multiplier c) (divisor c) n l
        (output_count c) (output c) (input_count c) (selected_input c)
        (input c) (is_initialized c).

Definition with_outputs (n : nat) (l : list Clk_p) (c : Clk) : Clk :=
  mkClk (name c) (enabled c) (input_freq c) (output_freq c)
        (max_output_freq c) (multiplier c) (divisor c) (user_count c)
        (user c) n l (input_count c) (selected_input c)
        (input c) (is_initialized c).

Definition with_inputs (n : nat) (l : list Clk_p) (c : Clk) : Clk :=
  mkClk (name c) (enabled c) (input_freq c) (output_freq c)
        (max_output_freq c) (multiplier c) (divisor c) (user_count c)
        (user c) (output_count c) (output c) n (selected_input c)
        l (is_initialized c).

(** ** Effects *)

(** What the engine does to the outside world. *)
Inductive event :=
  | Diag (clk : nat) (freq max : Z)       (* the fprintf(stderr, ...) of recalc *)
  | SetIrq (clk : nat) (irq : qemu_irq) (level : Z).  (* qemu_set_irq(clk->user[i], level) *)

(** The three [assert]s of the source. *)
Inductive assertion :=
  | assert_link_capacity      (* assert((count) <= (array_size)) *)
  | assert_next_clk_not_null  (* assert(next_clk != NULL) *)
  | assert_selected_input.    (* assert((selected_input + 1) < clk->input_count) *)

Inductive error :=
  | AssertFail (a : assertion)
  | DivByZero
  | BadAccess
  | OutOfFuel.

Inductive result (A : Type) :=
  | Ok (a : A)
  | Abort (e : error).
Arguments Ok {A} a.
Arguments Abort {A} e.

Record state := mkState {
  heap : list Clk;
  trace : list event
}.

Definition M (A : Type) : Type := state -> result (A * state).

Definition ret {A} (a : A) : M A := fun s => Ok (a, s).

Definition bind {A B} (m : M A) (k : A -> M B) : M B :=
  fun s => match m s with
           | Ok (a, s') => k a s'
           | Abort e => Abort e
           end.

Definition abort {A} (e : error) : M A := fun _ => Abort e.

Declare Scope clk_scope.
Delimit Scope clk_scope with clk.
Notation "x <- m ;; k" := (bind m (fun x => k))
  (at level 100, m at next level, right associativity) : clk_scope.
Notation "m ;; k" := (bind m (fun _ => k))
  (at level 100, right associativity) : clk_scope.
Local Open Scope clk_scope.

(** [*clk] as an rvalue. *)
Definition load (clk : nat) : M Clk :=
  fun s => match heap s !! clk with
           | Some c => Ok (c, s)
           | None => Abort BadAccess
           end.

(** [*clk = c]. *)
Definition store (clk : nat) (c : Clk) : M unit :=
  fun s => match heap s !! clk with
           | Some _ => Ok (tt, mkState (<[clk := c]> (heap s)) (trace s))
           | None => Abort BadAccess
           end.

Definition emit (e : event) : M unit :=
  fun s => Ok (tt, mkState (heap s) (trace s ++ [e])).

(** [clk->field = v]: a field assignment through a pointer. *)
Definition modify (clk : nat) (f : Clk -> Clk) : M unit :=
  c <- load clk ;; store clk (f c).

(** [assert(b)]. *)
Definition assert (a : assertion) (b : bool) : M unit :=
  if b then ret tt else abort (AssertFail a).

(** [array[i]] as an rvalue. *)
Definition array_get {A} (array : list A) (i : nat) : M A :=
  match array !! i with
  | Some x => ret x
  | None => abort BadAccess
  end.

(** [array[i] = v]. *)
Definition array_set {A} (array : list A) (i : nat) (v : A) : M (list A) :=
  if decide (i < length array)%nat then ret (<[i := v]> array)
  else abort BadAccess.

(** [for (i = start; i < start + n; i++) body(i)]. *)
Fixpoint for_range (start n : nat) (body : nat -> M unit) : M unit :=
  match n with
  | O => ret tt
  | S n' => body start ;; for_range (S start) n' body
  end.

(** A computation that touches no state. *)
Definition lift {A} (r : result A) : M A :=
  fun s => match r with Ok a => Ok (a, s) | Abort e => Abort e end.

(** [for (x in l) body(x)], the shape a counted loop over an array takes
    once the array is read (lemma [for_range_array]). *)
Fixpoint for_each {A} (l : list A) (body : A -> M unit) : M unit :=
  match l with
  | [] => ret tt
  | x :: l' => body x ;; for_each l' body
  end.

(** ** The engine *)

(** [clktree_get_input_clk]: [clk->input[clk->selected_input + 1]]. *)
Definition clktree_get_input_clk (c : Clk) : result Clk_p :=
  let i := int32 (selected_input c + 1) in
  if i <? 0 then Abort BadAccess
  else match input c !! Z.to_nat i with
       | Some p => Ok p
       | None => Abort BadAccess
       end.

(** The first statement of [clktree_recalc_output_freq]: the new output
    frequency, or 0 if the output is disabled; the [uint64_t] result of
    [muldiv64] is assigned to the [uint32_t] local [new_output_freq]. *)
Definition new_output_freq_of (c : Clk) : result Z :=
  if enabled c then
    match muldiv64 (input_freq c) (multiplier c) (divisor c) with
    | Some q => Ok (u32 q)
    | None => Abort DivByZero
    end
  else Ok 0.

(** [clktree_set_input_freq], over the forward declaration of
    [clktree_recalc_output_freq]. *)
Definition set_input_freq_then (recalc : nat -> M unit) (clk : nat)
    (input_freq : Z) : M unit :=
  modify clk (with_input_freq input_freq) ;;
  recalc clk.

(** The body of the second loop of [clktree_recalc_output_freq], for the
    child [next_clk = clk->output[i]]. *)
Definition propagate_to (recalc : nat -> M unit) (clk : nat)
    (new_output_freq : Z) (next_clk : Clk_p) : M unit :=
  match next_clk with
  | None => abort (AssertFail assert_next_clk_not_null)
  | Some next =>
    nc <- load next ;;
    (* Only propagate the change if the child has selected the current
       clock as input. *)
    next_clk_input <- lift (clktree_get_input_clk nc) ;;
    if decide (next_clk_input = Some clk) then
      set_input_freq_then recalc next new_output_freq
    else ret tt
  end.

(** [clktree_recalc_output_freq].  The recursion (through
    [clktree_set_input_freq]) is bounded by [fuel].  The node's own struct
    is read once on entry: the calls made from the two loops write the
    frequencies of structs only, never a count or an array (lemma
    [Recalc_wiring] below), and the output frequency compared and stored is
    the local [new_output_freq]. *)
Fixpoint clktree_recalc_output_freq (fuel : nat) (clk : nat) : M unit :=
  match fuel with
  | O => abort OutOfFuel
  | S fuel' =>
    c <- load clk ;;
    new_output_freq <- lift (new_output_freq_of c) ;;
    (* if the frequency has changed. *)
    if negb (new_output_freq =? output_freq c) then
      modify clk (with_output_freq new_output_freq) ;;
      (* Check the new frequency against the max frequency. *)
      (if new_output_freq >? max_output_freq c
       then emit (Diag clk new_output_freq (max_output_freq c))
       else ret tt) ;;
      (* Notify users of change. *)
      for_range 0 (user_count c) (fun i =>
        u <- array_get (user c) i ;;
        emit (SetIrq clk u 1)) ;;
      (* Propagate the frequency change to the child clocks *)
      for_range 0 (output_count c) (fun i =>
        next_clk <- array_get (output c) i ;;
        propagate_to (clktree_recalc_output_freq fuel') clk
                     new_output_freq next_clk)
    else ret tt
  end.

(** [clktree_set_input_freq]. *)
Definition clktree_set_input_freq (fuel : nat) (clk : nat) (input_freq : Z)
  : M unit :=
  set_input_freq_then (clktree_recalc_output_freq fuel) clk input_freq.

(** The macro [CLKTREE_ADD_LINK]:
    [(array)[(count)++] = (value); assert((count) <= (array_size));].
    The store comes first in C; when it falls past the capacity the
    [assert] right after it fails, so the macro then ends in the failed
    assertion.  The new array and the new count are returned for the caller
    to write back to the fields the macro was applied to. *)
Definition CLKTREE_ADD_LINK {A} (array : list A) (count : nat) (value : A)
    (array_size : nat) : M (list A * nat) :=
  assert assert_link_capacity (S count <=? array_size)%nat ;;
  array' <- array_set array count value ;;
  ret (array', S count).

(** [clktree_create_generic]: the generic create routine used by the public
    create routines.  It leaves the three arrays as they are, except for
    [input[0]]. *)
Definition clktree_create_generic `{ClkConfig} (clk : nat) (name : string)
    (multiplier divisor : Z) (enabled : bool) : M unit :=
  c <- load clk ;;
  input' <- array_set (input c) 0 None ;;
  store clk (mkClk name enabled 0 0 CLKTREE_NO_MAX_FREQ multiplier divisor
                   0 (user c) 0 (output c) 1 CLKTREE_NO_INPUT input' true).

(** [clktree_is_enabled]. *)
Definition clktree_is_enabled (clk : nat) : M bool :=
  c <- load clk ;;
  ret (enabled c && is_initialized c).

(** [clktree_get_output_freq]. *)
Definition clktree_get_output_freq (clk : nat) : M Z :=
  c <- load clk ;;
  ret (output_freq c).

(** [clktree_adduser]. *)
Definition clktree_adduser `{ClkConfig} (clk : nat) (new_user : qemu_irq)
  : M unit :=
  c <- load clk ;;
  r <- CLKTREE_ADD_LINK (user c) (user_count c) new_user CLKTREE_MAX_IRQ ;;
  store clk (with_users r.2 r.1 c).

(** [clktree_create_src_clk]. *)
Definition clktree_create_src_clk `{ClkConfig} (fuel : nat) (clk : nat)
    (name : string) (src_freq : Z) (enabled : bool) : M unit :=
  clktree_create_generic clk name 1 1 enabled ;;
  clktree_set_input_freq fuel clk src_freq.

(** [clktree_set_selected_input].  The comparison of the assertion is
    between [int] and [unsigned]: the left side is converted to unsigned. *)
Definition clktree_set_selected_input (fuel : nat) (clk : nat)
    (selected_input : Z) : M unit :=
  c <- load clk ;;
  assert assert_selected_input
         (u32 (int32 (selected_input + 1)) <? Z.of_nat (input_count c)) ;;
  modify clk (with_selected_input selected_input) ;;
  (* Get the input clock frequency.  If there is no input, this should be 0. *)
  input_freq <-
    (if selected_input >? -1 then
       c' <- load clk ;;
       input_clk <- lift (clktree_get_input_clk c') ;;
       match input_clk with
       | Some a => ic <- load a ;; ret (output_freq ic)
       | None => abort BadAccess
       end
     else ret 0) ;;
  clktree_set_input_freq fuel clk input_freq.

(** The [while] loop of [clktree_create_clk] over its variadic,
    NULL-terminated list of input clocks: [input_clks] holds the arguments
    before the terminating NULL. *)
Fixpoint clktree_create_clk_links `{ClkConfig} (clk : nat)
    (input_clks : list nat) : M unit :=
  match input_clks with
  | [] => ret tt
  | input_clk :: rest =>
    c <- load clk ;;
    r <- CLKTREE_ADD_LINK (input c) (input_count c) (Some input_clk)
                          CLKTREE_MAX_INPUT ;;
    store clk (with_inputs r.2 r.1 c) ;;
    ic <- load input_clk ;;
    r' <- CLKTREE_ADD_LINK (output ic) (output_count ic) (Some clk)
                           CLKTREE_MAX_OUTPUT ;;
    store input_clk (with_outputs r'.2 r'.1 ic) ;;
    clktree_create_clk_links clk rest
  end.

(** [clktree_create_clk].  The parameter [max_output_freq] is received and
    not used by the body. *)
Definition clktree_create_clk `{ClkConfig} (fuel : nat) (clk : nat)
    (name : string) (multiplier divisor : Z) (enabled : bool)
    (max_output_freq : Z) (selected_input : Z) (input_clks : list nat)
  : M unit :=
  clktree_create_generic clk name multiplier divisor enabled ;;
  (* Add the input clock connections. *)
  clktree_create_clk_links clk input_clks ;;
  clktree_set_selected_input fuel clk selected_input.

(** [clktree_set_scale]. *)
Definition clktree_set_scale (fuel : nat) (clk : nat) (multiplier divisor : Z)
  : M unit :=
  modify clk (with_scale multiplier divisor) ;;
  clktree_recalc_output_freq fuel clk.

(** [clktree_set_enabled]. *)
Definition clktree_set_enabled (fuel : nat) (clk : nat) (enabled : bool)
  : M unit :=
  modify clk (with_enabled enabled) ;;
  clktree_recalc_output_freq fuel clk.

(** ** Vocabulary of the properties *)

(** The wiring of a node: everything but its two frequencies. *)
Definition static (c : Clk) : Clk := with_input_freq 0 (with_output_freq 0 c).

(** The wiring of a memory: the nodes without their frequencies. *)
Definition wiring (s : state) : list Clk := static <$> heap s.

(** The stored output frequency is the one a recalculation would compute. *)
Definition clk_ok (c : Clk) : Prop :=
  new_output_freq_of c = Ok (output_freq c).

Definition ok_at (l : list Clk) (y : nat) : Prop :=
  exists c, l !! y = Some c /\ clk_ok c.

(** Node [y] currently selects node [p] as its input. *)
Definition selects (l : list Clk) (y p : nat) : Prop :=
  exists cy, l !! y = Some cy /\ clktree_get_input_clk cy = Ok (Some p).

(** [below l x n]: [n] is [x] or is reached from [x] going down along
    current selections (each step from a node to a node that selects it). *)
Inductive below (l : list Clk) (x : nat) : nat -> Prop :=
  | below_refl : below l x x
  | below_step y z : below l x y -> selects l z y -> below l x z.

(** [n] is strictly below [x]: below a node that selects [x]. *)
Definition sbelow (l : list Clk) (x n : nat) : Prop :=
  exists z, selects l z x /\ below l z n.

(** The input frequency of a node is the output frequency of the node it
    selects. *)
Definition linked (l : list Clk) (c : Clk) : Prop :=
  forall p pc, clktree_get_input_clk c = Ok (Some p) -> l !! p = Some pc ->
               input_freq c = output_freq pc.

(** The node an event comes from. *)
Definition event_clk (e : event) : nat :=
  match e with Diag clk _ _ => clk | SetIrq clk _ _ => clk end.

(** What a recalculation that finds a new frequency does before it turns
    to the children: the store, the diagnostic, the notifications. *)
Definition change_events (x : nat) (c : Clk) (new : Z) : list event :=
  (if new >? max_output_freq c then [Diag x new (max_output_freq c)] else [])
  ++ ((fun u => SetIrq x u 1) <$> take (user_count c) (user c)).

Definition changed_state (x : nat) (c : Clk) (new : Z) (s : state) : state :=
  mkState (<[x := with_output_freq new c]> (heap s))
          (trace s ++ change_events x c new).

Definition input_freq_state (n : nat) (nc : Clk) (v : Z) (s : state) : state :=
  mkState (<[n := with_input_freq v nc]> (heap s)) (trace s).

(** The runs of [clktree_recalc_output_freq] that return, as a relation
    between the state before and the state after. *)
Inductive Recalc : nat -> state -> state -> Prop :=
  | Recalc_same x s c :
      heap s !! x = Some c ->
      new_output_freq_of c = Ok (output_freq c) ->
      Recalc x s s
  | Recalc_change x s c new s' :
      heap s !! x = Some c ->
      new_output_freq_of c = Ok new ->
      new <> output_freq c ->
      (user_count c <= length (user c))%nat ->
      (output_count c <= length (output c))%nat ->
      Propagate x new (take (output_count c) (output c))
                (changed_state x c new s) s' ->
      Recalc x s s'
with Propagate : nat -> Z -> list Clk_p -> state -> state -> Prop :=
  | Propagate_nil x v s : Propagate x v [] s s
  | Propagate_skip x v n ns s s' nc p :
      heap s !! n = Some nc ->
      clktree_get_input_clk nc = Ok p ->
      p <> Some x ->
      Propagate x v ns s s' ->
      Propagate x v (Some n :: ns) s s'
  | Propagate_visit x v n ns s s1 s' nc :
      heap s !! n = Some nc ->
      clktree_get_input_clk nc = Ok (Some x) ->
      Recalc n (input_freq_state n nc v s) s1 ->
      Propagate x v ns s1 s' ->
      Propagate x v (Some n :: ns) s s'.

Scheme Recalc_mut := Minimality for Recalc Sort Prop
  with Propagate_mut := Minimality for Propagate Sort Prop.
Combined Scheme Recalc_Propagate_ind from Recalc_mut, Propagate_mut.

(** *** Well-wired memories *)

(** The edge from [a] up to its candidate input [q] is mirrored by a live
    fan-out entry of [q]. *)
Definition mirrored (l : list Clk) (a q : nat) : Prop :=
  exists qc i, l !! q = Some qc /\ (i < output_count qc)%nat /\
               output qc !! i = Some (Some a).

(** A node as the creation routines leave it, in a memory where the
    candidate inputs of every node are strictly higher in the tree ([h] is
    a height: it decreases from a node to the nodes wired below it). *)
Record node_wf (h : nat -> nat) (l : list Clk) (a : nat) (c : Clk) : Prop := {
  wf_divisor : divisor c <> 0;
  wf_users : (user_count c <= length (user c))%nat;
  wf_outputs_len : (output_count c <= length (output c))%nat;
  wf_outputs : forall i, (i < output_count c)%nat ->
      exists n, output c !! i = Some (Some n) /\ (n < length l)%nat;
  wf_input0 : input c !! 0%nat = Some None;
  wf_input_count : (1 <= input_count c <= length (input c))%nat;
  wf_input_count_int : Z.of_nat (input_count c) <= INT_MAX;
  wf_inputs : forall i, (1 <= i < input_count c)%nat ->
      exists q, input c !! i = Some (Some q) /\ (h a < h q)%nat /\
                mirrored l a q;
  wf_selected : -1 <= selected_input c < Z.of_nat (input_count c) - 1
}.

Definition heap_wf (h : nat -> nat) (l : list Clk) : Prop :=
  forall a c, l !! a = Some c -> node_wf h l a c.

(** The same, as a test that computes. *)
Definition mirroredb (l : list Clk) (a q : nat) : bool :=
  match l !! q with
  | Some qc => bool_decide (Some a ∈ take (output_count qc) (output qc))
  | None => false
  end.

Definition node_wfb (h : nat -> nat) (l : list Clk) (a : nat) (c : Clk) : bool :=
  negb (divisor c =? 0)
  && (user_count c <=? length (user c))%nat
  && (output_count c <=? length (output c))%nat
  && forallb (fun o => match o with
                       | Some n => (n <? length l)%nat
                       | None => false
                       end) (take (output_count c) (output c))
  && bool_decide (input c !! 0%nat = Some None)
  && (1 <=? input_count c)%nat
  && (input_count c <=? length (input c))%nat
  && (Z.of_nat (input_count c) <=? INT_MAX)
  && forallb (fun o => match o with
                       | Some q => (h a <? h q)%nat && mirroredb l a q
                       | None => false
                       end) (drop 1 (take (input_count c) (input c)))
  && (-1 <=? selected_input c)
  && (selected_input c <? Z.of_nat (input_count c) - 1).

Fixpoint heap_wfb_from (h : nat -> nat) (l : list Clk) (a : nat)
    (cs : list Clk) : bool :=
  match cs with
  | [] => true
  | c :: cs' => node_wfb h l a c && heap_wfb_from h l (S a) cs'
  end.

Definition heap_wfb (h : nat -> nat) (l : list Clk) : bool :=
  heap_wfb_from h l 0 l.

(** Every node but [x] stores the frequency its inputs give, and every node
    has the output of its selected input as input: the memory as a
    mutation of [x] finds it, before its recalculation. *)
Definition settled_but (x : nat) (l : list Clk) : Prop :=
  forall a c, l !! a = Some c -> linked l c /\ (a <> x -> clk_ok c).

Definition settled (l : list Clk) : Prop :=
  forall a c, l !! a = Some c -> linked l c /\ clk_ok c.

(** The same, as tests that compute. *)
Definition linkedb (l : list Clk) (c : Clk) : bool :=
  match clktree_get_input_clk c with
  | Ok (Some p) =>
    match l !! p with
    | Some pc => input_freq c =? output_freq pc
    | None => true
    end
  | _ => true
  end.

Definition clk_okb (c : Clk) : bool :=
  match new_output_freq_of c with
  | Ok v => v =? output_freq c
  | Abort _ => false
  end.

Definition settledb (l : list Clk) : bool :=
  forallb (fun c => linkedb l c && clk_okb c) l.

(** A computation that cannot end in the abort [e]. *)
Definition never (e : error) {A : Type} (m : M A) : Prop :=
  forall s, m s <> Abort e.

Abbreviation no_select_abort := (never (AssertFail assert_selected_input)).

(** *** Mutations *)

(** The operations that write a node and end in a recalculation. *)
Inductive mutation :=
  | Set_scale (multiplier divisor : Z)
  | Set_enabled (enabled : bool)
  | Select_input (selected_input : Z)
  | Set_input_freq (input_freq : Z)
  | Create_src (name : string) (src_freq : Z) (enabled : bool)
  | Create_clk (name : string) (multiplier divisor : Z) (enabled : bool)
               (max_output_freq : Z) (selected_input : Z)
               (input_clks : list nat).

Definition mutate `{ClkConfig} (fuel : nat) (clk : nat) (mu : mutation)
  : M unit :=
  match mu with
  | Set_scale m d => clktree_set_scale fuel clk m d
  | Set_enabled b => clktree_set_enabled fuel clk b
  | Select_input i => clktree_set_selected_input fuel clk i
  | Set_input_freq v => clktree_set_input_freq fuel clk v
  | Create_src n v b => clktree_create_src_clk fuel clk n v b
  | Create_clk n m d b mx i ins => clktree_create_clk fuel clk n m d b mx i ins
  end.

(** The part of [clktree_set_selected_input] before its call of
    [clktree_set_input_freq]: the assertion, the store of the selection and
    the read of the input frequency, which is returned. *)
Definition selected_input_freq (clk : nat) (selected_input : Z) : M Z :=
  c <- load clk ;;
  assert assert_selected_input
         (u32 (int32 (selected_input + 1)) <? Z.of_nat (input_count c)) ;;
  modify clk (with_selected_input selected_input) ;;
  (if selected_input >? -1 then
     c' <- load clk ;;
     input_clk <- lift (clktree_get_input_clk c') ;;
     match input_clk with
     | Some a => ic <- load a ;; ret (output_freq ic)
     | None => abort BadAccess
     end
   else ret 0).

(** What a mutation does before it calls [clktree_recalc_output_freq] on
    its node: its writes, up to and including the store of the input
    frequency in the operations that end in [clktree_set_input_freq]
    (lemma [mutate_prologue]). *)
Definition prologue `{ClkConfig} (clk : nat) (mu : mutation) : M unit :=
  match mu with
  | Set_scale m d => modify clk (with_scale m d)
  | Set_enabled b => modify clk (with_enabled b)
  | Set_input_freq v => modify clk (with_input_freq v)
  | Select_input i =>
    v <- selected_input_freq clk i ;; modify clk (with_input_freq v)
  | Create_src n v b =>
    clktree_create_generic clk n 1 1 b ;; modify clk (with_input_freq v)
  | Create_clk n m d b mx i ins =>
    clktree_create_generic clk n m d b ;;
    clktree_create_clk_links clk ins ;;
    v <- selected_input_freq clk i ;; modify clk (with_input_freq v)
  end.

(** The mutations of a node that exists (all but the two creations). *)
Definition runtime (mu : mutation) : bool :=
  match mu with
  | Create_src _ _ _ | Create_clk _ _ _ _ _ _ _ => false
  | _ => true
  end.

(** The struct of the node as a runtime mutation has written it when it
    calls the recalculation ([l] is the memory, [c] the struct before). *)
Definition written (mu : mutation) (l : list Clk) (c : Clk) : result Clk :=
  match mu with
  | Set_scale m d => Ok (with_scale m d c)
  | Set_enabled b => Ok (with_enabled b c)
  | Set_input_freq v => Ok (with_input_freq v c)
  | Select_input i =>
    if u32 (int32 (i + 1)) <? Z.of_nat (input_count c) then
      if i >? -1 then
        match clktree_get_input_clk (with_selected_input i c) with
        | Ok (Some a) =>
          match l !! a with
          | Some ic => Ok (with_input_freq (output_freq ic)
                                           (with_selected_input i c))
          | None => Abort BadAccess
          end
        | Ok None => Abort BadAccess
        | Abort e => Abort e
        end
      else Ok (with_input_freq 0 (with_selected_input i c))
    else Abort (AssertFail assert_selected_input)
  | _ => Abort BadAccess
  end.

(** What a runtime mutation of a node with struct [c] needs in order to
    leave a well-wired, settled memory (in memory [l]): a divisor that is
    not zero, a selection in range, and, for a frequency handed in directly,
    the frequency of the selected input if there is one. *)
Definition mutation_pre (mu : mutation) (l : list Clk) (c : Clk) : Prop :=
  match mu with
  | Set_scale _ d => d <> 0
  | Set_enabled _ => True
  | Select_input i => -1 <= i < Z.of_nat (input_count c) - 1
  | Set_input_freq v =>
    forall p pc, clktree_get_input_clk c = Ok (Some p) -> l !! p = Some pc ->
                 v = output_freq pc
  | _ => False
  end.

(** The equation of the output frequency, with the width of the field
    written out. *)
Definition freq_equation (c : Clk) : Prop :=
  output_freq c =
  if enabled c then (input_freq c * multiplier c / divisor c) mod 2 ^ 32
  else 0.

(** The equation as the specification words it, on exact integers. *)
Definition equation_as_stated (c : Clk) : Prop :=
  output_freq c =
  if enabled c then input_freq c * multiplier c / divisor c else 0.

(** The exact quotient of the ratio of a node applied to its input. *)
Definition quotient (c : Clk) : Z :=
  input_freq c * multiplier c / divisor c.

(** What a node makes of an input frequency [x]: its gate and its ratio, as
    the recalculation applies them. *)
Definition clk_apply (c : Clk) (x : Z) : Z :=
  if enabled c then (x * multiplier c / divisor c) mod 2 ^ 32 else 0.

(** The same on exact integers, as the specification words it ("applying
    each node's enabled gate and multiplier/divisor ratio"). *)
Definition apply_as_stated (c : Clk) (x : Z) : Z :=
  if enabled c then x * multiplier c / divisor c else 0.

(** [Reached x s s' y]: the run of the recalculation of [x] from [s] to
    [s'] calls the recalculation of [y] (on [x] itself, or, when the
    frequency of [x] changes, within the call on a fan-out child that selects
    [x]). *)
Inductive Reached : nat -> state -> state -> nat -> Prop :=
  | Reached_self x s s' : Recalc x s s' -> Reached x s s' x
  | Reached_child x s c new l1 n l2 sa nc sb s' y :
      heap s !! x = Some c ->
      new_output_freq_of c = Ok new ->
      new <> output_freq c ->
      (user_count c <= length (user c))%nat ->
      (output_count c <= length (output c))%nat ->
      take (output_count c) (output c) = l1 ++ Some n :: l2 ->
      Propagate x new l1 (changed_state x c new s) sa ->
      heap sa !! n = Some nc ->
      clktree_get_input_clk nc = Ok (Some x) ->
      Reached n (input_freq_state n nc new sa) sb y ->
      Propagate x new l2 sb s' ->
      Reached x s s' y.

(** ** A concrete configuration and the scenarios of the specification *)

Module Examples.

#[local] Instance cfg : ClkConfig :=
  {| CLKTREE_MAX_IRQ := 16; CLKTREE_MAX_OUTPUT := 24;
     CLKTREE_MAX_INPUT := 24; CLKTREE_NO_MAX_FREQ := UINT32_MAX |}.

(** A struct of zeroed memory. *)
Definition zero_clk : Clk :=
  mkClk String.EmptyString false 0 0 0 0 0 0 (replicate CLKTREE_MAX_IRQ 0%nat)
        0 (replicate CLKTREE_MAX_OUTPUT None)
        0 0 (replicate CLKTREE_MAX_INPUT None) false.

Definition zero_state (n : nat) : state := mkState (replicate n zero_clk) [].

(** The memory a construction sequence leaves, from [n] zeroed structs. *)
Definition build (m : M unit) (n : nat) : state :=
  match m (zero_state n) with
  | Ok (_, s) => s
  | Abort _ => zero_state 0
  end.

(** The memory a computation leaves when run from [s]. *)
Definition after (m : M unit) (s : state) : state :=
  match m s with
  | Ok (_, s') => s'
  | Abort _ => s
  end.

(** The height used for the three-node memories below: node 0 on top. *)
Definition height (a : nat) : nat := (2 - a)%nat.

(** Scenarios 1 and 2: a source at 8 MHz, a doubler on it, a halver on the
    doubler, with an observer on the halver. *)
Definition chain : state := Eval vm_compute in
  build (clktree_create_src_clk 8 0 "src" 8000000 true ;;
         clktree_create_clk 8 1 "x2" 2 1 true UINT32_MAX 0 [0%nat] ;;
         clktree_create_clk 8 2 "div2" 1 2 true UINT32_MAX 0 [1%nat] ;;
         clktree_adduser 2 7%nat) 3.

Definition chain_src : Clk := Eval vm_compute in
  default zero_clk (heap chain !! 0%nat).
Definition chain_x2 : Clk := Eval vm_compute in
  default zero_clk (heap chain !! 1%nat).
Definition chain_div2 : Clk := Eval vm_compute in
  default zero_clk (heap chain !! 2%nat).

(** The chain when the source has had its gate written to off and its
    recalculation is about to run. *)
Definition chain_src_off : state := Eval vm_compute in
  mkState (<[0%nat := with_enabled false chain_src]> (heap chain))
          (trace chain).

(** Scenario 3: a multiplexer over two sources, the first one selected,
    with an observer on the multiplexer. *)
Definition mux : state := Eval vm_compute in
  build (clktree_create_src_clk 8 0 "a" 4000000 true ;;
         clktree_create_src_clk 8 1 "b" 6000000 true ;;
         clktree_create_clk 8 2 "mux" 1 1 true UINT32_MAX 0 [0%nat; 1%nat] ;;
         clktree_adduser 2 7%nat) 3.

(** A multiplexer over a source and over a stage fed by that source, the
    stage selected (the shape of a system clock that selects a PLL fed by the
    oscillator it could also select directly). *)
Definition diamond : state := Eval vm_compute in
  build (clktree_create_src_clk 8 0 "osc" 8000000 true ;;
         clktree_create_clk 8 1 "pll" 1 1 true UINT32_MAX 0 [0%nat] ;;
         clktree_create_clk 8 2 "sys" 1 1 true UINT32_MAX 1 [0%nat; 1%nat] ;;
         clktree_adduser 2 7%nat) 3.

(** The multiplexer memory when source 1 (not selected) has had its gate
    written to off and its recalculation is about to run. *)
Definition mux_b_off : state := Eval vm_compute in
  mkState (<[1%nat := with_enabled false
                        (default zero_clk (heap mux !! 1%nat))]> (heap mux))
          (trace mux).

Definition diamond_sys : Clk := Eval vm_compute in
  default zero_clk (heap diamond !! 2%nat).

(** A node whose observer array is full. *)
Definition crowded : state :=
  mkState [with_users CLKTREE_MAX_IRQ (replicate CLKTREE_MAX_IRQ 7%nat)
                      chain_src] [].

(** A source at 4 GHz with a pass-through stage on it. *)
Definition fast : state := Eval vm_compute in
  build (clktree_create_src_clk 8 0 "src" 4000000000 true ;;
         clktree_create_clk 8 1 "stage" 1 1 true UINT32_MAX 0 [0%nat]) 2.

(** A chain on a gated-off source at 4 GHz: a doubler on the source and a
    pass-through stage on the doubler. *)
Definition fast_chain : state := Eval vm_compute in
  build (clktree_create_src_clk 8 0 "src" 4000000000 false ;;
         clktree_create_clk 8 1 "x2" 2 1 true UINT32_MAX 0 [0%nat] ;;
         clktree_create_clk 8 2 "x1" 1 1 true UINT32_MAX 0 [1%nat]) 3.

Definition fast_chain_x2 : Clk := Eval vm_compute in
  default zero_clk (heap fast_chain !! 1%nat).
Definition fast_chain_x1 : Clk := Eval vm_compute in
  default zero_clk (heap fast_chain !! 2%nat).

(** Scenario 4: a source at 12 MHz and a stage created on it with a maximum
    of 10 MHz. *)
Definition scenario4 : M unit :=
  clktree_create_src_clk 8 0 "src" 12000000 true ;;
  clktree_create_clk 8 1 "stage" 1 1 true 10000000 0 [0%nat].

(** An enabled node that halves 8 MHz. *)
Definition halver : Clk :=
  mkClk "halver" true 8000000 4000000 UINT32_MAX 1 2
        0 [] 0 [] 1 (-1) [None] true.

(** An enabled node with a full-scale input and a multiplier of 2. *)
Definition doubler : Clk :=
  mkClk "doubler" true 4294967295 0 UINT32_MAX 2 1
        0 [] 0 [] 1 (-1) [None] true.

End Examples.

(** * The CRC unit of the STM32F2xx model

    The first half of the source file: a memory-mapped CRC calculation unit
    with a data register, an independent data register and a control
    register. *)

Definition R_CRC_DR : Z := 0x00 / 4.
Definition R_CRC_DR_RESET : Z := 0xffffffff.
Definition R_CRC_IDR : Z := 0x04 / 4.
Definition R_CRC_CR : Z := 0x08 / 4.
Definition R_CRC_MAX : Z := 0x0c / 4.

(** [crctable]: the lookup table of the source, entry by entry. *)
Definition crctable : list Z :=
  [
   0x00000000; 0x04C11DB7; 0x09823B6E; 0x0D4326D9; 0x130476DC; 0x17C56B6B;
   0x1A864DB2; 0x1E475005; 0x2608EDB8; 0x22C9F00F; 0x2F8AD6D6; 0x2B4BCB61;
   0x350C9B64; 0x31CD86D3; 0x3C8EA00A; 0x384FBDBD; 0x4C11DB70; 0x48D0C6C7;
   0x4593E01E; 0x4152FDA9; 0x5F15ADAC; 0x5BD4B01B; 0x569796C2; 0x52568B75;
   0x6A1936C8; 0x6ED82B7F; 0x639B0DA6; 0x675A1011; 0x791D4014; 0x7DDC5DA3;
   0x709F7B7A; 0x745E66CD; 0x9823B6E0; 0x9CE2AB57; 0x91A18D8E; 0x95609039;
   0x8B27C03C; 0x8FE6DD8B; 0x82A5FB52; 0x8664E6E5; 0xBE2B5B58; 0xBAEA46EF;
   0xB7A96036; 0xB3687D81; 0xAD2F2D84; 0xA9EE3033; 0xA4AD16EA; 0xA06C0B5D;
   0xD4326D90; 0xD0F37027; 0xDDB056FE; 0xD9714B49; 0xC7361B4C; 0xC3F706FB;
   0xCEB42022; 0xCA753D95; 0xF23A8028; 0xF6FB9D9F; 0xFBB8BB46; 0xFF79A6F1;
   0xE13EF6F4; 0xE5FFEB43; 0xE8BCCD9A; 0xEC7DD02D; 0x34867077; 0x30476DC0;
   0x3D044B19; 0x39C556AE; 0x278206AB; 0x23431B1C; 0x2E003DC5; 0x2AC12072;
   0x128E9DCF; 0x164F8078; 0x1B0CA6A1; 0x1FCDBB16; 0x018AEB13; 0x054BF6A4;
   0x0808D07D; 0x0CC9CDCA; 0x7897AB07; 0x7C56B6B0; 0x71159069; 0x75D48DDE;
   0x6B93DDDB; 0x6F52C06C; 0x6211E6B5; 0x66D0FB02; 0x5E9F46BF; 0x5A5E5B08;
   0x571D7DD1; 0x53DC6066; 0x4D9B3063; 0x495A2DD4; 0x44190B0D; 0x40D816BA;
   0xACA5C697; 0xA864DB20; 0xA527FDF9; 0xA1E6E04E; 0xBFA1B04B; 0xBB60ADFC;
   0xB6238B25; 0xB2E29692; 0x8AAD2B2F; 0x8E6C3698; 0x832F1041; 0x87EE0DF6;
   0x99A95DF3; 0x9D684044; 0x902B669D; 0x94EA7B2A; 0xE0B41DE7; 0xE4750050;
   0xE9362689; 0xEDF73B3E; 0xF3B06B3B; 0xF771768C; 0xFA325055; 0xFEF34DE2;
   0xC6BCF05F; 0xC27DEDE8; 0xCF3ECB31; 0xCBFFD686; 0xD5B88683; 0xD1799B34;
   0xDC3ABDED; 0xD8FBA05A; 0x690CE0EE; 0x6DCDFD59; 0x608EDB80; 0x644FC637;
   0x7A089632; 0x7EC98B85; 0x738AAD5C; 0x774BB0EB; 0x4F040D56; 0x4BC510E1;
   0x46863638; 0x42472B8F; 0x5C007B8A; 0x58C1663D; 0x558240E4; 0x51435D53;
   0x251D3B9E; 0x21DC2629; 0x2C9F00F0; 0x285E1D47; 0x36194D42; 0x32D850F5;
   0x3F9B762C; 0x3B5A6B9B; 0x0315D626; 0x07D4CB91; 0x0A97ED48; 0x0E56F0FF;
   0x1011A0FA; 0x14D0BD4D; 0x19939B94; 0x1D528623; 0xF12F560E; 0xF5EE4BB9;
   0xF8AD6D60; 0xFC6C70D7; 0xE22B20D2; 0xE6EA3D65; 0xEBA91BBC; 0xEF68060B;
   0xD727BBB6; 0xD3E6A601; 0xDEA580D8; 0xDA649D6F; 0xC423CD6A; 0xC0E2D0DD;
   0xCDA1F604; 0xC960EBB3; 0xBD3E8D7E; 0xB9FF90C9; 0xB4BCB610; 0xB07DABA7;
   0xAE3AFBA2; 0xAAFBE615; 0xA7B8C0CC; 0xA379DD7B; 0x9B3660C6; 0x9FF77D71;
   0x92B45BA8; 0x9675461F; 0x8832161A; 0x8CF30BAD; 0x81B02D74; 0x857130C3;
   0x5D8A9099; 0x594B8D2E; 0x5408ABF7; 0x50C9B640; 0x4E8EE645; 0x4A4FFBF2;
   0x470CDD2B; 0x43CDC09C; 0x7B827D21; 0x7F436096; 0x7200464F; 0x76C15BF8;
   0x68860BFD; 0x6C47164A; 0x61043093; 0x65C52D24; 0x119B4BE9; 0x155A565E;
   0x18197087; 0x1CD86D30; 0x029F3D35; 0x065E2082; 0x0B1D065B; 0x0FDC1BEC;
   0x3793A651; 0x3352BBE6; 0x3E119D3F; 0x3AD08088; 0x2497D08D; 0x2056CD3A;
   0x2D15EBE3; 0x29D4F654; 0xC5A92679; 0xC1683BCE; 0xCC2B1D17; 0xC8EA00A0;
   0xD6AD50A5; 0xD26C4D12; 0xDF2F6BCB; 0xDBEE767C; 0xE3A1CBC1; 0xE760D676;
   0xEA23F0AF; 0xEEE2ED18; 0xF0A5BD1D; 0xF464A0AA; 0xF9278673; 0xFDE69BC4;
   0x89B8FD09; 0x8D79E0BE; 0x803AC667; 0x84FBDBD0; 0x9ABC8BD5; 0x9E7D9662;
   0x933EB0BB; 0x97FFAD0C; 0xAFB010B1; 0xAB710D06; 0xA6322BDF; 0xA2F33668;
   0xBCB4666D; 0xB8757BDA; 0xB5365D03; 0xB1F740B4
  ].

(** [update_crc].  The index is masked to 8 bits, so the table is never read
    outside its 256 entries; [crc << 8] is a 32-bit shift and the value
    returned is a [uint32_t]. *)
Definition update_crc (crc byte : Z) : Z :=
  u32 (Z.lxor (default 0 (crctable !!
                 Z.to_nat (Z.land (Z.lxor (Z.shiftr crc 24) byte) 0xff)))
              (u32 (Z.shiftl crc 8))).

(** The device state: the fields the code reads and writes, with the types
    the migration description of the source gives them
    ([VMSTATE_UINT32(crc, f2xx_crc)], [VMSTATE_UINT8(idr, f2xx_crc)]). *)
Record f2xx_crc := mk_f2xx_crc {
  crc : Z;
  idr : Z
}.

(** What the device writes to the log of the emulator. *)
Inductive crc_log :=
  | LOG_UNIMP_read          (* "f2xx crc only supports 4-byte reads" *)
  | LOG_UNIMP_write         (* "f2xx crc only supports 4-byte writes" *)
  | LOG_GUEST_ERROR_read (reg : Z)   (* "invalid read f2xx crc register 0x%x" *)
  | LOG_GUEST_ERROR_write (reg : Z). (* "invalid write f2xx crc register 0x%x" *)

(** [f2xx_crc_read]: the value read and what is logged.  [addr] is a
    [hwaddr] (64 bits), [size] an [unsigned int]. *)
Definition f2xx_crc_read (s : f2xx_crc) (addr : Z) (size : Z)
  : Z * list crc_log :=
  if negb (size =? 4) then (0, [LOG_UNIMP_read])
  else
    let addr := Z.shiftr addr 2 in
    if addr >=? R_CRC_MAX then
      (0, [LOG_GUEST_ERROR_read (u32 (Z.shiftl (u32 addr) 2))])
    else if addr =? R_CRC_DR then (crc s, [])
    else if addr =? R_CRC_IDR then (idr s, [])
    else (0, []).

(** [f2xx_crc_write]: the state after the write and what is logged.  [data]
    is a [uint64_t]; the bytes handed to [update_crc] are [uint8_t], and the
    assignment to [idr] converts to [uint8_t]. *)
Definition f2xx_crc_write (s : f2xx_crc) (addr : Z) (data : Z) (size : Z)
  : f2xx_crc * list crc_log :=
  if negb (size =? 4) then (s, [LOG_UNIMP_write])
  else
    let addr := Z.shiftr addr 2 in
    if addr >=? R_CRC_MAX then
      (s, [LOG_GUEST_ERROR_write (u32 (Z.shiftl (u32 addr) 2))])
    else if addr =? R_CRC_DR then
      let c1 := update_crc (crc s) (Z.land (Z.shiftr data 24) 0xff) in
      let c2 := update_crc c1 (Z.land (Z.shiftr data 16) 0xff) in
      let c3 := update_crc c2 (Z.land (Z.shiftr data 8) 0xff) in
      let c4 := update_crc c3 (Z.land data 0xff) in
      (mk_f2xx_crc c4 (idr s), [])
    else if addr =? R_CRC_IDR then
      (mk_f2xx_crc (crc s) (data mod 2 ^ 8), [])
    else if addr =? R_CRC_CR then
      (if negb (Z.land data 0x1 =? 0)
       then mk_f2xx_crc R_CRC_DR_RESET (idr s) else s, [])
    else (s, []).

(** [f2xx_crc_reset]. *)
Definition f2xx_crc_reset (s : f2xx_crc) : f2xx_crc :=
  mk_f2xx_crc R_CRC_DR_RESET (idr s).

(** *** Vocabulary of the CRC properties *)

(** The polynomial the comment above the table names. *)
Definition CRC_POLY : Z := 0x04C11DB7.

(** One bit of the shift-register computation of a CRC, most significant
    bit first, not reflected: shift left in 32 bits, and subtract (exclusive
    or) the polynomial when the bit shifted out was set. *)
Definition crc_bit_step (r : Z) : Z :=
  let r' := u32 (Z.shiftl r 1) in
  if Z.testbit r 31 then Z.lxor r' CRC_POLY else r'.

Definition crc_bits (n : nat) (r : Z) : Z := Nat.iter n crc_bit_step r.

(** The device as [f2xx_crc_reset] leaves it, with a cleared independent
    data register. *)
Definition crc_reset_state : f2xx_crc := mk_f2xx_crc R_CRC_DR_RESET 0.

(** The state of a device that has both fields in the range of their type. *)
Definition crc_state_ok (s : f2xx_crc) : Prop :=
  is_uint32 (crc s) /\ 0 <= idr s < 2 ^ 8.

(** * Further vocabulary of the clock tree *)

(** What an event of a recalculation is, in a memory with wiring [W]: a
    diagnostic carries a 32-bit frequency above the maximum of its node; a
    notification raises (level 1) one of the live observers of its node. *)
Definition event_ok (W : list Clk) (e : event) : Prop :=
  match e with
  | Diag k f m =>
    exists c, W !! k = Some c /\ m = max_output_freq c /\ m < f <= UINT32_MAX
  | SetIrq k u l =>
    l = 1 /\ exists c, W !! k = Some c /\ u ∈ take (user_count c) (user c)
  end.

(** A notification: a call of [qemu_set_irq] with level 1. *)
Definition is_raise (e : event) : Prop :=
  match e with SetIrq _ _ l => l = 1 | Diag _ _ _ => False end.

(** The first [k] structs of a memory: the nodes created so far, when the
    structs are created in the order of their addresses. *)
Definition prefix (k : nat) (s : state) : state :=
  mkState (take k (heap s)) (trace s).

(** Three zeroed structs of which the first two have been created: a
    source at 8 MHz and a doubler on it. *)
Definition two_created : state := Eval vm_compute in
  Examples.build
    (clktree_create_src_clk (H := Examples.cfg) 8 0 "src" 8000000 true ;;
     clktree_create_clk (H := Examples.cfg) 8 1 "x2" 2 1 true UINT32_MAX 0
                        [0%nat]) 3.

(** [chain_from l x path]: the nodes of [path], in order, each select the
    one before, the first one selecting [x]: a chain hanging from [x]. *)
Fixpoint chain_from (l : list Clk) (x : nat) (path : list nat) : Prop :=
  match path with
  | [] => True
  | n :: rest => selects l n x /\ chain_from l n rest
  end.

(** What the nodes of a path make, one after the other, of a frequency. *)
Fixpoint apply_path (l : list Clk) (path : list nat) (v : Z) : Z :=
  match path with
  | [] => v
  | n :: rest =>
    match l !! n with
    | Some c => apply_path l rest (clk_apply c v)
    | None => v
    end
  end.

(** The three arrays of every struct have their capacity: the fields are
    arrays of [CLKTREE_MAX_IRQ], [CLKTREE_MAX_OUTPUT] and
    [CLKTREE_MAX_INPUT] entries, the sizes [CLKTREE_ADD_LINK] is given for
    them. *)
Definition sized `{ClkConfig} (l : list Clk) : Prop :=
  forall a c, l !! a = Some c ->
    length (user c) = CLKTREE_MAX_IRQ /\
    length (output c) = CLKTREE_MAX_OUTPUT /\
    length (input c) = CLKTREE_MAX_INPUT.

(** The number of times [p] occurs among the input clocks given to
    [clktree_create_clk]. *)
Fixpoint occurrences (p : nat) (ins : list nat) : nat :=
  match ins with
  | [] => 0
  | q :: rest => ((if decide (q = p) then 1 else 0) + occurrences p rest)%nat
  end.

(** The input clocks fit: there is room for them after the reserved entry
    of the candidate-input array, and each input clock has room in its
    fan-out array for as many entries as it occurs among them; the fan-out
    count of the node itself is the 0 that [clktree_create_generic] has
    just stored. *)
Definition fits `{ClkConfig} (l : list Clk) (clk : nat) (ins : list nat)
  : Prop :=
  (1 + length ins <= CLKTREE_MAX_INPUT)%nat /\
  forall p pc, p ∈ ins -> l !! p = Some pc ->
    ((if decide (p = clk) then 0 else output_count pc) + occurrences p ins
     <= CLKTREE_MAX_OUTPUT)%nat.

(** * Properties *)

(** [<[x := c]> l !! x = Some c] for an address in the memory. *)
Ltac insert_eq := apply list_lookup_insert_eq; by eapply lookup_lt_Some.

(** ** The monad *)

Lemma bind_Ok {A B} (m : M A) (k : A -> M B) s r :
  bind m k s = Ok r -> exists a s1, m s = Ok (a, s1) /\ k a s1 = Ok r.
Proof.
  unfold bind. destruct (m s) as [[a s1]|e]; [eauto | discriminate].
Qed.

Lemma bind_run {A B} (m : M A) (k : A -> M B) s a s1 :
  m s = Ok (a, s1) -> bind m k s = k a s1.
Proof. unfold bind. intros ->. reflexivity. Qed.

Lemma bind_Abort {A B} (m : M A) (k : A -> M B) s e :
  m s = Abort e -> bind m k s = Abort e.
Proof. unfold bind. intros ->. reflexivity. Qed.

Lemma lift_Ok {A} (r : result A) s a s' :
  lift r s = Ok (a, s') -> r = Ok a /\ s' = s.
Proof. unfold lift. destruct r; intros [= <- <-]; auto. Qed.

Lemma lift_run {A} (r : result A) s a : r = Ok a -> lift r s = Ok (a, s).
Proof. intros ->. reflexivity. Qed.

Lemma load_Ok clk s c s' :
  load clk s = Ok (c, s') -> heap s !! clk = Some c /\ s' = s.
Proof. unfold load. destruct (heap s !! clk); intros [= <- <-]; auto. Qed.

Lemma load_run clk s c : heap s !! clk = Some c -> load clk s = Ok (c, s).
Proof. unfold load. intros ->. reflexivity. Qed.

Lemma store_Ok clk c s u s' :
  store clk c s = Ok (u, s') ->
  is_Some (heap s !! clk) /\ s' = mkState (<[clk := c]> (heap s)) (trace s).
Proof.
  unfold store. destruct (heap s !! clk) eqn:E; intros [= <- <-]; eauto.
Qed.

Lemma store_run clk c c0 s :
  heap s !! clk = Some c0 ->
  store clk c s = Ok (tt, mkState (<[clk := c]> (heap s)) (trace s)).
Proof. unfold store. intros ->. reflexivity. Qed.

Lemma modify_Ok clk f s u s' :
  modify clk f s = Ok (u, s') ->
  exists c, heap s !! clk = Some c /\
            s' = mkState (<[clk := f c]> (heap s)) (trace s).
Proof.
  unfold modify. intros H.
  apply bind_Ok in H as (c & s1 & Hl & Hs).
  apply load_Ok in Hl as [Hl ->].
  apply store_Ok in Hs as [_ ->]. eauto.
Qed.

Lemma modify_run clk f s c :
  heap s !! clk = Some c ->
  modify clk f s = Ok (tt, mkState (<[clk := f c]> (heap s)) (trace s)).
Proof.
  intros H. unfold modify. rewrite (bind_run _ _ _ _ _ (load_run _ _ _ H)).
  eapply store_run; eauto.
Qed.

Lemma assert_Ok a b s u s' : assert a b s = Ok (u, s') -> b = true /\ s' = s.
Proof. unfold assert. destruct b; [intros [= <- <-]; auto | discriminate]. Qed.

Lemma array_set_Ok {A} (arr : list A) i v s arr' s' :
  array_set arr i v s = Ok (arr', s') ->
  (i < length arr)%nat /\ arr' = <[i := v]> arr /\ s' = s.
Proof.
  unfold array_set. destruct (decide _); [intros [= <- <-]; auto | discriminate].
Qed.

Lemma array_set_run {A} (arr : list A) i v s :
  (i < length arr)%nat -> array_set arr i v s = Ok (<[i := v]> arr, s).
Proof. intros H. unfold array_set. rewrite decide_True by done. reflexivity. Qed.

(** A counted loop that reads [arr[i]] at each turn runs over the first
    entries of the array. *)
Lemma for_range_array {A} (arr : list A) (g : A -> M unit) n start s :
  (start + n <= length arr)%nat ->
  for_range start n (fun i => x <- array_get arr i ;; g x) s
  = for_each (take n (drop start arr)) g s.
Proof.
  revert start s. induction n as [|n IH]; intros start s Hlen; [reflexivity|].
  destruct (lookup_lt_is_Some_2 arr start) as [x Hx]; [lia|].
  rewrite (drop_S _ _ _ Hx). simpl.
  unfold bind at 1. unfold bind at 1. unfold array_get. rewrite Hx. simpl.
  unfold bind at 2.
  destruct (g x s) as [[[] s1]|e]; [|reflexivity].
  apply IH. lia.
Qed.

Lemma for_range_array_Ok {A} (arr : list A) (g : A -> M unit) n start s r :
  for_range start n (fun i => x <- array_get arr i ;; g x) s = Ok r ->
  (start + n <= length arr)%nat \/ n = O.
Proof.
  revert start s. induction n as [|n IH]; intros start s H; [by right|].
  left. simpl in H. apply bind_Ok in H as ([] & s1 & H1 & H2).
  apply bind_Ok in H1 as (x & s0 & Hx & _).
  unfold array_get in Hx. destruct (arr !! start) eqn:E; [|discriminate].
  apply lookup_lt_Some in E.
  apply IH in H2 as [H2| ->]; lia.
Qed.

Lemma for_each_emit {A} (l : list A) (f : A -> event) s :
  for_each l (fun x => emit (f x)) s
  = Ok (tt, mkState (heap s) (trace s ++ (f <$> l))).
Proof.
  revert s. induction l as [|x l IH]; intros s; simpl.
  - rewrite app_nil_r. by destruct s.
  - unfold bind, emit at 1. rewrite IH. simpl. by rewrite <- app_assoc.
Qed.


(** ** One level of [clktree_recalc_output_freq] *)

Lemma new_output_freq_of_Ok c v :
  new_output_freq_of c = Ok v <->
  (enabled c = false /\ v = 0) \/
  (enabled c = true /\ divisor c <> 0 /\
   v = (input_freq c * multiplier c / divisor c) mod 2 ^ 32).
Proof.
  unfold new_output_freq_of, muldiv64, u32, u64.
  destruct (enabled c); [|split; [intros [= <-]; auto | intros [[_ ->]|[? _]]; done]].
  destruct (Z.eqb_spec (divisor c) 0) as [E|E].
  - split; [discriminate | intros [[? _]|(_ & ? & _)]; done].
  - assert (Hm : forall z, (z mod 2 ^ 64) mod 2 ^ 32 = z mod 2 ^ 32).
    { intros z. apply Z.mod_mod_divide. exists (2 ^ 32). reflexivity. }
    rewrite Hm. split.
    + intros [= <-]. right. auto.
    + intros [[? _]|(_ & _ & ->)]; done.
Qed.

Lemma new_output_freq_of_range c v :
  new_output_freq_of c = Ok v -> 0 <= v <= UINT32_MAX.
Proof.
  intros [[_ ->]|(_ & _ & ->)]%new_output_freq_of_Ok; unfold UINT32_MAX.
  - lia.
  - pose proof (Z.mod_pos_bound (input_freq c * multiplier c / divisor c)
                                (2 ^ 32)). lia.
Qed.

(** With the node's struct and its new frequency at hand, one call is a
    test, then the change of the node and a walk over its live fan-out
    entries. *)
Lemma recalc_S_same f x s c :
  heap s !! x = Some c ->
  new_output_freq_of c = Ok (output_freq c) ->
  clktree_recalc_output_freq (S f) x s = Ok (tt, s).
Proof.
  intros Hc Hnew. simpl.
  rewrite (bind_run _ _ _ _ _ (load_run _ _ _ Hc)).
  rewrite (bind_run _ _ _ _ _ (lift_run _ _ _ Hnew)).
  by rewrite Z.eqb_refl.
Qed.

Lemma recalc_S_change_pre f x s c new :
  heap s !! x = Some c ->
  new_output_freq_of c = Ok new ->
  new <> output_freq c ->
  clktree_recalc_output_freq (S f) x s =
  (for_range 0 (user_count c) (fun i =>
     u <- array_get (user c) i ;; emit (SetIrq x u 1)) ;;
   for_range 0 (output_count c) (fun i =>
     next_clk <- array_get (output c) i ;;
     propagate_to (clktree_recalc_output_freq f) x new next_clk))
  (mkState (<[x := with_output_freq new c]> (heap s))
     (trace s ++ if new >? max_output_freq c
                 then [Diag x new (max_output_freq c)] else [])).
Proof.
  intros Hc Hnew Hne. simpl.
  rewrite (bind_run _ _ _ _ _ (load_run _ _ _ Hc)).
  rewrite (bind_run _ _ _ _ _ (lift_run _ _ _ Hnew)).
  apply Z.eqb_neq in Hne. rewrite Hne. simpl.
  rewrite (bind_run _ _ _ _ _ (modify_run _ _ _ _ Hc)).
  set (s1 := mkState _ _).
  set (d := if new >? max_output_freq c then _ else _).
  assert (Hd : d s1 = Ok (tt, mkState (heap s1)
             (trace s1 ++ if new >? max_output_freq c
                          then [Diag x new (max_output_freq c)] else []))).
  { unfold d. destruct (new >? max_output_freq c); [reflexivity|].
    unfold ret. rewrite app_nil_r. by destruct s1. }
  by rewrite (bind_run _ _ _ _ _ Hd).
Qed.

Lemma recalc_S_change f x s c new :
  heap s !! x = Some c ->
  new_output_freq_of c = Ok new ->
  new <> output_freq c ->
  (user_count c <= length (user c))%nat ->
  (output_count c <= length (output c))%nat ->
  clktree_recalc_output_freq (S f) x s =
  for_each (take (output_count c) (output c))
           (propagate_to (clktree_recalc_output_freq f) x new)
           (changed_state x c new s).
Proof.
  intros Hc Hnew Hne Hu Ho.
  rewrite (recalc_S_change_pre _ _ _ _ _ Hc Hnew Hne).
  unfold bind at 1. rewrite for_range_array by (simpl; lia).
  rewrite for_each_emit. simpl.
  rewrite for_range_array by (simpl; lia).
  rewrite !drop_0. unfold changed_state, change_events.
  by rewrite app_assoc.
Qed.

Lemma recalc_S_Ok f x s r :
  clktree_recalc_output_freq (S f) x s = Ok r ->
  exists c new, heap s !! x = Some c /\ new_output_freq_of c = Ok new /\
    ((new = output_freq c /\ r = (tt, s)) \/
     (new <> output_freq c /\
      (user_count c <= length (user c))%nat /\
      (output_count c <= length (output c))%nat /\
      for_each (take (output_count c) (output c))
               (propagate_to (clktree_recalc_output_freq f) x new)
               (changed_state x c new s) = Ok r)).
Proof.
  intros H. pose proof H as H0. simpl in H0.
  apply bind_Ok in H0 as (c & s1 & [Hc ->]%load_Ok & H0).
  apply bind_Ok in H0 as (new & s1 & [Hn ->]%lift_Ok & _).
  exists c, new. split; [done|]. split; [done|].
  destruct (decide (new = output_freq c)) as [->|Hne].
  - left. rewrite (recalc_S_same _ _ _ _ Hc Hn) in H. by injection H as <-.
  - right. split; [done|].
    pose proof H as H1.
    rewrite (recalc_S_change_pre _ _ _ _ _ Hc Hn Hne) in H1.
    apply bind_Ok in H1 as ([] & s2 & Hu & Ho).
    apply for_range_array_Ok in Hu. apply for_range_array_Ok in Ho.
    assert (user_count c <= length (user c))%nat by lia.
    assert (output_count c <= length (output c))%nat by lia.
    rewrite (recalc_S_change _ _ _ _ _ Hc Hn Hne) in H by done. done.
Qed.

(** ** The returning runs are those of the relation [Recalc] *)

Lemma propagate_to_Ok rec x v o s r :
  propagate_to rec x v o s = Ok r ->
  exists n nc p, o = Some n /\ heap s !! n = Some nc /\
    clktree_get_input_clk nc = Ok p /\
    ((p <> Some x /\ r = (tt, s)) \/
     (p = Some x /\ rec n (input_freq_state n nc v s) = Ok r)).
Proof.
  unfold propagate_to. destruct o as [n|]; [|discriminate].
  intros H. apply bind_Ok in H as (nc & s1 & [Hc ->]%load_Ok & H).
  apply bind_Ok in H as (p & s1 & [Hp ->]%lift_Ok & H).
  exists n, nc, p. do 3 (split; [done|]).
  destruct (decide (p = Some x)) as [->|Hne].
  - right. split; [done|]. unfold set_input_freq_then in H.
    by rewrite (bind_run _ _ _ _ _ (modify_run _ _ _ _ Hc)) in H.
  - left. split; [done|]. by injection H as <-.
Qed.

Lemma Recalc_adequate f :
  forall x s s', clktree_recalc_output_freq f x s = Ok (tt, s') ->
                 Recalc x s s'.
Proof.
  induction f as [|f IH]; intros x s s' H; [discriminate|].
  apply recalc_S_Ok in H as (c & new & Hc & Hn & [[-> [= <-]]|(Hne & Hu & Ho & H)]).
  { eapply Recalc_same; eauto. }
  eapply Recalc_change; eauto.
  revert H. generalize (changed_state x c new s).
  generalize (take (output_count c) (output c)).
  intros l. induction l as [|o l IHl]; intros s0 H; simpl in H.
  - injection H as <-. constructor.
  - apply bind_Ok in H as ([] & s1 & Ho1 & H).
    apply propagate_to_Ok in Ho1
      as (n & nc & p & -> & Hnc & Hp & [[Hne' [= <-]]|[-> Hr]]).
    + eapply Propagate_skip; eauto.
    + eapply Propagate_visit; eauto.
Qed.

(** A fan-out child that has selected another input is skipped. *)
Lemma propagate_to_skip rec x v n nc p s :
  heap s !! n = Some nc ->
  clktree_get_input_clk nc = Ok p ->
  p <> Some x ->
  propagate_to rec x v (Some n) s = Ok (tt, s).
Proof.
  intros Hn Hp Hne. unfold propagate_to.
  rewrite (bind_run _ _ _ _ _ (load_run _ _ _ Hn)).
  rewrite (bind_run _ _ _ _ _ (lift_run _ _ _ Hp)).
  by rewrite decide_False.
Qed.

Lemma propagate_to_visit rec x v n nc s :
  heap s !! n = Some nc ->
  clktree_get_input_clk nc = Ok (Some x) ->
  propagate_to rec x v (Some n) s = rec n (input_freq_state n nc v s).
Proof.
  intros Hn Hp. unfold propagate_to.
  rewrite (bind_run _ _ _ _ _ (load_run _ _ _ Hn)).
  rewrite (bind_run _ _ _ _ _ (lift_run _ _ _ Hp)).
  rewrite decide_True by done. unfold set_input_freq_then.
  by rewrite (bind_run _ _ _ _ _ (modify_run _ _ _ _ Hn)).
Qed.

(** Conversely, every run of the relation is a run of the function, for
    all fuel from some amount on. *)
Lemma Recalc_Propagate_complete :
  (forall x s s', Recalc x s s' ->
     exists f, forall f', (f <= f')%nat ->
       clktree_recalc_output_freq f' x s = Ok (tt, s')) /\
  (forall x v l s s', Propagate x v l s s' ->
     exists f, forall f', (f <= f')%nat ->
       for_each l (propagate_to (clktree_recalc_output_freq f') x v) s
       = Ok (tt, s')).
Proof.
  apply Recalc_Propagate_ind.
  - intros x s c Hc Hn. exists 1%nat. intros [|f'] Hf; [lia|].
    by apply recalc_S_same with (c := c).
  - intros x s c new s' Hc Hn Hne Hu Ho _ [f IH].
    exists (S f). intros [|f'] Hf; [lia|].
    rewrite (recalc_S_change _ _ _ _ _ Hc Hn Hne Hu Ho). apply IH. lia.
  - intros x v s. by exists 0%nat.
  - intros x v n ns s s' nc p Hn Hp Hne _ [f IH].
    exists f. intros f' Hf. cbn [for_each].
    rewrite (bind_run _ _ _ _ _ (propagate_to_skip _ _ _ _ _ _ _ Hn Hp Hne)).
    by apply IH.
  - intros x v n ns s s1 s' nc Hn Hp _ [f1 IH1] _ [f2 IH2].
    exists (f1 `max` f2)%nat. intros f' Hf. cbn [for_each].
    rewrite (bind_run _ _ _ tt s1).
    + apply IH2. lia.
    + rewrite (propagate_to_visit _ _ _ _ _ _ Hn Hp). apply IH1. lia.
Qed.

Lemma Recalc_complete x s s' :
  Recalc x s s' ->
  exists f, forall f', (f <= f')%nat ->
    clktree_recalc_output_freq f' x s = Ok (tt, s').
Proof. apply Recalc_Propagate_complete. Qed.

(** ** What a recalculation leaves alone: the wiring *)

Lemma static_with_output_freq v c : static (with_output_freq v c) = static c.
Proof. reflexivity. Qed.

Lemma static_with_input_freq v c : static (with_input_freq v c) = static c.
Proof. reflexivity. Qed.

Lemma wiring_lookup s y c :
  heap s !! y = Some c -> wiring s !! y = Some (static c).
Proof. intros H. unfold wiring. by rewrite list_lookup_fmap, H. Qed.

Lemma wiring_lookup_inv s y w :
  wiring s !! y = Some w -> exists c, heap s !! y = Some c /\ w = static c.
Proof.
  unfold wiring. rewrite list_lookup_fmap.
  destruct (heap s !! y) as [c|]; [|discriminate]. intros [= <-]. eauto.
Qed.

Lemma wiring_insert_static l x c c' tr tr' :
  l !! x = Some c -> static c' = static c ->
  wiring (mkState (<[x := c']> l) tr') = wiring (mkState l tr).
Proof.
  intros Hx Hst. unfold wiring. simpl.
  rewrite list_fmap_insert, Hst. apply list_insert_id.
  by rewrite list_lookup_fmap, Hx.
Qed.

Lemma wiring_changed_state x c new s :
  heap s !! x = Some c -> wiring (changed_state x c new s) = wiring s.
Proof.
  intros H. destruct s as [l tr].
  by apply wiring_insert_static with (c := c).
Qed.

Lemma wiring_input_freq_state n nc v s :
  heap s !! n = Some nc -> wiring (input_freq_state n nc v s) = wiring s.
Proof.
  intros H. destruct s as [l tr].
  by apply wiring_insert_static with (c := nc).
Qed.

Lemma Recalc_Propagate_wiring :
  (forall x s s', Recalc x s s' -> wiring s' = wiring s) /\
  (forall x v l s s', Propagate x v l s s' -> wiring s' = wiring s).
Proof.
  apply Recalc_Propagate_ind.
  - done.
  - intros x s c new s' Hc _ _ _ _ _ IH.
    by rewrite IH, wiring_changed_state.
  - done.
  - done.
  - intros x v n ns s s1 s' nc Hn _ _ IH1 _ IH2.
    by rewrite IH2, IH1, wiring_input_freq_state.
Qed.

Lemma Recalc_wiring x s s' : Recalc x s s' -> wiring s' = wiring s.
Proof. apply Recalc_Propagate_wiring. Qed.

Lemma Propagate_wiring x v l s s' :
  Propagate x v l s s' -> wiring s' = wiring s.
Proof. apply Recalc_Propagate_wiring. Qed.

Lemma wiring_length s s' :
  wiring s' = wiring s -> length (heap s') = length (heap s).
Proof.
  unfold wiring. intros H. apply (f_equal length) in H.
  by rewrite !length_fmap in H.
Qed.

Lemma wiring_static s s' y c :
  wiring s' = wiring s -> heap s !! y = Some c ->
  exists c', heap s' !! y = Some c' /\ static c' = static c.
Proof.
  intros H Hc. apply wiring_lookup in Hc. rewrite <- H in Hc.
  apply wiring_lookup_inv in Hc as (c' & Hc' & Hst). eauto.
Qed.

(** ** The equation of the output frequency is re-established *)

Lemma clk_ok_with_output_freq c new :
  new_output_freq_of c = Ok new -> clk_ok (with_output_freq new c).
Proof. intros H. unfold clk_ok. exact H. Qed.

Lemma Recalc_Propagate_ok :
  (forall x s s', Recalc x s s' ->
     ok_at (heap s') x /\
     (forall y, ok_at (heap s) y -> ok_at (heap s') y) /\
     (forall y, heap s' !! y = heap s !! y \/ ok_at (heap s') y)) /\
  (forall x v l s s', Propagate x v l s s' ->
     (forall y, ok_at (heap s) y -> ok_at (heap s') y) /\
     (forall y, heap s' !! y = heap s !! y \/ ok_at (heap s') y)).
Proof.
  apply Recalc_Propagate_ind.
  - intros x s c Hc Hn. split; [by exists c|]. split; auto.
  - intros x s c new s' Hc Hn Hne _ _ _ [IHa IHb].
    assert (Hx1 : ok_at (heap (changed_state x c new s)) x).
    { exists (with_output_freq new c). split.
      - simpl. insert_eq.
      - by apply clk_ok_with_output_freq. }
    assert (Hother : forall y, y <> x ->
              heap (changed_state x c new s) !! y = heap s !! y).
    { intros y Hy. simpl. by apply list_lookup_insert_ne. }
    split; [auto|]. split.
    + intros y Hy. destruct (decide (y = x)) as [->|Hyx]; [auto|].
      apply IHa. unfold ok_at. by rewrite Hother.
    + intros y. destruct (decide (y = x)) as [->|Hyx]; [auto|].
      destruct (IHb y) as [E|E]; [left|by right]. by rewrite E, Hother.
  - intros. split; auto.
  - intros x v n ns s s' nc p _ _ _ _ IH. exact IH.
  - intros x v n ns s s1 s' nc Hn _ _ (IH1 & IH2 & IH3) _ [IHa IHb].
    assert (Hother : forall y, y <> n ->
              heap (input_freq_state n nc v s) !! y = heap s !! y).
    { intros y Hy. simpl. by apply list_lookup_insert_ne. }
    split.
    + intros y Hy. destruct (decide (y = n)) as [->|Hyn]; [auto|].
      apply IHa, IH2. unfold ok_at. by rewrite Hother.
    + intros y. destruct (decide (y = n)) as [->|Hyn]; [auto|].
      destruct (IHb y) as [E|E]; [|by right].
      destruct (IH3 y) as [E'|E']; [left|right].
      * by rewrite E, E', Hother.
      * auto.
Qed.

(** ** What a recalculation leaves alone: the nodes not below *)

Lemma get_input_clk_static c :
  clktree_get_input_clk (static c) = clktree_get_input_clk c.
Proof. reflexivity. Qed.

Lemma selects_wiring s y cy p :
  heap s !! y = Some cy -> clktree_get_input_clk cy = Ok (Some p) ->
  selects (wiring s) y p.
Proof.
  intros Hy Hp. exists (static cy). split; [by apply wiring_lookup|].
  by rewrite get_input_clk_static.
Qed.

Lemma selects_wiring_inv s y p :
  selects (wiring s) y p ->
  exists cy, heap s !! y = Some cy /\ clktree_get_input_clk cy = Ok (Some p).
Proof.
  intros (w & Hw & Hp). apply wiring_lookup_inv in Hw as (cy & Hy & ->).
  exists cy. by rewrite get_input_clk_static in Hp.
Qed.

Lemma selects_fun W y p q : selects W y p -> selects W y q -> p = q.
Proof. intros (c & Hc & Hp) (c' & Hc' & Hq). congruence. Qed.

Lemma below_trans W x y z : below W x y -> below W y z -> below W x z.
Proof.
  intros Hxy Hyz. induction Hyz as [|y' z Hyy' IH Hsel]; [done|].
  eapply below_step; eauto.
Qed.

Lemma sbelow_below W x n : sbelow W x n -> below W x n.
Proof.
  intros (z & Hz & Hb). eapply below_trans; [|exact Hb].
  eapply below_step; [apply below_refl | exact Hz].
Qed.

Lemma below_inv W x n : below W x n -> n = x \/ sbelow W x n.
Proof.
  induction 1 as [|y z Hb IH Hsel]; [by left|]. right.
  destruct IH as [->|(w & Hw & Hwy)].
  - exists z. split; [done | apply below_refl].
  - exists w. split; [done|]. eapply below_step; eauto.
Qed.

Lemma sbelow_child W x n : selects W n x -> sbelow W x n.
Proof. intros H. exists n. split; [done | apply below_refl]. Qed.

Lemma sbelow_trans W x y z : sbelow W x y -> below W y z -> sbelow W x z.
Proof.
  intros (w & Hw & Hwy) Hyz. exists w. split; [done|].
  eapply below_trans; eauto.
Qed.

(** The last step of a descent to a node arrives from the node it selects. *)
Lemma below_selects W a y x :
  below W a y -> selects W y x -> y = a \/ below W a x.
Proof.
  intros Hb Hsel. destruct Hb as [|y' z Hb Hsel']; [by left|]. right.
  by rewrite (selects_fun _ _ _ _ Hsel Hsel').
Qed.

Lemma Recalc_Propagate_frame :
  (forall x s s', Recalc x s s' ->
     (forall m, heap s' !! m = heap s !! m \/ below (wiring s) x m) /\
     exists evs, trace s' = trace s ++ evs /\
       Forall (fun e => below (wiring s) x (event_clk e)) evs) /\
  (forall x v l s s', Propagate x v l s s' ->
     (forall m, heap s' !! m = heap s !! m \/ sbelow (wiring s) x m) /\
     exists evs, trace s' = trace s ++ evs /\
       Forall (fun e => sbelow (wiring s) x (event_clk e)) evs).
Proof.
  apply Recalc_Propagate_ind.
  - intros x s c _ _. split; [by left|]. exists []. by rewrite app_nil_r.
  - intros x s c new s' Hc _ _ _ _ _ [IHa (evs & IHt & IHe)].
    rewrite (wiring_changed_state _ _ _ _ Hc) in IHa, IHe.
    split.
    + intros m. destruct (decide (m = x)) as [->|Hm]; [right; apply below_refl|].
      destruct (IHa m) as [E|E].
      * left. rewrite E. simpl. by apply list_lookup_insert_ne.
      * right. by apply sbelow_below.
    + exists (change_events x c new ++ evs). split.
      * rewrite IHt. simpl. by rewrite app_assoc.
      * apply Forall_app. split.
        -- unfold change_events. apply Forall_app. split.
           ++ destruct (new >? max_output_freq c); repeat constructor.
           ++ apply Forall_fmap, Forall_true. intros u. apply below_refl.
        -- eapply Forall_impl; [exact IHe|]. intros e. apply sbelow_below.
  - intros x v s. split; [by left|]. exists []. by rewrite app_nil_r.
  - intros x v n ns s s' nc p _ _ _ _ IH. exact IH.
  - intros x v n ns s s1 s' nc Hn Hp HR [IH1 (ev1 & Ht1 & He1)]
           _ [IH2 (ev2 & Ht2 & He2)].
    rewrite (Recalc_wiring _ _ _ HR) in IH2, He2.
    rewrite (wiring_input_freq_state _ _ _ _ Hn) in IH1, He1, IH2, He2.
    pose proof (selects_wiring _ _ _ _ Hn Hp) as Hsel.
    split.
    + intros m. destruct (decide (m = n)) as [->|Hm].
      { right. by apply sbelow_child. }
      destruct (IH2 m) as [E2|E2]; [|by right].
      destruct (IH1 m) as [E1|E1].
      * left. rewrite E2, E1. simpl. by apply list_lookup_insert_ne.
      * right. eapply sbelow_trans; [by apply sbelow_child | done].
    + exists (ev1 ++ ev2). split.
      * rewrite Ht2, Ht1. simpl. by rewrite app_assoc.
      * apply Forall_app. split; [|done].
        eapply Forall_impl; [exact He1|]. intros e He.
        eapply sbelow_trans; [by apply sbelow_child | done].
Qed.

Lemma Recalc_frame x s s' m :
  Recalc x s s' -> heap s' !! m = heap s !! m \/ below (wiring s) x m.
Proof. intros H. by apply Recalc_Propagate_frame in H as [H _]. Qed.

Lemma Propagate_frame x v l s s' m :
  Propagate x v l s s' -> heap s' !! m = heap s !! m \/ sbelow (wiring s) x m.
Proof. intros H. by apply Recalc_Propagate_frame in H as [H _]. Qed.

Lemma Recalc_events x s s' :
  Recalc x s s' ->
  exists evs, trace s' = trace s ++ evs /\
    Forall (fun e => below (wiring s) x (event_clk e)) evs.
Proof. intros H. by apply Recalc_Propagate_frame in H as [_ H]. Qed.

(** ** Well-wired memories *)

Lemma int32_small z : INT_MIN <= z <= INT_MAX -> int32 z = z.
Proof.
  unfold INT_MIN, INT_MAX, int32. intros H.
  rewrite Z.mod_small by lia. lia.
Qed.

(** In a well-wired memory the selection of a node is NULL (for the
    sentinel) or a candidate input, higher in the tree and mirrored. *)
Lemma wf_get_input h W y c :
  heap_wf h W -> W !! y = Some c ->
  (selected_input c = -1 /\ clktree_get_input_clk c = Ok None) \/
  (exists q, 0 <= selected_input c /\
             clktree_get_input_clk c = Ok (Some q) /\
             (h y < h q)%nat /\ mirrored W y q).
Proof.
  intros Hwf Hc. destruct (Hwf _ _ Hc) as [_ _ _ _ H0 Hic Hint Hin Hsel].
  unfold clktree_get_input_clk.
  rewrite int32_small by (unfold INT_MIN, INT_MAX in *; lia).
  destruct (Z.ltb_spec (selected_input c + 1) 0) as [?|_]; [lia|].
  destruct (decide (selected_input c = -1)) as [E|E].
  - left. split; [done|]. rewrite E.
    change (Z.to_nat (-1 + 1)) with 0%nat. by rewrite H0.
  - right. destruct (Hin (Z.to_nat (selected_input c + 1))) as (q & Hq & Hh & Hm);
      [lia|].
    exists q. rewrite Hq. split; [lia|]. done.
Qed.

Lemma wf_get_input_Ok h W y c :
  heap_wf h W -> W !! y = Some c -> exists p, clktree_get_input_clk c = Ok p.
Proof.
  intros Hwf Hc.
  destruct (wf_get_input _ _ _ _ Hwf Hc) as [[_ H]|(q & _ & H & _)]; eauto.
Qed.

Lemma wf_selects h W y p :
  heap_wf h W -> selects W y p -> (h y < h p)%nat /\ mirrored W y p.
Proof.
  intros Hwf (c & Hc & Hp).
  destruct (wf_get_input _ _ _ _ Hwf Hc) as [[_ H]|(q & _ & H & Hh & Hm)];
    rewrite H in Hp; [discriminate|].
  injection Hp as <-. done.
Qed.

Lemma wf_below h W x n :
  heap_wf h W -> below W x n -> n = x \/ (h n < h x)%nat.
Proof.
  intros Hwf. induction 1 as [|y z Hb IH Hsel]; [by left|]. right.
  apply (wf_selects _ _ _ _ Hwf) in Hsel as [Hlt _].
  destruct IH as [->|IH]; lia.
Qed.

Lemma wf_sbelow h W x n : heap_wf h W -> sbelow W x n -> (h n < h x)%nat.
Proof.
  intros Hwf (z & Hsel & Hb).
  apply (wf_selects _ _ _ _ Hwf) in Hsel as [Hlt _].
  destruct (wf_below _ _ _ _ Hwf Hb) as [->|?]; lia.
Qed.

Lemma wf_not_sbelow_self h W x : heap_wf h W -> ~ sbelow W x x.
Proof. intros Hwf H. apply (wf_sbelow _ _ _ _ Hwf) in H. lia. Qed.

(** A node that selects [x] is among the live fan-out entries of [x]. *)
Lemma wf_selects_output h s y x c :
  heap_wf h (wiring s) -> selects (wiring s) y x -> heap s !! x = Some c ->
  Some y ∈ take (output_count c) (output c).
Proof.
  intros Hwf Hsel Hc.
  apply (wf_selects _ _ _ _ Hwf) in Hsel as [_ (qc & i & Hq & Hi & Ho)].
  rewrite (wiring_lookup _ _ _ Hc) in Hq. injection Hq as <-. simpl in *.
  apply list_elem_of_lookup. exists i. by rewrite lookup_take_lt.
Qed.

(** A recalculation of [x] writes the output frequency of [x] and nothing
    else of [x]. *)
Lemma Recalc_self h x s s' c :
  heap_wf h (wiring s) -> Recalc x s s' -> heap s !! x = Some c ->
  exists new, new_output_freq_of c = Ok new /\
              heap s' !! x = Some (with_output_freq new c).
Proof.
  intros Hwf HR Hc. inversion HR as [? ? c0 Hc0 Hn|? ? c0 new ? Hc0 Hn Hne Hu Ho HP];
    subst; rewrite Hc in Hc0; injection Hc0 as <-.
  - exists (output_freq c). split; [done|]. rewrite Hc. by destruct c.
  - exists new. split; [done|].
    destruct (Propagate_frame _ _ _ _ _ x HP) as [E|E].
    + rewrite E. simpl. insert_eq.
    + rewrite (wiring_changed_state _ _ _ _ Hc) in E.
      by apply (wf_not_sbelow_self _ _ _ Hwf) in E.
Qed.

(** ** A recalculation settles everything below the node *)

Lemma lookup_input_freq_state_eq n nc v s :
  heap s !! n = Some nc ->
  heap (input_freq_state n nc v s) !! n = Some (with_input_freq v nc).
Proof. intros H. simpl. insert_eq. Qed.

Lemma lookup_input_freq_state_ne n nc v s m :
  m <> n -> heap (input_freq_state n nc v s) !! m = heap s !! m.
Proof. intros H. simpl. by apply list_lookup_insert_ne. Qed.

Lemma lookup_changed_state_eq x c new s :
  heap s !! x = Some c ->
  heap (changed_state x c new s) !! x = Some (with_output_freq new c).
Proof. intros H. simpl. insert_eq. Qed.

Lemma lookup_changed_state_ne x c new s m :
  m <> x -> heap (changed_state x c new s) !! m = heap s !! m.
Proof. intros H. simpl. by apply list_lookup_insert_ne. Qed.

(** Linkage survives a write of a node's input frequency. *)
Lemma linked_input_freq_state n nc v s c :
  heap s !! n = Some nc -> linked (heap s) c ->
  linked (heap (input_freq_state n nc v s)) c.
Proof.
  intros Hn Hl p pc Hp Hpc. destruct (decide (p = n)) as [->|Hpn].
  - rewrite (lookup_input_freq_state_eq _ _ _ _ Hn) in Hpc.
    injection Hpc as <-. simpl. by apply (Hl n).
  - rewrite lookup_input_freq_state_ne in Hpc by done. by apply (Hl p).
Qed.

Lemma Recalc_Propagate_settle h :
  (forall x s s', Recalc x s s' ->
     heap_wf h (wiring s) ->
     (forall y cy, sbelow (wiring s) x y -> heap s !! y = Some cy ->
                   clk_ok cy /\ linked (heap s) cy) ->
     (forall y cy, sbelow (wiring s) x y -> heap s' !! y = Some cy ->
                   clk_ok cy /\ linked (heap s') cy)) /\
  (forall x v l s s', Propagate x v l s s' ->
     heap_wf h (wiring s) ->
     (exists cx, heap s !! x = Some cx /\ output_freq cx = v) ->
     (forall y cy, sbelow (wiring s) x y -> heap s !! y = Some cy ->
        clk_ok cy /\
        (linked (heap s) cy \/ (selects (wiring s) y x /\ Some y ∈ l))) ->
     (forall y cy, sbelow (wiring s) x y -> heap s' !! y = Some cy ->
                   clk_ok cy /\ linked (heap s') cy)).
Proof.
  apply Recalc_Propagate_ind.
  - (* same *) auto.
  - (* change *)
    intros x s c new s' Hc Hn Hne Hu Ho HP IH Hwf Hpre.
    pose proof (wiring_changed_state _ _ new _ Hc) as Hw.
    rewrite Hw in IH. apply IH; [done| |].
    { exists (with_output_freq new c). split; [|done].
      by apply lookup_changed_state_eq. }
    intros y cy Hsb Hy.
    assert (Hyx : y <> x).
    { intros ->. by apply (wf_not_sbelow_self _ _ _ Hwf) in Hsb. }
    rewrite lookup_changed_state_ne in Hy by done.
    destruct (Hpre y cy Hsb Hy) as [Hok Hl]. split; [done|].
    destruct (wf_get_input_Ok _ _ _ _ Hwf (wiring_lookup _ _ _ Hy)) as [p Hp].
    rewrite get_input_clk_static in Hp.
    destruct (decide (p = Some x)) as [->|Hpx].
    + right. pose proof (selects_wiring _ _ _ _ Hy Hp) as Hsel.
      split; [done|]. eapply wf_selects_output; eauto.
    + left. intros q qc Hq Hqc. rewrite Hp in Hq. injection Hq as ->.
      rewrite lookup_changed_state_ne in Hqc by congruence.
      apply (Hl q); [by rewrite Hp | done].
  - (* nil *)
    intros x v s _ _ Hpre y cy Hsb Hy.
    destruct (Hpre y cy Hsb Hy) as [Hok [Hl|[_ Hin]]]; [done|].
    by apply elem_of_nil in Hin.
  - (* skip *)
    intros x v n ns s s' nc p Hn Hp Hne HP IH Hwf Hx Hpre.
    apply IH; [done|done|]. intros y cy Hsb Hy.
    destruct (Hpre y cy Hsb Hy) as [Hok [Hl|[Hsel Hin]]]; (split; [done|]);
      [by left|]. right. split; [done|].
    apply elem_of_cons in Hin as [[= ->]|Hin]; [|done].
    apply selects_wiring_inv in Hsel as (c' & Hc' & Hp').
    congruence.
  - (* visit *)
    intros x v n ns s s1 s' nc Hn Hp HR IH1 HP IH2 Hwf (cx & Hcx & Hv) Hpre.
    pose proof (wiring_input_freq_state _ _ v _ Hn) as Hwin.
    pose proof (Recalc_wiring _ _ _ HR) as Hw1. rewrite Hwin in Hw1.
    pose proof (selects_wiring _ _ _ _ Hn Hp) as Hsel.
    pose proof (wf_selects _ _ _ _ Hwf Hsel) as [Hhn _].
    assert (Hnx : n <> x) by (intros ->; lia).
    rewrite Hwin in IH1. rewrite Hw1 in IH2.
    (* below the child *)
    assert (Hpost1 : forall y cy, sbelow (wiring s) n y ->
               heap s1 !! y = Some cy -> clk_ok cy /\ linked (heap s1) cy).
    { apply IH1; [done|]. intros y cy Hsb Hy.
      assert (Hyn : y <> n).
      { intros ->. by apply (wf_not_sbelow_self _ _ _ Hwf) in Hsb. }
      rewrite lookup_input_freq_state_ne in Hy by done.
      assert (Hsbx : sbelow (wiring s) x y).
      { eapply sbelow_trans; [by apply sbelow_child|by apply sbelow_below]. }
      destruct (Hpre y cy Hsbx Hy) as [Hok [Hl|[Hsely _]]].
      - split; [done|]. by apply linked_input_freq_state.
      - exfalso. destruct Hsb as (z & Hz & Hzy).
        pose proof (wf_selects _ _ _ _ Hwf Hz) as [Hhz _].
        destruct (below_selects _ _ _ _ Hzy Hsely) as [->|Hzx].
        + apply Hnx. eapply selects_fun; eauto.
        + destruct (wf_below _ _ _ _ Hwf Hzx) as [->|?]; lia. }
    (* the child itself, and the node *)
    destruct (Recalc_self _ _ _ _ _ ltac:(by rewrite Hwin) HR
                (lookup_input_freq_state_eq _ _ v _ Hn)) as (newn & Hnewn & Hn1).
    assert (Hx1 : heap s1 !! x = Some cx).
    { destruct (Recalc_frame _ _ _ x HR) as [E|E].
      - rewrite E, lookup_input_freq_state_ne by done. done.
      - rewrite Hwin in E.
        destruct (wf_below _ _ _ _ Hwf E) as [->|?]; [done|lia]. }
    apply IH2; [done|by exists cx|].
    intros y cy Hsb Hy. destruct (decide (y = n)) as [->|Hyn].
    { rewrite Hn1 in Hy. injection Hy as <-. split.
      - by apply clk_ok_with_output_freq.
      - left. intros q qc Hq Hqc.
        change (clktree_get_input_clk nc = Ok (Some q)) in Hq.
        rewrite Hp in Hq. injection Hq as <-.
        rewrite Hx1 in Hqc. injection Hqc as <-. simpl. done. }
    destruct (Recalc_frame _ _ _ y HR) as [E|E].
    + rewrite E, lookup_input_freq_state_ne in Hy by done.
      destruct (Hpre y cy Hsb Hy) as [Hok [Hl|[Hsely Hin]]]; (split; [done|]).
      * left. intros q qc Hq Hqc.
        destruct (Recalc_frame _ _ _ q HR) as [Eq|Eq].
        -- rewrite Eq in Hqc.
           eapply (linked_input_freq_state _ _ v _ _ Hn Hl); eauto.
        -- rewrite Hwin in Eq.
           assert (Hby : below (wiring s) n y).
           { eapply below_step; [exact Eq|]. eapply selects_wiring; eauto. }
           apply below_inv in Hby as [->|Hby]; [done|].
           assert (Hy1 : heap s1 !! y = Some cy)
             by (by rewrite E, lookup_input_freq_state_ne).
           destruct (Hpost1 y cy Hby Hy1) as [_ Hl1]. by apply (Hl1 q).
      * right. split; [done|].
        apply elem_of_cons in Hin as [[= ->]|Hin]; done.
    + rewrite Hwin in E. apply below_inv in E as [->|E]; [done|].
      destruct (Hpost1 y cy E Hy) as [Hok Hl]. split; [done|by left].
Qed.

(** In a well-wired memory where every node has the output of its selected
    input as input and every node but [x] satisfies the equation, a
    returning recalculation of [x] leaves all nodes linked and satisfying
    the equation. *)
Lemma Recalc_settled h x s s' :
  heap_wf h (wiring s) -> settled_but x (heap s) -> Recalc x s s' ->
  settled (heap s').
Proof.
  intros Hwf Hpre HR.
  assert (Hpost : forall y cy, sbelow (wiring s) x y ->
             heap s' !! y = Some cy -> clk_ok cy /\ linked (heap s') cy).
  { eapply (proj1 (Recalc_Propagate_settle h)); eauto.
    intros y cy Hsb Hy. destruct (Hpre y cy Hy) as [Hl Hok]. split; [|done].
    apply Hok. intros ->. by apply (wf_not_sbelow_self _ _ _ Hwf) in Hsb. }
  assert (Hlinked : forall a c, heap s !! a = Some c ->
             a = x \/ heap s' !! a = Some c ->
             forall q qc, clktree_get_input_clk c = Ok (Some q) ->
                          heap s' !! q = Some qc ->
                          input_freq c = output_freq qc).
  { intros a c Ha Hcase q qc Hq Hqc.
    destruct (Hpre a c Ha) as [Hl _].
    destruct (Recalc_frame _ _ _ q HR) as [E|E].
    - rewrite E in Hqc. by apply (Hl q).
    - pose proof (selects_wiring _ _ _ _ Ha Hq) as Hsel.
      pose proof (wf_selects _ _ _ _ Hwf Hsel) as [Hh _].
      destruct Hcase as [->|Ha'].
      + destruct (wf_below _ _ _ _ Hwf E) as [->|?]; lia.
      + assert (Hb : below (wiring s) x a) by (eapply below_step; eauto).
        apply below_inv in Hb as [->|Hb].
        * destruct (wf_below _ _ _ _ Hwf E) as [->|?]; lia.
        * destruct (Hpost a c Hb Ha') as [_ Hl']. by apply (Hl' q). }
  intros a c' Ha'. destruct (decide (a = x)) as [->|Hax].
  - destruct (wiring_static s' s x c') as (c & Hc & Hst);
      [symmetry; apply (Recalc_wiring _ _ _ HR) | done |].
    destruct (Recalc_self _ _ _ _ _ Hwf HR Hc) as (new & Hnew & Hx').
    rewrite Hx' in Ha'. injection Ha' as <-. split.
    + intros q qc Hq Hqc. simpl.
      eapply (Hlinked x c Hc); eauto.
    + by apply clk_ok_with_output_freq.
  - destruct (Recalc_frame _ _ _ a HR) as [E|E].
    + rewrite E in Ha'. destruct (Hpre a c' Ha') as [_ Hok].
      split; [|by apply Hok]. intros q qc Hq Hqc.
      eapply (Hlinked a c' Ha'); eauto. right. by rewrite E.
    + apply below_inv in E as [->|E]; [done|].
      destruct (Hpost a c' E Ha') as [Hok Hl]. done.
Qed.

(** ** Termination: in a well-wired memory the recursion is bounded by the
    height of the node *)

Lemma wf_live_outputs h W y c :
  heap_wf h W -> W !! y = Some c ->
  Forall (fun o => exists n, o = Some n /\ (n < length W)%nat)
         (take (output_count c) (output c)).
Proof.
  intros Hwf Hc. destruct (Hwf _ _ Hc) as [_ _ _ Hout _ _ _ _ _].
  apply Forall_lookup. intros i o Hi.
  apply lookup_take_Some in Hi as [Hi Hlt].
  destruct (Hout i Hlt) as (n & Hn & Hlen).
  exists n. split; [congruence | done].
Qed.

Lemma wf_new_output_freq h W y c :
  heap_wf h W -> W !! y = Some (static c) ->
  exists new, new_output_freq_of c = Ok new.
Proof.
  intros Hwf Hc. destruct (Hwf _ _ Hc) as [Hd _ _ _ _ _ _ _ _]. simpl in Hd.
  destruct (enabled c) eqn:He.
  - eexists. apply new_output_freq_of_Ok. right. eauto.
  - exists 0. apply new_output_freq_of_Ok. left. eauto.
Qed.

Lemma recalc_terminates h f :
  forall x s, heap_wf h (wiring s) -> (x < length (heap s))%nat ->
              (h x < f)%nat ->
              exists s', clktree_recalc_output_freq f x s = Ok (tt, s').
Proof.
  induction f as [|f IH]; intros x s Hwf Hx Hf; [lia|].
  destruct (lookup_lt_is_Some_2 _ _ Hx) as [c Hc].
  pose proof (wiring_lookup _ _ _ Hc) as Hwc.
  destruct (wf_new_output_freq _ _ _ _ Hwf Hwc) as [new Hnew].
  destruct (decide (new = output_freq c)) as [->|Hne].
  { exists s. by eapply recalc_S_same. }
  destruct (Hwf _ _ Hwc) as [_ Hu Ho _ _ _ _ _ _]. simpl in Hu, Ho.
  rewrite (recalc_S_change _ _ _ _ _ Hc Hnew Hne Hu Ho).
  pose proof (wf_live_outputs _ _ _ _ Hwf Hwc) as Hlive. simpl in Hlive.
  pose proof (wiring_changed_state _ _ new _ Hc) as Hw.
  revert Hlive Hw. generalize (changed_state x c new s).
  generalize (take (output_count c) (output c)).
  intros l. induction l as [|o l IHl]; intros s1 Hlive Hw; simpl.
  { by exists s1. }
  apply Forall_cons in Hlive as [(n & -> & Hn) Hlive].
  assert (Hn1 : (n < length (heap s1))%nat).
  { rewrite (wiring_length _ _ Hw). unfold wiring in Hn.
    by rewrite length_fmap in Hn. }
  destruct (lookup_lt_is_Some_2 _ _ Hn1) as [nc Hnc].
  assert (Hwf1 : heap_wf h (wiring s1)) by (by rewrite Hw).
  destruct (wf_get_input_Ok _ _ _ _ Hwf1 (wiring_lookup _ _ _ Hnc)) as [p Hp].
  rewrite get_input_clk_static in Hp.
  unfold bind at 1. unfold propagate_to.
  rewrite (bind_run _ _ _ _ _ (load_run _ _ _ Hnc)).
  rewrite (bind_run _ _ _ _ _ (lift_run _ _ _ Hp)).
  destruct (decide (p = Some x)) as [->|Hpx].
  - unfold set_input_freq_then.
    rewrite (bind_run _ _ _ _ _ (modify_run _ _ _ _ Hnc)).
    pose proof (wiring_input_freq_state _ _ new _ Hnc) as Hwin.
    pose proof (wf_selects _ _ _ _ Hwf1 (selects_wiring _ _ _ _ Hnc Hp))
      as [Hh _].
    destruct (IH n (input_freq_state n nc new s1)) as [s2 Hs2].
    + by rewrite Hwin.
    + simpl. by rewrite length_insert.
    + lia.
    + unfold input_freq_state in Hs2. rewrite Hs2.
      apply IHl; [done|].
      apply Recalc_adequate, Recalc_wiring in Hs2. rewrite Hs2.
      by rewrite <- Hw, <- Hwin.
  - by apply IHl.
Qed.

(** ** The computable test of well-wiredness is sound *)

Lemma mirroredb_spec l a q : mirroredb l a q = true -> mirrored l a q.
Proof.
  unfold mirroredb, mirrored. destruct (l !! q) as [qc|]; [|discriminate].
  intros H%bool_decide_eq_true.
  apply list_elem_of_lookup in H as [i Hi].
  apply lookup_take_Some in Hi as [Hi Hlt]. eauto.
Qed.

Lemma node_wfb_spec h l a c : node_wfb h l a c = true -> node_wf h l a c.
Proof.
  unfold node_wfb. rewrite !andb_true_iff.
  intros [[[[[[[[[[Hd Hu] Hol] Ho] H0] H1] Hil] Hint] Hi] Hs1] Hs2].
  apply negb_true_iff, Z.eqb_neq in Hd.
  apply Nat.leb_le in Hu, Hol, H1, Hil.
  apply bool_decide_eq_true in H0.
  apply Z.leb_le in Hint, Hs1. apply Z.ltb_lt in Hs2.
  rewrite forallb_forall in Ho, Hi.
  split; try done; try lia.
  - intros i Hlt.
    destruct (lookup_lt_is_Some_2 (output c) i) as [o Hio]; [lia|].
    assert (Hin : In o (take (output_count c) (output c))).
    { apply list_elem_of_In, list_elem_of_lookup. exists i.
      by rewrite lookup_take_lt. }
    apply Ho in Hin. destruct o as [n|]; [|discriminate].
    exists n. split; [done|]. by apply Nat.ltb_lt.
  - intros i [Hi1 Hlt].
    destruct (lookup_lt_is_Some_2 (input c) i) as [o Hio]; [lia|].
    assert (Hin : In o (drop 1 (take (input_count c) (input c)))).
    { apply list_elem_of_In, list_elem_of_lookup. exists (i - 1)%nat.
      rewrite lookup_drop. replace (1 + (i - 1))%nat with i by lia.
      by rewrite lookup_take_lt. }
    apply Hi in Hin. destruct o as [q|]; [|discriminate].
    apply andb_true_iff in Hin as [Hh Hm].
    exists q. split; [done|]. split; [by apply Nat.ltb_lt|].
    by apply mirroredb_spec.
Qed.

Lemma heap_wfb_from_spec h l cs a :
  heap_wfb_from h l a cs = true ->
  forall i c, cs !! i = Some c -> node_wf h l (a + i) c.
Proof.
  revert a. induction cs as [|c0 cs IH]; intros a H i c Hi; [done|].
  simpl in H. apply andb_true_iff in H as [H0 H].
  destruct i as [|i]; simpl in Hi.
  - injection Hi as <-. rewrite Nat.add_0_r. by apply node_wfb_spec.
  - replace (a + S i)%nat with (S a + i)%nat by lia. by apply IH.
Qed.

Lemma heap_wfb_spec h l : heap_wfb h l = true -> heap_wf h l.
Proof. intros H a c Hc. by apply (heap_wfb_from_spec h l l 0 H a c). Qed.

(** ** The mutations *)

(** A runtime mutation writes the struct of its node and calls the
    recalculation. *)
Lemma mutate_runtime `{ClkConfig} fuel clk mu s c :
  runtime mu = true -> heap s !! clk = Some c ->
  mutate fuel clk mu s =
  match written mu (heap s) c with
  | Ok c1 => clktree_recalc_output_freq fuel clk
               (mkState (<[clk := c1]> (heap s)) (trace s))
  | Abort e => Abort e
  end.
Proof.
  intros Hr Hc. destruct mu as [m d|b|i|v| |]; try discriminate; simpl.
  - unfold clktree_set_scale.
    by rewrite (bind_run _ _ _ _ _ (modify_run _ _ _ _ Hc)).
  - unfold clktree_set_enabled.
    by rewrite (bind_run _ _ _ _ _ (modify_run _ _ _ _ Hc)).
  - unfold clktree_set_selected_input.
    rewrite (bind_run _ _ _ _ _ (load_run _ _ _ Hc)).
    destruct (u32 (int32 (i + 1)) <? Z.of_nat (input_count c)); [|reflexivity].
    unfold assert. rewrite (bind_run _ _ _ _ _ eq_refl).
    rewrite (bind_run _ _ _ _ _ (modify_run _ _ _ _ Hc)).
    set (s1 := mkState _ _).
    assert (Hc1 : heap s1 !! clk = Some (with_selected_input i c)).
    { simpl. insert_eq. }
    assert (Hfin : forall v,
      clktree_set_input_freq fuel clk v s1 =
      clktree_recalc_output_freq fuel clk
        (mkState (<[clk := with_input_freq v (with_selected_input i c)]> (heap s))
                 (trace s))).
    { intros v. unfold clktree_set_input_freq, set_input_freq_then.
      rewrite (bind_run _ _ _ _ _ (modify_run _ _ _ _ Hc1)). simpl.
      by rewrite list_insert_insert_eq. }
    destruct (i >? -1).
    + unfold bind at 1. unfold bind at 1.
      rewrite (load_run _ _ _ Hc1).
      unfold bind at 1. unfold lift.
      destruct (clktree_get_input_clk (with_selected_input i c)) as [[a|]|e];
        try reflexivity.
      destruct (decide (a = clk)) as [->|Ha].
      * unfold bind at 1. rewrite (load_run _ _ _ Hc1), Hc. simpl. apply Hfin.
      * unfold bind at 1. unfold load. simpl.
        rewrite list_lookup_insert_ne by done.
        destruct (heap s !! a) as [ic|]; [|reflexivity]. apply Hfin.
    + unfold bind at 1. unfold ret. apply Hfin.
  - unfold clktree_set_input_freq, set_input_freq_then.
    by rewrite (bind_run _ _ _ _ _ (modify_run _ _ _ _ Hc)).
Qed.

(** Every mutation that returns has ended in a recalculation of its node. *)
Lemma mutate_ends_in_recalc `{ClkConfig} fuel clk mu s s' :
  mutate fuel clk mu s = Ok (tt, s') ->
  exists s0, clktree_recalc_output_freq fuel clk s0 = Ok (tt, s').
Proof.
  assert (Hrt : forall mu s, runtime mu = true ->
            mutate fuel clk mu s = Ok (tt, s') ->
            exists s0, clktree_recalc_output_freq fuel clk s0 = Ok (tt, s')).
  { intros mu0 s0 Hr Hm.
    destruct (heap s0 !! clk) as [c|] eqn:Hc.
    - rewrite (mutate_runtime _ _ _ _ _ Hr Hc) in Hm.
      destruct (written mu0 (heap s0) c); [eauto | discriminate].
    - exfalso. destruct mu0; try discriminate; simpl in Hm;
        unfold clktree_set_scale, clktree_set_enabled,
          clktree_set_selected_input, clktree_set_input_freq,
          set_input_freq_then, modify, bind, load in Hm;
        by rewrite Hc in Hm. }
  destruct mu as [m d|b|i|v|n v b|n m d b mx i ins];
    try (by apply Hrt).
  - simpl. unfold clktree_create_src_clk. intros Hm.
    apply bind_Ok in Hm as ([] & s1 & _ & Hm).
    by apply (Hrt (Set_input_freq v) s1).
  - simpl. unfold clktree_create_clk. intros Hm.
    apply bind_Ok in Hm as ([] & s1 & _ & Hm).
    apply bind_Ok in Hm as ([] & s2 & _ & Hm).
    by apply (Hrt (Select_input i) s2).
Qed.

Lemma clk_ok_equation c : clk_ok c -> freq_equation c.
Proof.
  unfold clk_ok, freq_equation.
  intros [[-> ->]|(-> & _ & ->)]%new_output_freq_of_Ok; reflexivity.
Qed.

Lemma Propagate_app x v l1 l2 s sm s' :
  Propagate x v l1 s sm -> Propagate x v l2 sm s' ->
  Propagate x v (l1 ++ l2) s s'.
Proof.
  intros H1 H2. induction H1; simpl; [done| |].
  - eapply Propagate_skip; eauto.
  - eapply Propagate_visit; eauto.
Qed.

Lemma Reached_Recalc x s s' y : Reached x s s' y -> Recalc x s s'.
Proof.
  induction 1
    as [|x s c new l1 n l2 sa nc sb s' y Hc Hn Hne Hu Ho Hl H1 Hnc Hp _ IH H2];
    [done|].
  eapply Recalc_change; eauto. rewrite Hl.
  eapply Propagate_app; [exact H1|]. eapply Propagate_visit; eauto.
Qed.

(** Every node a recalculation reaches satisfies the equation when the
    recalculation returns. *)
Lemma Reached_ok x s s' y : Reached x s s' y -> ok_at (heap s') y.
Proof.
  induction 1
    as [x s s' HR|x s c new l1 n l2 sa nc sb s' y _ _ _ _ _ _ _ _ _ _ IH H2].
  - by apply Recalc_Propagate_ok in HR as [HR _].
  - apply Recalc_Propagate_ok in H2 as [H2 _]. by apply H2.
Qed.

(** ** The scenarios of the specification, run on the model *)

(** Scenario 1: a doubler on a source at 8,000,000 reads 16,000,000. *)
Example scenario_1 :
  output_freq <$> heap Examples.chain !! 1%nat = Some 16000000.
Proof. reflexivity. Qed.

(** Scenario 2: disabling the doubler brings it and the halver below it to
    0, and the observer of the halver is pulsed once. *)
Example scenario_2 :
  exists s', clktree_set_enabled 8 1 false Examples.chain = Ok (tt, s') /\
    output_freq <$> heap s' !! 1%nat = Some 0 /\
    output_freq <$> heap s' !! 2%nat = Some 0 /\
    trace s' = [SetIrq 2 7 1].
Proof. eexists. split; [vm_compute; reflexivity|]. repeat split. Qed.

(** Scenario 3: a multiplexer over 4,000,000 and 6,000,000 reads the first
    when index 0 is selected and the second after the switch to index 1,
    with exactly one notification. *)
Example scenario_3 :
  output_freq <$> heap Examples.mux !! 2%nat = Some 4000000 /\
  exists s', clktree_set_selected_input 8 2 1 Examples.mux = Ok (tt, s') /\
    output_freq <$> heap s' !! 2%nat = Some 6000000 /\
    trace s' = [SetIrq 2 7 1].
Proof.
  split; [reflexivity|].
  eexists. split; [vm_compute; reflexivity|]. repeat split.
Qed.

(** The recalculation of the source of the chain, once its gate is off,
    reaches the halver two levels below. *)
Example Reached_chain :
  exists s', clktree_recalc_output_freq 8 0 Examples.chain_src_off
             = Ok (tt, s') /\
             Reached 0 Examples.chain_src_off s' 2.
Proof.
  eexists. split; [vm_compute; reflexivity|].
  eapply Reached_child with (n := 1%nat) (l1 := []);
    [reflexivity | reflexivity | vm_compute; discriminate
    | vm_compute; lia | vm_compute; lia | reflexivity
    | apply Propagate_nil | reflexivity | reflexivity | | ].
  - eapply Reached_child with (n := 2%nat) (l1 := []);
      [reflexivity | reflexivity | vm_compute; discriminate
      | vm_compute; lia | vm_compute; lia | reflexivity
      | apply Propagate_nil | reflexivity | reflexivity | | ].
    + apply Reached_self. apply (Recalc_adequate 8).
      vm_compute. reflexivity.
    + apply Propagate_nil.
  - apply Propagate_nil.
Qed.

(** Where the exact quotient fits in 32 bits, what a node makes of an input
    is the quotient itself. *)
Lemma clk_apply_exact c x :
  enabled c = true ->
  0 <= x * multiplier c / divisor c <= UINT32_MAX ->
  clk_apply c x = x * multiplier c / divisor c.
Proof.
  unfold clk_apply, UINT32_MAX. intros -> Hq. apply Z.mod_small. lia.
Qed.

(** * The claims *)

(** ** C9: the query [clktree_is_enabled] *)

(** C9.  For every node, [clktree_is_enabled] returns true if and only if
    both the enable flag and the initialization flag of the node are set,
    and it returns in the state it was called in: it reads the node and
    modifies nothing. *)
Theorem C9_is_enabled clk s c :
  heap s !! clk = Some c ->
  exists b, clktree_is_enabled clk s = Ok (b, s) /\
            (b = true <-> enabled c = true /\ is_initialized c = true).
Proof.
  intros Hc. exists (enabled c && is_initialized c). split.
  - unfold clktree_is_enabled.
    by rewrite (bind_run _ _ _ _ _ (load_run _ _ _ Hc)).
  - apply andb_true_iff.
Qed.

Lemma C9_is_enabled_witness :
  heap Examples.chain !! 1%nat = Some Examples.chain_x2 /\
  exists b, clktree_is_enabled 1 Examples.chain = Ok (b, Examples.chain) /\
    (b = true <->
     enabled Examples.chain_x2 = true /\
     is_initialized Examples.chain_x2 = true).
Proof.
  split; [reflexivity|].
  apply (C9_is_enabled 1 Examples.chain Examples.chain_x2). reflexivity.
Defined.

(** ** C7: the arithmetic of the recalculation *)

Lemma quotient_bound a b c :
  0 <= a <= UINT32_MAX -> 0 <= b <= UINT16_MAX -> 0 < c ->
  0 <= a * b / c < 2 ^ 48.
Proof.
  unfold UINT32_MAX, UINT16_MAX. intros Ha Hb Hc. split.
  - apply Z.div_pos; nia.
  - apply Z.div_lt_upper_bound; [lia|]. nia.
Qed.

(** C7 (as amended).  For every enabled node with a 32-bit input frequency,
    a 16-bit multiplier and a non-zero 16-bit divisor, [muldiv64] multiplies
    before it divides and returns the exact quotient
    floor(input_freq * multiplier / divisor), which is below 2^48; the
    recalculated output is that quotient reduced modulo 2^32 by the
    assignment to the 32-bit [new_output_freq]; it is the quotient itself
    whenever the quotient fits in 32 bits, which is the case whenever
    multiplier <= divisor. *)
Theorem C7_recalculated_output c :
  enabled c = true ->
  is_uint32 (input_freq c) -> is_uint16 (multiplier c) ->
  is_uint16 (divisor c) -> divisor c <> 0 ->
  muldiv64 (input_freq c) (multiplier c) (divisor c) = Some (quotient c) /\
  0 <= quotient c < 2 ^ 48 /\
  new_output_freq_of c = Ok (quotient c mod 2 ^ 32) /\
  (quotient c <= UINT32_MAX -> new_output_freq_of c = Ok (quotient c)) /\
  (multiplier c <= divisor c -> quotient c <= UINT32_MAX).
Proof.
  unfold is_uint32, is_uint16, quotient. intros He Hi Hm Hd Hd0.
  set (q := input_freq c * multiplier c / divisor c).
  assert (Hq : 0 <= q < 2 ^ 48) by (apply quotient_bound; lia).
  assert (Hnew : new_output_freq_of c = Ok (q mod 2 ^ 32)).
  { apply new_output_freq_of_Ok. right. done. }
  split; [|split; [done|split; [done|split]]].
  - unfold muldiv64. apply Z.eqb_neq in Hd0. rewrite Hd0. f_equal.
    unfold u64. apply Z.mod_small. lia.
  - intros Hle. rewrite Hnew. f_equal. apply Z.mod_small.
    unfold UINT32_MAX in Hle. lia.
  - intros Hle. unfold q, UINT32_MAX, UINT16_MAX in *.
    assert (input_freq c * multiplier c / divisor c <= input_freq c); [|lia].
    apply Z.div_le_upper_bound; [lia|]. nia.
Qed.

Lemma C7_recalculated_output_witness :
  muldiv64 8000000 1 2 = Some (quotient Examples.halver) /\
  0 <= quotient Examples.halver < 2 ^ 48 /\
  new_output_freq_of Examples.halver
    = Ok (quotient Examples.halver mod 2 ^ 32) /\
  (quotient Examples.halver <= UINT32_MAX ->
   new_output_freq_of Examples.halver = Ok (quotient Examples.halver)) /\
  (1 <= 2 -> quotient Examples.halver <= UINT32_MAX).
Proof.
  apply (C7_recalculated_output Examples.halver);
    first [ reflexivity
          | unfold is_uint32, is_uint16, UINT32_MAX, UINT16_MAX; cbn; lia ].
Defined.

(** C7, the claim as stated, fails: an enabled node with input frequency
    4294967295 and ratio 2/1 recalculates 4294967294, not the quotient
    8589934590. *)
Lemma C7_counterexample :
  enabled Examples.doubler = true /\
  is_uint32 (input_freq Examples.doubler) /\
  is_uint16 (multiplier Examples.doubler) /\
  is_uint16 (divisor Examples.doubler) /\
  new_output_freq_of Examples.doubler = Ok 4294967294 /\
  input_freq Examples.doubler * multiplier Examples.doubler
    / divisor Examples.doubler = 8589934590 /\
  new_output_freq_of Examples.doubler
    <> Ok (input_freq Examples.doubler * multiplier Examples.doubler
           / divisor Examples.doubler).
Proof.
  repeat split; try reflexivity; try (vm_compute; discriminate).
Qed.

(** ** C10: [clktree_set_scale] validates nothing *)

(** C10.  [clktree_set_scale] stores whatever multiplier and divisor it is
    given and calls the recalculation; with divisor 0 on an enabled node the
    recalculation ends in the division by zero; and a recalculation that
    returns has found the node disabled or its divisor non-zero (positive,
    for a 16-bit unsigned divisor). *)
Theorem C10_set_scale_unvalidated fuel clk s c :
  heap s !! clk = Some c ->
  (forall m d, clktree_set_scale fuel clk m d s =
     clktree_recalc_output_freq fuel clk
       (mkState (<[clk := with_scale m d c]> (heap s)) (trace s))) /\
  (forall m, enabled c = true ->
     clktree_set_scale (S fuel) clk m 0 s = Abort DivByZero) /\
  (enabled c = true -> divisor c = 0 ->
     clktree_recalc_output_freq (S fuel) clk s = Abort DivByZero) /\
  (forall r, clktree_recalc_output_freq fuel clk s = Ok r ->
     enabled c = false \/
     (divisor c <> 0 /\ (is_uint16 (divisor c) -> 0 < divisor c))).
Proof.
  intros Hc.
  assert (Hset : forall m d, clktree_set_scale fuel clk m d s =
     clktree_recalc_output_freq fuel clk
       (mkState (<[clk := with_scale m d c]> (heap s)) (trace s))).
  { intros m d. unfold clktree_set_scale.
    by rewrite (bind_run _ _ _ _ _ (modify_run _ _ _ _ Hc)). }
  assert (Hdiv : forall f s0 c0, heap s0 !! clk = Some c0 ->
     enabled c0 = true -> divisor c0 = 0 ->
     clktree_recalc_output_freq (S f) clk s0 = Abort DivByZero).
  { intros f s0 c0 Hc0 He Hd. simpl.
    rewrite (bind_run _ _ _ _ _ (load_run _ _ _ Hc0)).
    apply bind_Abort. unfold lift, new_output_freq_of, muldiv64.
    by rewrite He, Hd. }
  split; [done|]. split; [|split].
  - intros m He. unfold clktree_set_scale.
    rewrite (bind_run _ _ _ _ _ (modify_run _ _ _ _ Hc)).
    apply (Hdiv _ _ (with_scale m 0 c)); [|done|done].
    simpl. insert_eq.
  - intros He Hd. by apply (Hdiv _ _ c).
  - intros r Hr. destruct fuel as [|f]; [discriminate|].
    apply recalc_S_Ok in Hr as (c0 & new & Hc0 & Hnew & _).
    rewrite Hc in Hc0. injection Hc0 as <-.
    apply new_output_freq_of_Ok in Hnew as [[? _]|(_ & Hd & _)];
      [by left|right].
    split; [done|]. unfold is_uint16. lia.
Qed.

Lemma C10_set_scale_unvalidated_witness :
  heap Examples.chain !! 1%nat = Some Examples.chain_x2 /\
  clktree_set_scale 8 1 3 0 Examples.chain = Abort DivByZero.
Proof.
  split; [reflexivity|].
  apply (C10_set_scale_unvalidated 7 1 Examples.chain Examples.chain_x2);
    reflexivity.
Defined.

(** ** C5: the maximum output frequency of [clktree_create_clk] *)

(** C5 (the code at the failing input).  [clktree_create_clk] does not use
    its parameter [max_output_freq]: the created node keeps the
    [CLKTREE_NO_MAX_FREQ] that [clktree_create_generic] stored.  Created
    with a maximum of 10,000,000 on a source at 12,000,000, the node reads
    12,000,000 and no diagnostic has been emitted. *)
Theorem C5_max_output_freq_dropped :
  (forall (cfg : ClkConfig) fuel clk name m d en max max' sel ins,
     clktree_create_clk fuel clk name m d en max sel ins =
     clktree_create_clk fuel clk name m d en max' sel ins) /\
  exists s' c,
    Examples.scenario4 (Examples.zero_state 2) = Ok (tt, s') /\
    heap s' !! 1%nat = Some c /\
    output_freq c = 12000000 /\
    max_output_freq c = UINT32_MAX /\
    trace s' = [].
Proof.
  split; [reflexivity|].
  eexists _, _. split; [vm_compute; reflexivity|].
  split; [reflexivity|]. repeat split.
Qed.

(** ** C3: a mutation that does not change the frequency is silent *)

Lemma written_output_freq mu l c c1 :
  written mu l c = Ok c1 -> output_freq c1 = output_freq c.
Proof.
  destruct mu as [m d|b|i|v| |]; simpl; try discriminate;
    try (by intros [= <-]).
  destruct (_ <? _); [|discriminate].
  destruct (i >? -1); [|by intros [= <-]].
  destruct (clktree_get_input_clk _) as [[a|]|]; try discriminate.
  destruct (l !! a); [|discriminate]. by intros [= <-].
Qed.

(** C3.  For every node and every runtime mutation ([clktree_set_scale],
    [clktree_set_enabled], [clktree_set_selected_input],
    [clktree_set_input_freq]): when the output frequency recomputed from the
    struct [c1] the mutation has written equals the current [output_freq],
    the call returns with the trace of effects as it was (no [qemu_set_irq],
    no diagnostic), with every other node untouched (no propagation) and
    with [output_freq] unchanged. *)
Theorem C3_no_change_is_silent `{ClkConfig} fuel clk mu s c c1 :
  runtime mu = true ->
  heap s !! clk = Some c ->
  written mu (heap s) c = Ok c1 ->
  new_output_freq_of c1 = Ok (output_freq c) ->
  exists s', mutate (S fuel) clk mu s = Ok (tt, s') /\
    trace s' = trace s /\
    (forall y, y <> clk -> heap s' !! y = heap s !! y) /\
    heap s' !! clk = Some c1 /\
    output_freq c1 = output_freq c.
Proof.
  intros Hr Hc Hw Hnew.
  pose proof (written_output_freq _ _ _ _ Hw) as Hout.
  exists (mkState (<[clk := c1]> (heap s)) (trace s)).
  assert (Hc1 : <[clk := c1]> (heap s) !! clk = Some c1).
  { insert_eq. }
  split; [|split; [done|split; [|done]]].
  - rewrite (mutate_runtime _ _ _ _ _ Hr Hc), Hw.
    apply recalc_S_same with (c := c1); [done|]. by rewrite Hout.
  - intros y Hy. simpl. by apply list_lookup_insert_ne.
Qed.

Lemma C3_no_change_is_silent_witness :
  exists s', mutate (H := Examples.cfg) 1 1 (Set_scale 4 2) Examples.chain
             = Ok (tt, s') /\
    trace s' = trace Examples.chain /\
    (forall y, y <> 1%nat -> heap s' !! y = heap Examples.chain !! y) /\
    heap s' !! 1%nat = Some (with_scale 4 2 Examples.chain_x2) /\
    output_freq (with_scale 4 2 Examples.chain_x2)
    = output_freq Examples.chain_x2.
Proof.
  apply (C3_no_change_is_silent (H := Examples.cfg) 0 1 (Set_scale 4 2)
           Examples.chain Examples.chain_x2); reflexivity.
Defined.

(** ** C1: the equation of the output frequency *)

Lemma bind_assoc {A B C} (m : M A) (k : A -> M B) (k' : B -> M C) s :
  bind (bind m k) k' s = bind m (fun a => bind (k a) k') s.
Proof. unfold bind. by destruct (m s) as [[a s1]|e]. Qed.

Lemma bind_ext {A B} (m : M A) (k k' : A -> M B) s :
  (forall a s1, k a s1 = k' a s1) -> bind m k s = bind m k' s.
Proof. intros Hk. unfold bind. destruct (m s) as [[a s1]|e]; [apply Hk|done]. Qed.

Lemma select_prologue fuel clk i s :
  clktree_set_selected_input fuel clk i s =
  bind (bind (selected_input_freq clk i)
             (fun v => modify clk (with_input_freq v)))
       (fun _ => clktree_recalc_output_freq fuel clk) s.
Proof.
  rewrite bind_assoc. unfold selected_input_freq, clktree_set_selected_input.
  rewrite bind_assoc. apply bind_ext. intros c s1.
  rewrite bind_assoc. apply bind_ext. intros [] s2.
  rewrite bind_assoc. apply bind_ext. intros [] s3. reflexivity.
Qed.

(** Every mutation is its writes followed by a recalculation of its
    node. *)
Lemma mutate_prologue `{ClkConfig} fuel clk mu s :
  mutate fuel clk mu s =
  bind (prologue clk mu) (fun _ => clktree_recalc_output_freq fuel clk) s.
Proof.
  destruct mu as [m d|b|i|v|n v b|n m d b mx i ins]; simpl;
    try reflexivity.
  - apply select_prologue.
  - unfold clktree_create_src_clk. by rewrite bind_assoc.
  - unfold clktree_create_clk. rewrite bind_assoc. apply bind_ext.
    intros [] s1. rewrite bind_assoc. apply bind_ext. intros [] s2.
    apply select_prologue.
Qed.

Lemma Propagate_split x v l1 n l2 :
  forall s s', Propagate x v (l1 ++ Some n :: l2) s s' ->
    exists sa sb nc p,
      Propagate x v l1 s sa /\ heap sa !! n = Some nc /\
      clktree_get_input_clk nc = Ok p /\
      ((p <> Some x /\ sb = sa) \/
       (p = Some x /\ Recalc n (input_freq_state n nc v sa) sb)) /\
      Propagate x v l2 sb s'.
Proof.
  induction l1 as [|o l1 IH]; intros s s' HP; simpl in HP.
  - inversion HP as [|? ? ? ? ? ? nc p Hn Hp Hne Hrest
                      |? ? ? ? ? s1 ? nc Hn Hp HR Hrest]; subst.
    + exists s, s, nc, p. split; [constructor|]. do 2 (split; [done|]).
      split; [by left|done].
    + exists s, s1, nc, (Some x). split; [constructor|].
      do 2 (split; [done|]). split; [by right|done].
  - inversion HP as [|? ? m ? ? ? mc p Hm Hp Hne Hrest
                      |? ? m ? ? s1 ? mc Hm Hp HR Hrest]; subst.
    + destruct (IH _ _ Hrest) as (sa & sb & nc & q & H1 & H2 & H3 & H4 & H5).
      exists sa, sb, nc, q. split; [|done].
      eapply Propagate_skip; eauto.
    + destruct (IH _ _ Hrest) as (sa & sb & nc & q & H1 & H2 & H3 & H4 & H5).
      exists sa, sb, nc, q. split; [|done].
      eapply Propagate_visit; eauto.
Qed.

(** When the frequency of a node changes, the recalculation reaches every
    live fan-out child that has selected the node. *)
Lemma Reached_children x s s' c new n :
  Recalc x s s' -> heap s !! x = Some c ->
  new_output_freq_of c = Ok new -> new <> output_freq c ->
  Some n ∈ take (output_count c) (output c) ->
  selects (wiring s) n x ->
  Reached x s s' n.
Proof.
  intros HR Hc Hnew Hne Hin Hsel.
  inversion HR as [? ? c0 Hc0 Hn|? ? c0 new0 ? Hc0 Hn _ Hu Ho HP]; subst;
    rewrite Hc in Hc0; injection Hc0 as <-; rewrite Hnew in Hn.
  { by injection Hn as ->. }
  injection Hn as <-.
  apply list_elem_of_split in Hin as (l1 & l2 & Hl).
  rewrite Hl in HP.
  destruct (Propagate_split _ _ _ _ _ _ _ HP)
    as (sa & sb & nc & p & H1 & Hnc & Hp & Hcase & H2).
  assert (HW : wiring sa = wiring s).
  { by rewrite (Propagate_wiring _ _ _ _ _ H1), wiring_changed_state. }
  rewrite <- HW in Hsel.
  apply selects_wiring_inv in Hsel as (nc' & Hnc' & Hsel).
  rewrite Hnc in Hnc'. injection Hnc' as <-.
  rewrite Hsel in Hp. injection Hp as <-.
  destruct Hcase as [[Hcontra _]|[_ HRn]]; [done|].
  eapply Reached_child; eauto. by apply Reached_self.
Qed.

(** C1 (as amended).  After every mutation operation ([clktree_set_scale],
    [clktree_set_enabled], [clktree_set_selected_input],
    [clktree_set_input_freq] and the two creations) has returned,
    [output_freq] equals [enabled ? (input_freq * multiplier / divisor) mod
    2^32 : 0]: the exact quotient, stored in the 32-bit field.  The mutation
    is its writes followed by the recalculation of its node, run from the
    state [s0] the writes have left; the equation holds for the mutated node
    and for every node that run of the recalculation has reached, among
    them, when the output frequency of the mutated node has changed, every
    live fan-out child that has selected the node. *)
Theorem C1_equation_after_mutation `{ClkConfig} fuel clk mu s s' :
  mutate fuel clk mu s = Ok (tt, s') ->
  exists s0,
    prologue clk mu s = Ok (tt, s0) /\
    clktree_recalc_output_freq fuel clk s0 = Ok (tt, s') /\
    (exists c, heap s' !! clk = Some c /\ freq_equation c) /\
    (forall y, Reached clk s0 s' y ->
               exists c, heap s' !! y = Some c /\ freq_equation c) /\
    (forall c0 new n,
       heap s0 !! clk = Some c0 -> new_output_freq_of c0 = Ok new ->
       new <> output_freq c0 ->
       Some n ∈ take (output_count c0) (output c0) ->
       selects (wiring s0) n clk ->
       exists cn, heap s' !! n = Some cn /\ freq_equation cn).
Proof.
  intros Hm. rewrite mutate_prologue in Hm.
  apply bind_Ok in Hm as ([] & s0 & Hpro & Hs0).
  pose proof (Recalc_adequate _ _ _ _ Hs0) as HR.
  assert (Hall : forall y, Reached clk s0 s' y ->
            exists c, heap s' !! y = Some c /\ freq_equation c).
  { intros y Hy. apply Reached_ok in Hy as (c & Hc & Hok).
    exists c. split; [done|]. by apply clk_ok_equation. }
  exists s0. do 2 (split; [done|]). split; [|split; [done|]].
  - apply Hall. by apply Reached_self.
  - intros c0 new n Hc0 Hnew Hne Hin Hsel. apply Hall.
    by apply (Reached_children clk s0 s' c0 new n).
Qed.

Lemma C1_equation_after_mutation_witness :
  exists s0,
    prologue (H := Examples.cfg) 0 (Set_enabled false) Examples.chain
    = Ok (tt, s0) /\
    clktree_recalc_output_freq 8 0 s0
    = Ok (tt, Examples.after (clktree_set_enabled 8 0 false) Examples.chain) /\
    (exists c, heap (Examples.after (clktree_set_enabled 8 0 false)
                                    Examples.chain) !! 0%nat = Some c /\
               freq_equation c) /\
    (forall y, Reached 0 s0 (Examples.after (clktree_set_enabled 8 0 false)
                                            Examples.chain) y ->
       exists c, heap (Examples.after (clktree_set_enabled 8 0 false)
                                      Examples.chain) !! y = Some c /\
                 freq_equation c) /\
    (forall c0 new n,
       heap s0 !! 0%nat = Some c0 -> new_output_freq_of c0 = Ok new ->
       new <> output_freq c0 ->
       Some n ∈ take (output_count c0) (output c0) ->
       selects (wiring s0) n 0 ->
       exists cn, heap (Examples.after (clktree_set_enabled 8 0 false)
                                       Examples.chain) !! n = Some cn /\
                  freq_equation cn).
Proof.
  apply (C1_equation_after_mutation (H := Examples.cfg) 8 0
           (Set_enabled false) Examples.chain).
  vm_compute. reflexivity.
Defined.

(** C1, the claim as stated, fails: a stage on a source at 4 GHz, scaled by
    2/1, is enabled and reads 3705032704, not 4000000000 * 2 / 1. *)
Lemma C1_counterexample :
  exists s' c,
    mutate (H := Examples.cfg) 8 1 (Set_scale 2 1) Examples.fast = Ok (tt, s') /\
    heap s' !! 1%nat = Some c /\
    enabled c = true /\ input_freq c = 4000000000 /\
    multiplier c = 2 /\ divisor c = 1 /\ output_freq c = 3705032704 /\
    ~ equation_as_stated c.
Proof.
  eexists _, _. split; [vm_compute; reflexivity|].
  split; [reflexivity|]. repeat split. vm_compute. discriminate.
Qed.

(** ** C4: a multiplexer ignores what it has not selected *)

(** A node whose selected input, if any, is another node that selects
    nothing is below no node but itself and that input. *)
Lemma not_below_source W P N :
  N <> P ->
  (forall q, selects W N q -> q <> P /\ forall r, ~ selects W q r) ->
  ~ below W P N.
Proof.
  intros HNP Hsrc Hb. destruct Hb as [|y z Hb Hsel]; [done|].
  destruct (Hsrc y Hsel) as [HyP Hnone].
  destruct Hb as [|y' z' Hb Hsel']; [done|]. by apply (Hnone y').
Qed.

(** C4 (as amended).  During the propagation from a node [P], a fan-out
    child whose currently selected input is not [P] is skipped: the step
    leaves the state as it is.  And a recalculation of [P] leaves the struct
    of a node [N] (its [input_freq] and [output_freq] in particular)
    unchanged and produces no effect of [N] (none of its observers is
    pulsed) whenever [N] is not below [P] along the current selections, that
    is, unless [N] is [P] or follows, through its selected input and the
    selected inputs above it, a node that has selected [P]; in particular
    whenever the selected input of [N] is a source other than [P]. *)
Theorem C4_unselected_untouched :
  (forall rec P v N nc p s,
     heap s !! N = Some nc ->
     clktree_get_input_clk nc = Ok p ->
     p <> Some P ->
     propagate_to rec P v (Some N) s = Ok (tt, s)) /\
  (forall fuel P N s s',
     clktree_recalc_output_freq fuel P s = Ok (tt, s') ->
     ~ below (wiring s) P N ->
     heap s' !! N = heap s !! N /\
     exists evs, trace s' = trace s ++ evs /\
                 Forall (fun e => event_clk e <> N) evs) /\
  (forall s P N,
     N <> P ->
     (forall q, selects (wiring s) N q ->
                q <> P /\ forall r, ~ selects (wiring s) q r) ->
     ~ below (wiring s) P N).
Proof.
  split; [apply propagate_to_skip|]. split; [|intros s; apply not_below_source].
  intros fuel P N s s' Hrun Hnb. apply Recalc_adequate in Hrun.
  split.
  - by destruct (Recalc_frame _ _ _ N Hrun).
  - destruct (Recalc_events _ _ _ Hrun) as (evs & Ht & He).
    exists evs. split; [done|].
    eapply Forall_impl; [exact He|]. intros e Hb Heq.
    apply Hnb. by rewrite <- Heq.
Qed.

Lemma C4_unselected_untouched_witness :
  heap (Examples.after (clktree_recalc_output_freq 8 1) Examples.mux_b_off)
    !! 2%nat = heap Examples.mux_b_off !! 2%nat.
Proof.
  destruct C4_unselected_untouched as (_ & Hframe & Hsrc).
  apply (Hframe 8%nat 1%nat 2%nat Examples.mux_b_off).
  - vm_compute. reflexivity.
  - apply Hsrc; [lia|].
    intros q (c & Hc & Hsel). vm_compute in Hc. injection Hc as <-.
    vm_compute in Hsel. injection Hsel as <-. split; [lia|].
    intros r (c & Hc & Hsel). vm_compute in Hc. injection Hc as <-.
    vm_compute in Hsel. discriminate.
Defined.

(** C4, the claim as stated, fails: node 2 has the candidates 0 and 1 and
    has selected 1, which has selected 0; disabling 0, a candidate that is
    not the selected input of node 2, changes [input_freq] and [output_freq]
    of node 2 and pulses its observer. *)
Lemma C4_counterexample :
  exists s' c',
    heap Examples.diamond !! 2%nat = Some Examples.diamond_sys /\
    input_count Examples.diamond_sys = 3%nat /\
    input Examples.diamond_sys !! 1%nat = Some (Some 0%nat) /\
    input Examples.diamond_sys !! 2%nat = Some (Some 1%nat) /\
    clktree_get_input_clk Examples.diamond_sys = Ok (Some 1%nat) /\
    clktree_set_enabled 8 0 false Examples.diamond = Ok (tt, s') /\
    heap s' !! 2%nat = Some c' /\
    input_freq Examples.diamond_sys = 8000000 /\ input_freq c' = 0 /\
    output_freq Examples.diamond_sys = 8000000 /\ output_freq c' = 0 /\
    trace s' = trace Examples.diamond ++ [SetIrq 2 7 1].
Proof.
  eexists _, _. do 5 (split; [reflexivity|]).
  split; [vm_compute; reflexivity|]. repeat split.
Qed.

(** ** The macro [CLKTREE_ADD_LINK] *)

Lemma ADD_LINK_full {A} (array : list A) count value array_size s :
  (array_size <= count)%nat ->
  CLKTREE_ADD_LINK array count value array_size s
  = Abort (AssertFail assert_link_capacity).
Proof.
  intros Hfull. unfold CLKTREE_ADD_LINK. apply bind_Abort.
  unfold assert. by rewrite (proj2 (Nat.leb_gt _ _)) by lia.
Qed.

Lemma ADD_LINK_room {A} (array : list A) count value array_size s :
  (count < array_size)%nat -> length array = array_size ->
  CLKTREE_ADD_LINK array count value array_size s
  = Ok ((<[count := value]> array, S count), s).
Proof.
  intros Hroom Hlen. unfold CLKTREE_ADD_LINK, assert.
  rewrite (proj2 (Nat.leb_le _ _)) by lia.
  rewrite (bind_run _ _ _ _ _ eq_refl).
  assert (Hin : (count < length array)%nat) by lia.
  by rewrite (bind_run _ _ _ _ _ (array_set_run _ _ value s Hin)).
Qed.

Lemma ADD_LINK_Ok {A} (array : list A) count value array_size s r s' :
  CLKTREE_ADD_LINK array count value array_size s = Ok (r, s') ->
  (S count <= array_size)%nat /\ r = (<[count := value]> array, S count)
  /\ s' = s.
Proof.
  unfold CLKTREE_ADD_LINK. intros H.
  apply bind_Ok in H as ([] & s1 & [Hle ->]%assert_Ok & H).
  apply bind_Ok in H as (a' & s1 & (_ & -> & ->)%array_set_Ok & H).
  injection H as <- <-. apply Nat.leb_le in Hle. done.
Qed.

(** The loop of [clktree_create_clk] returns only when every input has
    found room in the candidate-input array. *)
Lemma create_clk_links_Ok `{ClkConfig} clk ins :
  forall s s' c, clktree_create_clk_links clk ins s = Ok (tt, s') ->
    heap s !! clk = Some c ->
    exists c', heap s' !! clk = Some c' /\
      input_count c' = (input_count c + length ins)%nat /\
      (ins <> [] -> (input_count c' <= CLKTREE_MAX_INPUT)%nat).
Proof.
  induction ins as [|p rest IH]; intros s s' c Hrun Hc.
  { injection Hrun as <-. exists c. split; [done|].
    split; [simpl; lia|done]. }
  simpl in Hrun.
  apply bind_Ok in Hrun as (c0 & s0 & [Hc0 ->]%load_Ok & Hrun).
  rewrite Hc in Hc0. injection Hc0 as <-.
  apply bind_Ok in Hrun as (r & s0 & (Hle & -> & ->)%ADD_LINK_Ok & Hrun).
  apply bind_Ok in Hrun as ([] & s1 & [_ ->]%store_Ok & Hrun).
  apply bind_Ok in Hrun as (pc & s2 & [Hpc ->]%load_Ok & Hrun).
  apply bind_Ok in Hrun as (r' & s2 & (_ & -> & ->)%ADD_LINK_Ok & Hrun).
  apply bind_Ok in Hrun as ([] & s3 & [_ ->]%store_Ok & Hrun).
  simpl in *.
  set (c1 := with_inputs (S (input_count c)) (<[input_count c:=Some p]> (input c)) c) in *.
  assert (Hc1 : <[clk := c1]> (heap s) !! clk = Some c1).
  { insert_eq. }
  assert (exists c2, <[p := with_outputs (S (output_count pc))
                       (<[output_count pc := Some clk]> (output pc)) pc]>
                    (<[clk := c1]> (heap s)) !! clk = Some c2
                  /\ input_count c2 = S (input_count c)) as (c2 & Hc2 & Hn2).
  { destruct (decide (p = clk)) as [->|Hp].
    - rewrite Hc1 in Hpc. injection Hpc as <-.
      eexists. split.
      + rewrite list_lookup_insert_eq; [reflexivity|].
        rewrite length_insert. by eapply lookup_lt_Some.
      + reflexivity.
    - exists c1. by rewrite list_lookup_insert_ne. }
  destruct (IH _ _ _ Hrun Hc2) as (c' & Hc' & Hn' & Hcap).
  exists c'. split; [done|]. split; [simpl; lia|].
  intros _. destruct rest as [|q rest]; [simpl in *; lia|].
  by apply Hcap.
Qed.

(** ** C6: the range of [clktree_set_selected_input] *)

Lemma never_bind {A B} e (m : M A) (k : A -> M B) :
  never e m -> (forall a, never e (k a)) -> never e (bind m k).
Proof.
  intros Hm Hk s. unfold bind. specialize (Hm s).
  destruct (m s) as [[a s1]|e']; [apply Hk | congruence].
Qed.

Lemma never_ret {A} e (a : A) : never e (ret a).
Proof. intros s. discriminate. Qed.

Lemma never_emit e ev : never e (emit ev).
Proof. intros s. discriminate. Qed.

Lemma never_load clk : no_select_abort (load clk).
Proof. intros s. unfold load. destruct (heap s !! clk); discriminate. Qed.

Lemma never_modify clk f : no_select_abort (modify clk f).
Proof.
  apply never_bind; [apply never_load|]. intros c s. unfold store.
  destruct (heap s !! clk); discriminate.
Qed.

Lemma never_array_get {A} (arr : list A) i : no_select_abort (array_get arr i).
Proof. intros s. unfold array_get. destruct (arr !! i); discriminate. Qed.

Lemma never_lift {A} e (r : result A) : r <> Abort e -> never e (lift r).
Proof. intros Hr s. unfold lift. destruct r; congruence. Qed.

Lemma never_for_range e start n body :
  (forall i, never e (body i)) -> never e (for_range start n body).
Proof.
  intros Hb. revert start. induction n as [|n IH]; intros start; simpl.
  - apply never_ret.
  - apply never_bind; [apply Hb | intros _; apply IH].
Qed.

Lemma get_input_clk_abort c e :
  clktree_get_input_clk c = Abort e -> e = BadAccess.
Proof.
  unfold clktree_get_input_clk. destruct (_ <? 0); [by intros [= <-]|].
  destruct (input c !! _); [discriminate | by intros [= <-]].
Qed.

Lemma new_output_freq_of_abort c e :
  new_output_freq_of c = Abort e -> e = DivByZero.
Proof.
  unfold new_output_freq_of. destruct (enabled c); [|discriminate].
  destruct (muldiv64 _ _ _); [discriminate | by intros [= <-]].
Qed.

(** The recalculation holds no selection assertion. *)
Lemma never_recalc fuel :
  forall clk, no_select_abort (clktree_recalc_output_freq fuel clk).
Proof.
  induction fuel as [|fuel IH]; intros clk; [intros s; discriminate|].
  simpl. apply never_bind; [apply never_load|]. intros c.
  apply never_bind.
  { apply never_lift. intros E%new_output_freq_of_abort. discriminate. }
  intros new. destruct (negb _); [|apply never_ret].
  apply never_bind; [apply never_modify|]. intros _.
  apply never_bind.
  { destruct (_ >? _); [apply never_emit | apply never_ret]. }
  intros _. apply never_bind.
  { apply never_for_range. intros i.
    apply never_bind; [apply never_array_get|]. intros u. apply never_emit. }
  intros _. apply never_for_range. intros i.
  apply never_bind; [apply never_array_get|]. intros [next|]; simpl.
  - apply never_bind; [apply never_load|]. intros nc.
    apply never_bind.
    { apply never_lift. intros E%get_input_clk_abort. discriminate. }
    intros p. destruct (decide _); [|apply never_ret].
    unfold set_input_freq_then.
    apply never_bind; [apply never_modify | intros _; apply IH].
  - intros s. discriminate.
Qed.

Lemma mod_2_32_neg z : - 2 ^ 32 <= z < 0 -> z mod 2 ^ 32 = z + 2 ^ 32.
Proof.
  intros Hz. symmetry. apply (Z.mod_unique_pos _ _ (-1)); lia.
Qed.

(** The comparison of the assertion: [int] converted to unsigned against
    the count. *)
Lemma select_cond idx n :
  is_int idx -> 0 <= n <= INT_MAX ->
  (u32 (int32 (idx + 1)) <? n) = true <-> -1 <= idx < n - 1.
Proof.
  unfold is_int, INT_MIN, INT_MAX, u32, int32. intros Hi Hn.
  rewrite Z.ltb_lt.
  destruct (decide (idx = 2 ^ 31 - 1)) as [->|Hmax].
  - change ((2 ^ 31 - 1 + 1 + 2 ^ 31) mod 2 ^ 32) with 0.
    change ((0 - 2 ^ 31) mod 2 ^ 32) with (2 ^ 31). lia.
  - rewrite (Z.mod_small (idx + 1 + 2 ^ 31)) by lia.
    replace (idx + 1 + 2 ^ 31 - 2 ^ 31) with (idx + 1) by lia.
    destruct (decide (0 <= idx + 1)).
    + rewrite Z.mod_small by lia. lia.
    + rewrite mod_2_32_neg by lia. lia.
Qed.

(** Writing a node without touching its arrays and counts keeps the memory
    well wired, as long as the divisor is not zero and the selection stays
    in range. *)
Lemma heap_wf_insert h s x c c1 tr :
  heap_wf h (wiring s) -> heap s !! x = Some c ->
  divisor c1 <> 0 ->
  user_count c1 = user_count c -> user c1 = user c ->
  output_count c1 = output_count c -> output c1 = output c ->
  input_count c1 = input_count c -> input c1 = input c ->
  -1 <= selected_input c1 < Z.of_nat (input_count c) - 1 ->
  heap_wf h (wiring (mkState (<[x := c1]> (heap s)) tr)).
Proof.
  intros Hwf Hc Hd Huc Hu Hoc Ho Hic Hi Hsel.
  pose proof (wiring_lookup _ _ _ Hc) as Hwc.
  assert (HW : wiring (mkState (<[x := c1]> (heap s)) tr)
               = <[x := static c1]> (wiring s)).
  { unfold wiring. simpl. by rewrite list_fmap_insert. }
  rewrite HW.
  assert (Hmir : forall a q, mirrored (wiring s) a q ->
                             mirrored (<[x := static c1]> (wiring s)) a q).
  { intros a q (qc & i & Hq & Hlt & Hqi).
    destruct (decide (q = x)) as [->|Hqx].
    - rewrite Hwc in Hq. injection Hq as <-. simpl in *.
      exists (static c1), i. simpl. rewrite Hoc, Ho.
      split; [|done]. insert_eq.
    - exists qc, i. by rewrite list_lookup_insert_ne. }
  assert (Hnode : forall a w, node_wf h (wiring s) a w ->
                    node_wf h (<[x := static c1]> (wiring s)) a w).
  { intros a w [H1 H2 H3 H4 H5 H6 H7 H8 H9]. split; try done.
    - intros i Hi'. destruct (H4 i Hi') as (n & Hn & Hlen).
      exists n. by rewrite length_insert.
    - intros i Hi'. destruct (H8 i Hi') as (q & Hq & Hh & Hm).
      exists q. auto. }
  intros a w Ha. destruct (decide (a = x)) as [->|Hax].
  - rewrite list_lookup_insert_eq in Ha by (by eapply lookup_lt_Some).
    injection Ha as <-. apply Hnode.
    destruct (Hwf _ _ Hwc) as [H1 H2 H3 H4 H5 H6 H7 H8 H9]. simpl in *.
    split; simpl; rewrite ?Huc, ?Hu, ?Hoc, ?Ho, ?Hic, ?Hi; done.
  - rewrite list_lookup_insert_ne in Ha by done. by apply Hnode, Hwf.
Qed.

(** C6.  For every node and every [int] index: an index that is neither a
    position of a candidate input nor the sentinel -1 (below -1, or at or
    past the number of candidate inputs) makes
    [clktree_set_selected_input] fail its assertion, whatever the rest of
    the memory; for an index in range the call cannot end in that failed
    assertion, [selected_input] holds the index when the call returns, and
    in a well-wired memory the call does return. *)
Theorem C6_select_input_range fuel clk s c idx :
  heap s !! clk = Some c ->
  is_int idx ->
  Z.of_nat (input_count c) <= INT_MAX ->
  (~ (-1 <= idx < Z.of_nat (input_count c) - 1) ->
   clktree_set_selected_input fuel clk idx s
   = Abort (AssertFail assert_selected_input)) /\
  (-1 <= idx < Z.of_nat (input_count c) - 1 ->
   clktree_set_selected_input fuel clk idx s
   <> Abort (AssertFail assert_selected_input) /\
   (forall s', clktree_set_selected_input fuel clk idx s = Ok (tt, s') ->
      exists c', heap s' !! clk = Some c' /\ selected_input c' = idx) /\
   (forall h, heap_wf h (wiring s) -> (h clk < fuel)%nat ->
      exists s', clktree_set_selected_input fuel clk idx s = Ok (tt, s'))).
Proof.
  intros Hc Hidx Hcount.
  pose proof (select_cond idx (Z.of_nat (input_count c)) Hidx ltac:(lia))
    as Hcond.
  pose proof (mutate_runtime (H := Build_ClkConfig 0 0 0 0) fuel clk
                (Select_input idx) s c eq_refl Hc) as Hrun.
  simpl in Hrun. split.
  - intros Hout. rewrite Hrun.
    destruct (_ <? _); [|done]. exfalso. by apply Hout, Hcond.
  - intros Hin. rewrite Hrun. rewrite (proj2 Hcond Hin).
    set (c0 := with_selected_input idx c).
    pose proof (fun v => never_recalc fuel clk
      (mkState (<[clk := with_input_freq v c0]> (heap s)) (trace s))) as Hnever.
    assert (Hupd : forall v s',
      clktree_recalc_output_freq fuel clk
        (mkState (<[clk := with_input_freq v c0]> (heap s)) (trace s))
      = Ok (tt, s') ->
      exists c', heap s' !! clk = Some c' /\ selected_input c' = idx).
    { intros v s' Hr. apply Recalc_adequate, Recalc_wiring in Hr.
      destruct (wiring_static _ s' clk (with_input_freq v c0)
                  ltac:(by symmetry)) as (c' & Hc' & Hst).
      { simpl. insert_eq. }
      exists c'. split; [done|].
      by apply (f_equal selected_input) in Hst. }
    split; [|split].
    + destruct (idx >? -1); [|apply Hnever].
      destruct (clktree_get_input_clk c0) as [[a|]|e] eqn:Ein; try discriminate.
      * destruct (heap s !! a); [apply Hnever | discriminate].
      * apply get_input_clk_abort in Ein as ->. discriminate.
    + intros s'. destruct (idx >? -1); [|apply Hupd].
      destruct (clktree_get_input_clk c0) as [[a|]|e]; try discriminate.
      destruct (heap s !! a); [apply Hupd | discriminate].
    + intros h Hwf Hfuel.
      assert (Hterm : forall v, exists s',
        clktree_recalc_output_freq fuel clk
          (mkState (<[clk := with_input_freq v c0]> (heap s)) (trace s))
        = Ok (tt, s')).
      { intros v. apply (recalc_terminates h); [| |done].
        - destruct (Hwf _ _ (wiring_lookup _ _ _ Hc)) as [H1 _ _ _ _ _ _ _ _].
          apply heap_wf_insert with (c := c); try done.
        - simpl. rewrite length_insert. by eapply lookup_lt_Some. }
      destruct (Z.gtb_spec idx (-1)) as [Hpos|Hneg]; [|apply Hterm].
      destruct (Hwf _ _ (wiring_lookup _ _ _ Hc)) as [_ _ _ _ _ _ _ Hins _].
      simpl in Hins.
      destruct (Hins (Z.to_nat (idx + 1))) as (q & Hq & _ & (qc & _ & Hqc & _));
        [lia|].
      apply wiring_lookup_inv in Hqc as (qc' & Hqc' & _).
      assert (Hget : clktree_get_input_clk c0 = Ok (Some q)).
      { unfold clktree_get_input_clk, c0. simpl.
        rewrite int32_small by (unfold is_int, INT_MIN, INT_MAX in *; lia).
        rewrite (proj2 (Z.ltb_ge _ _)) by lia. by rewrite Hq. }
      rewrite Hget, Hqc'. apply Hterm.
Qed.

Lemma C6_select_input_range_witness :
  clktree_set_selected_input 8 1 1 Examples.chain
  = Abort (AssertFail assert_selected_input) /\
  exists c', heap (Examples.after (clktree_set_selected_input 8 1 (-1))
                                  Examples.chain) !! 1%nat = Some c' /\
             selected_input c' = -1.
Proof.
  split.
  - apply (C6_select_input_range 8 1 Examples.chain Examples.chain_x2 1);
      first [ reflexivity | vm_compute; intuition discriminate ].
  - apply (C6_select_input_range 8 1 Examples.chain Examples.chain_x2 (-1));
      first [ reflexivity | vm_compute; intuition discriminate ].
Defined.

(** ** The invariant of the memory, and C2 *)

Lemma written_shape mu l c c1 :
  written mu l c = Ok c1 ->
  user_count c1 = user_count c /\ user c1 = user c /\
  output_count c1 = output_count c /\ output c1 = output c /\
  input_count c1 = input_count c /\ input c1 = input c.
Proof.
  destruct mu as [m d|b|i|v| |]; simpl; try discriminate;
    try (by intros [= <-]).
  destruct (_ <? _); [|discriminate].
  destruct (i >? -1); [|by intros [= <-]].
  destruct (clktree_get_input_clk _) as [[a|]|]; try discriminate.
  destruct (l !! a); [|discriminate]. by intros [= <-].
Qed.

(** In a well-wired, settled memory a runtime mutation within its
    precondition writes a struct that keeps the memory well wired and
    linked. *)
Lemma written_settled h s x mu c :
  heap_wf h (wiring s) -> settled (heap s) -> heap s !! x = Some c ->
  mutation_pre mu (heap s) c ->
  runtime mu = true /\
  exists c1, written mu (heap s) c = Ok c1 /\
    heap_wf h (wiring (mkState (<[x := c1]> (heap s)) (trace s))) /\
    settled_but x (<[x := c1]> (heap s)).
Proof.
  intros Hwf Hset Hc Hpre.
  pose proof (wiring_lookup _ _ _ Hc) as Hwc.
  destruct (Hwf _ _ Hwc) as [Hd _ _ _ H0 Hic Hint Hins Hsel]. simpl in *.
  destruct (Hset _ _ Hc) as [Hlc _].
  (* what the write must satisfy *)
  assert (Hgoal : forall c1, written mu (heap s) c = Ok c1 ->
    divisor c1 <> 0 ->
    -1 <= selected_input c1 < Z.of_nat (input_count c) - 1 ->
    (forall p pc, clktree_get_input_clk c1 = Ok (Some p) ->
                  heap s !! p = Some pc -> input_freq c1 = output_freq pc) ->
    exists c1, written mu (heap s) c = Ok c1 /\
      heap_wf h (wiring (mkState (<[x := c1]> (heap s)) (trace s))) /\
      settled_but x (<[x := c1]> (heap s))).
  { intros c1 Hw Hd1 Hsel1 Hl1. exists c1. split; [done|].
    destruct (written_shape _ _ _ _ Hw) as (E1 & E2 & E3 & E4 & E5 & E6).
    pose proof (written_output_freq _ _ _ _ Hw) as Eout.
    split; [by apply heap_wf_insert with (c := c)|].
    assert (Hout : forall p pc, <[x := c1]> (heap s) !! p = Some pc ->
              exists pc0, heap s !! p = Some pc0 /\
                          output_freq pc = output_freq pc0).
    { intros p pc Hp. destruct (decide (p = x)) as [->|Hpx].
      - rewrite list_lookup_insert_eq in Hp by (by eapply lookup_lt_Some).
        injection Hp as <-. eauto.
      - rewrite list_lookup_insert_ne in Hp by done. eauto. }
    intros a ca Ha. destruct (decide (a = x)) as [->|Hax].
    - rewrite list_lookup_insert_eq in Ha by (by eapply lookup_lt_Some).
      injection Ha as <-. split; [|done].
      intros p pc Hp Hpc. destruct (Hout _ _ Hpc) as (pc0 & Hpc0 & ->).
      by apply (Hl1 p).
    - rewrite list_lookup_insert_ne in Ha by done.
      destruct (Hset _ _ Ha) as [Hla Hoka]. split; [|done].
      intros p pc Hp Hpc. destruct (Hout _ _ Hpc) as (pc0 & Hpc0 & ->).
      by apply (Hla p). }
  destruct mu as [m d|b|i|v| |]; simpl in Hpre; try done; (split; [done|]).
  - apply (Hgoal (with_scale m d c)); done.
  - apply (Hgoal (with_enabled b c)); done.
  - assert (Hint' : is_int i)
      by (unfold is_int, INT_MIN, INT_MAX in *; lia).
    pose proof (proj2 (select_cond i (Z.of_nat (input_count c)) Hint'
                         ltac:(lia)) Hpre) as Hcond.
    set (c0 := with_selected_input i c).
    assert (Hidx : int32 (i + 1) = i + 1)
      by (apply int32_small; unfold INT_MIN, INT_MAX in *; lia).
    destruct (Z.gtb_spec i (-1)) as [Hpos|Hneg].
    + destruct (Hins (Z.to_nat (i + 1))) as (q & Hq & _ & (qc & _ & Hqc & _));
        [lia|].
      apply wiring_lookup_inv in Hqc as (qc' & Hqc' & _).
      assert (Hget : clktree_get_input_clk c0 = Ok (Some q)).
      { unfold clktree_get_input_clk, c0. simpl. rewrite Hidx.
        rewrite (proj2 (Z.ltb_ge _ _)) by lia. by rewrite Hq. }
      apply (Hgoal (with_input_freq (output_freq qc') c0)); try done.
      * unfold written. rewrite Hcond.
        rewrite (proj2 (Z.gtb_gt _ _)) by lia.
        fold c0. by rewrite Hget, Hqc'.
      * intros p pc Hp Hpc.
        change (clktree_get_input_clk c0 = Ok (Some p)) in Hp.
        rewrite Hget in Hp. injection Hp as <-.
        rewrite Hqc' in Hpc. by injection Hpc as <-.
    + assert (i = -1) as -> by lia.
      apply (Hgoal (with_input_freq 0 c0)); try done.
      * unfold written. by rewrite Hcond.
      * intros p pc Hp Hpc. exfalso.
        change (clktree_get_input_clk c0 = Ok (Some p)) in Hp.
        unfold clktree_get_input_clk, c0 in Hp. simpl in Hp.
        change (int32 (-1 + 1)) with 0 in Hp. simpl in Hp.
        change (Z.to_nat 0) with 0%nat in Hp.
        rewrite H0 in Hp. discriminate.
  - apply (Hgoal (with_input_freq v c)); try done.
Qed.

Lemma settledb_spec l : settledb l = true -> settled l.
Proof.
  unfold settledb. rewrite forallb_forall. intros H a c Ha.
  assert (Hin : In c l).
  { apply list_elem_of_In, list_elem_of_lookup. eauto. }
  apply H in Hin. apply andb_true_iff in Hin as [Hl Hok]. split.
  - intros p pc Hp Hpc. unfold linkedb in Hl. rewrite Hp, Hpc in Hl.
    by apply Z.eqb_eq.
  - unfold clk_ok. unfold clk_okb in Hok.
    destruct (new_output_freq_of c); [|discriminate].
    by apply Z.eqb_eq in Hok as ->.
Qed.

Lemma static_scalars c c' :
  static c' = static c ->
  enabled c' = enabled c /\ multiplier c' = multiplier c /\
  divisor c' = divisor c /\
  clktree_get_input_clk c' = clktree_get_input_clk c.
Proof.
  intros Hst. split; [|split; [|split]].
  - by apply (f_equal enabled) in Hst.
  - by apply (f_equal multiplier) in Hst.
  - by apply (f_equal divisor) in Hst.
  - by rewrite <- (get_input_clk_static c'), Hst, get_input_clk_static.
Qed.

(** The invariant of the memory.  In a well-wired memory where every node
    satisfies the equation and has the output of its selected input as
    input, a runtime mutation within its precondition returns, given fuel
    above the height of the node, and leaves a memory of the same kind;
    only frequencies have changed in the nodes other than the mutated
    one, which holds what the mutation wrote and the output frequency
    recomputed from it. *)
Theorem mutate_settled `{ClkConfig} h fuel x mu s c :
  heap_wf h (wiring s) -> settled (heap s) -> heap s !! x = Some c ->
  mutation_pre mu (heap s) c -> (h x < fuel)%nat ->
  exists s', mutate fuel x mu s = Ok (tt, s') /\
    heap_wf h (wiring s') /\ settled (heap s') /\
    (forall y cy, y <> x -> heap s !! y = Some cy ->
       exists cy', heap s' !! y = Some cy' /\ static cy' = static cy) /\
    exists c1 new, written mu (heap s) c = Ok c1 /\
       new_output_freq_of c1 = Ok new /\
       heap s' !! x = Some (with_output_freq new c1).
Proof.
  intros Hwf Hset Hc Hpre Hfuel.
  destruct (written_settled _ _ _ _ _ Hwf Hset Hc Hpre)
    as (Hr & c1 & Hw & Hwf0 & Hset0).
  set (s0 := mkState (<[x := c1]> (heap s)) (trace s)) in *.
  destruct (recalc_terminates h fuel x s0 Hwf0) as [s' Hrun]; [|done|].
  { simpl. rewrite length_insert. by eapply lookup_lt_Some. }
  pose proof (Recalc_adequate _ _ _ _ Hrun) as HR.
  pose proof (Recalc_wiring _ _ _ HR) as HW.
  exists s'. split; [|split; [|split; [|split]]].
  - by rewrite (mutate_runtime _ _ _ _ _ Hr Hc), Hw.
  - by rewrite HW.
  - by apply (Recalc_settled h x s0 s').
  - intros y cy Hy Hcy. apply (wiring_static s0 s' y cy HW).
    simpl. by rewrite list_lookup_insert_ne.
  - destruct (Recalc_self h x s0 s' c1 Hwf0 HR) as (new & Hnew & Hx').
    { simpl. insert_eq. }
    by exists c1, new.
Qed.

(** ** C2: propagation along a chain *)

(** C2 (as amended).  For three nodes A, B, C of a well-wired, settled
    memory (as the creation routines and the mutations leave it) where B has
    selected A and C has selected B, every runtime mutation of A within its
    precondition returns (given fuel above the height of A), and when it
    returns A holds the output frequency recomputed from what the mutation
    wrote, the input of B is the output of A, the output of B is what B
    makes of it (its gate, then its ratio, the quotient reduced modulo 2^32
    as the recalculation stores it), the input of C is the output of B, and
    the output of C is what C makes of what B makes of the output of A. *)
Theorem C2_chain_propagation `{ClkConfig} h fuel A B C mu s ca cb cc :
  heap_wf h (wiring s) -> settled (heap s) ->
  heap s !! A = Some ca -> mutation_pre mu (heap s) ca ->
  heap s !! B = Some cb -> clktree_get_input_clk cb = Ok (Some A) ->
  heap s !! C = Some cc -> clktree_get_input_clk cc = Ok (Some B) ->
  (h A < fuel)%nat ->
  exists s' ca' cb' cc',
    mutate fuel A mu s = Ok (tt, s') /\
    heap s' !! A = Some ca' /\ heap s' !! B = Some cb' /\
    heap s' !! C = Some cc' /\
    (exists c1, written mu (heap s) ca = Ok c1 /\
                new_output_freq_of c1 = Ok (output_freq ca')) /\
    input_freq cb' = output_freq ca' /\
    output_freq cb' = clk_apply cb (output_freq ca') /\
    input_freq cc' = output_freq cb' /\
    output_freq cc' = clk_apply cc (clk_apply cb (output_freq ca')).
Proof.
  intros Hwf Hset Ha Hpre Hb Hba Hc Hcb Hfuel.
  pose proof (wf_selects _ _ _ _ Hwf (selects_wiring _ _ _ _ Hb Hba)) as [HhB _].
  pose proof (wf_selects _ _ _ _ Hwf (selects_wiring _ _ _ _ Hc Hcb)) as [HhC _].
  destruct (mutate_settled h fuel A mu s ca Hwf Hset Ha Hpre Hfuel)
    as (s' & Hrun & Hwf' & Hset' & Hst & c1 & new & Hw & Hnew & Ha').
  set (ca' := with_output_freq new c1) in *.
  destruct (Hst B cb ltac:(intros ->; lia) Hb) as (cb' & Hb' & Hstb).
  destruct (Hst C cc ltac:(intros ->; lia) Hc) as (cc' & Hc' & Hstc).
  apply static_scalars in Hstb as (Eb1 & Eb2 & Eb3 & Eb4).
  apply static_scalars in Hstc as (Ec1 & Ec2 & Ec3 & Ec4).
  destruct (Hset' _ _ Hb') as [Hlb Hokb].
  destruct (Hset' _ _ Hc') as [Hlc Hokc].
  assert (Hinb : input_freq cb' = output_freq ca').
  { apply (Hlb A); [by rewrite Eb4 | done]. }
  assert (Hinc : input_freq cc' = output_freq cb').
  { apply (Hlc B); [by rewrite Ec4 | done]. }
  assert (Houtb : output_freq cb' = clk_apply cb (output_freq ca')).
  { apply clk_ok_equation in Hokb. unfold freq_equation in Hokb.
    unfold clk_apply. by rewrite Hokb, Eb1, Eb2, Eb3, Hinb. }
  assert (Houtc : output_freq cc' = clk_apply cc (output_freq cb')).
  { apply clk_ok_equation in Hokc. unfold freq_equation in Hokc.
    unfold clk_apply. by rewrite Hokc, Ec1, Ec2, Ec3, Hinc. }
  exists s', ca', cb', cc'. rewrite <- Houtb.
  do 4 (split; [done|]). split; [by exists c1|done].
Qed.

Lemma C2_chain_propagation_witness :
  exists s' ca' cb' cc',
    mutate (H := Examples.cfg) 8 0 (Set_enabled false) Examples.chain
    = Ok (tt, s') /\
    heap s' !! 0%nat = Some ca' /\ heap s' !! 1%nat = Some cb' /\
    heap s' !! 2%nat = Some cc' /\
    (exists c1, written (Set_enabled false) (heap Examples.chain)
                        Examples.chain_src = Ok c1 /\
                new_output_freq_of c1 = Ok (output_freq ca')) /\
    input_freq cb' = output_freq ca' /\
    output_freq cb' = clk_apply Examples.chain_x2 (output_freq ca') /\
    input_freq cc' = output_freq cb' /\
    output_freq cc'
    = clk_apply Examples.chain_div2
        (clk_apply Examples.chain_x2 (output_freq ca')).
Proof.
  apply (C2_chain_propagation (H := Examples.cfg) Examples.height 8 0 1 2
           (Set_enabled false) Examples.chain
           Examples.chain_src Examples.chain_x2 Examples.chain_div2).
  - apply heap_wfb_spec. vm_compute. reflexivity.
  - apply settledb_spec. vm_compute. reflexivity.
  - reflexivity.
  - exact I.
  - reflexivity.
  - reflexivity.
  - reflexivity.
  - reflexivity.
  - vm_compute. lia.
Defined.

(** C2, the claim as stated, fails: on a chain whose source is at 4 GHz,
    enabling the source changes its output from 0 to 4000000000; the doubler
    below it then reads 3705032704, not 4000000000 * 2 / 1, and the stage
    below the doubler follows the doubler. *)
Lemma C2_counterexample :
  exists s' ca' cb' cc',
    clktree_get_input_clk Examples.fast_chain_x2 = Ok (Some 0%nat) /\
    clktree_get_input_clk Examples.fast_chain_x1 = Ok (Some 1%nat) /\
    clktree_set_enabled 8 0 true Examples.fast_chain = Ok (tt, s') /\
    heap s' !! 0%nat = Some ca' /\ heap s' !! 1%nat = Some cb' /\
    heap s' !! 2%nat = Some cc' /\
    output_freq ca' = 4000000000 /\
    apply_as_stated Examples.fast_chain_x2 (output_freq ca') = 8000000000 /\
    output_freq cb' = 3705032704 /\
    output_freq cc' = 3705032704 /\
    output_freq cb'
    <> apply_as_stated Examples.fast_chain_x2 (output_freq ca') /\
    output_freq cc'
    <> apply_as_stated Examples.fast_chain_x1
         (apply_as_stated Examples.fast_chain_x2 (output_freq ca')).
Proof.
  eexists _, _, _, _. do 2 (split; [reflexivity|]).
  split; [vm_compute; reflexivity|].
  do 3 (split; [reflexivity|]).
  repeat split; vm_compute; discriminate.
Qed.

(** * Further properties: the CRC unit *)

(** ** Bits *)

Ltac bool_cases :=
  repeat match goal with
         | |- context [Z.testbit ?x ?n] => destruct (Z.testbit x n)
         | |- context [(?a <? ?b)] => destruct (a <? b)
         end;
  reflexivity.

Lemma mod_pow2_lxor a b k :
  0 <= k -> Z.lxor a b mod 2 ^ k = Z.lxor (a mod 2 ^ k) (b mod 2 ^ k).
Proof.
  intros Hk. apply Z.bits_inj'. intros n Hn.
  rewrite ?Z.lxor_spec, ?Z.testbit_mod_pow2, ?Z.lxor_spec by lia.
  bool_cases.
Qed.

Lemma lxor_bound a b k :
  0 <= k -> 0 <= a < 2 ^ k -> 0 <= b < 2 ^ k -> 0 <= Z.lxor a b < 2 ^ k.
Proof.
  intros Hk Ha Hb.
  rewrite <- (Z.mod_small (Z.lxor a b) (2 ^ k)) at 1 2.
  - apply Z.mod_pos_bound. lia.
  - pose proof (mod_pow2_lxor a b k Hk) as H.
    rewrite (Z.mod_small a), (Z.mod_small b) in H by lia.
    rewrite <- H. apply Z.mod_pos_bound. lia.
Qed.

Lemma lxor_swap a b p :
  Z.lxor (Z.lxor a b) p = Z.lxor (Z.lxor a p) b.
Proof.
  apply Z.bits_inj'. intros n _. rewrite !Z.lxor_spec. bool_cases.
Qed.

Lemma lxor_pair a b p :
  Z.lxor a b = Z.lxor (Z.lxor a p) (Z.lxor b p).
Proof.
  apply Z.bits_inj'. intros n _. rewrite !Z.lxor_spec. bool_cases.
Qed.

(** A 32-bit value is its top byte, shifted, exclusive-or its low 24
    bits. *)
Lemma split_top_byte x :
  x = Z.lxor (Z.shiftl (Z.shiftr x 24) 24) (x mod 2 ^ 24).
Proof.
  apply Z.bits_inj'. intros n Hn.
  rewrite Z.lxor_spec, Z.testbit_mod_pow2 by lia.
  destruct (Z.ltb_spec n 24).
  - rewrite Z.shiftl_spec_low by lia. reflexivity.
  - rewrite Z.shiftl_spec, Z.shiftr_spec by lia.
    replace (n - 24 + 24) with n by lia. simpl. by rewrite xorb_false_r.
Qed.

(** ** The shift register *)

Lemma crc_bit_step_lxor a b :
  crc_bit_step (Z.lxor a b) = Z.lxor (crc_bit_step a) (crc_bit_step b).
Proof.
  unfold crc_bit_step, u32.
  rewrite Z.shiftl_lxor, mod_pow2_lxor, Z.lxor_spec by lia.
  destruct (Z.testbit a 31), (Z.testbit b 31); simpl.
  - apply lxor_pair.
  - apply lxor_swap.
  - apply Z.lxor_assoc.
  - reflexivity.
Qed.

Lemma crc_bits_lxor n a b :
  crc_bits n (Z.lxor a b) = Z.lxor (crc_bits n a) (crc_bits n b).
Proof.
  induction n as [|n IH]; [reflexivity|].
  unfold crc_bits in *. simpl. by rewrite IH, crc_bit_step_lxor.
Qed.

Lemma crc_bits_add n m r : crc_bits (n + m) r = crc_bits n (crc_bits m r).
Proof. unfold crc_bits. apply Nat.iter_add. Qed.

Lemma crc_bit_step_range r : 0 <= crc_bit_step r < 2 ^ 32.
Proof.
  unfold crc_bit_step, u32.
  pose proof (Z.mod_pos_bound (Z.shiftl r 1) (2 ^ 32) ltac:(lia)).
  destruct (Z.testbit r 31); [|done].
  apply lxor_bound; [lia|done|]. unfold CRC_POLY. lia.
Qed.

(** Below 2^31 nothing is shifted out: the step doubles. *)
Lemma crc_bit_step_low r : 0 <= r < 2 ^ 31 -> crc_bit_step r = 2 * r.
Proof.
  intros Hr. unfold crc_bit_step, u32.
  assert (Z.testbit r 31 = false) as ->.
  { apply Z.testbit_false; [lia|]. by rewrite Z.div_small. }
  rewrite Z.shiftl_mul_pow2 by lia. rewrite Z.mod_small; lia.
Qed.

Lemma crc_bits_low (n : nat) r :
  0 <= r -> r * 2 ^ Z.of_nat n < 2 ^ 32 ->
  crc_bits n r = r * 2 ^ Z.of_nat n.
Proof.
  revert r. induction n as [|n IH]; intros r H0 Hr.
  - simpl. lia.
  - rewrite Nat2Z.inj_succ, Z.pow_succ_r in * by lia.
    change (crc_bits (S n) r) with (crc_bit_step (crc_bits n r)).
    rewrite IH by nia. rewrite crc_bit_step_low by nia. lia.
Qed.

(** The table holds, for each byte, eight steps of the byte at the top of
    the register. *)
Lemma crctable_bits i :
  0 <= i < 256 ->
  default 0 (crctable !! Z.to_nat i) = crc_bits 8 (Z.shiftl i 24).
Proof.
  intros Hi.
  assert (Hall : forallb (fun k => default 0 (crctable !! k)
                            =? crc_bits 8 (Z.shiftl (Z.of_nat k) 24))
                         (seq 0 256) = true) by (vm_compute; reflexivity).
  rewrite forallb_forall in Hall.
  specialize (Hall (Z.to_nat i)). rewrite Z2Nat.id in Hall by lia.
  apply Z.eqb_eq, Hall, in_seq. lia.
Qed.

Lemma update_crc_range c b : is_uint32 (update_crc c b).
Proof.
  unfold update_crc, is_uint32, u32, UINT32_MAX.
  match goal with |- 0 <= ?x mod _ <= _ =>
    pose proof (Z.mod_pos_bound x (2 ^ 32) ltac:(lia)) end. lia.
Qed.

Lemma u32_id z : 0 <= z < 2 ^ 32 -> u32 z = z.
Proof. apply Z.mod_small. Qed.

Lemma crc_bits_range n r : 0 <= r < 2 ^ 32 -> 0 <= crc_bits n r < 2 ^ 32.
Proof.
  intros Hr. destruct n as [|n]; [done|].
  change (crc_bits (S n) r) with (crc_bit_step (crc_bits n r)).
  apply crc_bit_step_range.
Qed.

Lemma shiftr_24_byte c : 0 <= c < 2 ^ 32 -> 0 <= Z.shiftr c 24 < 2 ^ 8.
Proof.
  intros Hc. rewrite Z.shiftr_div_pow2 by lia. split.
  - apply Z.div_pos; lia.
  - apply Z.div_lt_upper_bound; lia.
Qed.

Lemma shiftl_8_u32 c : u32 (Z.shiftl c 8) = (c mod 2 ^ 24) * 2 ^ 8.
Proof.
  unfold u32. rewrite Z.shiftl_mul_pow2 by lia.
  change (2 ^ 32) with (2 ^ 24 * 2 ^ 8).
  apply Z.mul_mod_distr_r; lia.
Qed.

(** The table-driven step of the source is eight steps of the shift
    register on the register with the byte brought in at its top. *)
Lemma update_crc_bits c b :
  0 <= c < 2 ^ 32 -> 0 <= b < 2 ^ 8 ->
  update_crc c b = crc_bits 8 (Z.lxor c (Z.shiftl b 24)).
Proof.
  intros Hc Hb.
  pose proof (shiftr_24_byte c Hc) as Htop0.
  set (top := Z.lxor (Z.shiftr c 24) b).
  assert (Htop : 0 <= top < 2 ^ 8) by (apply lxor_bound; lia).
  pose proof (Z.mod_pos_bound c (2 ^ 24) ltac:(lia)) as Hlow.
  assert (Hsplit : Z.lxor c (Z.shiftl b 24)
                   = Z.lxor (Z.shiftl top 24) (c mod 2 ^ 24)).
  { rewrite (split_top_byte c) at 1. unfold top.
    rewrite Z.shiftl_lxor. apply lxor_swap. }
  rewrite Hsplit, crc_bits_lxor.
  rewrite <- crctable_bits by lia.
  rewrite (crc_bits_low 8) by (simpl; lia).
  unfold update_crc. fold top.
  change 0xff with (Z.ones 8). rewrite Z.land_ones by lia.
  rewrite (Z.mod_small top) by lia.
  rewrite shiftl_8_u32.
  apply u32_id. apply lxor_bound; [lia| |simpl; lia].
  rewrite crctable_bits by lia. apply crc_bits_range.
  rewrite Z.shiftl_mul_pow2 by lia. lia.
Qed.

Lemma crc_bits_8_word c d :
  0 <= c < 2 ^ 32 -> 0 <= d < 2 ^ 32 ->
  crc_bits 8 (Z.lxor c d)
  = Z.lxor (update_crc c (Z.shiftr d 24)) ((d mod 2 ^ 24) * 2 ^ 8).
Proof.
  intros Hc Hd. pose proof (shiftr_24_byte d Hd) as Hhi.
  pose proof (Z.mod_pos_bound d (2 ^ 24) ltac:(lia)) as Hlow.
  rewrite (split_top_byte d) at 1.
  rewrite <- Z.lxor_assoc, crc_bits_lxor.
  rewrite <- update_crc_bits by lia.
  by rewrite (crc_bits_low 8) by (simpl; lia).
Qed.

Ltac div_mod_lia :=
  rewrite ?Z.shiftr_div_pow2 by lia;
  change 0xff with (Z.ones 8); rewrite ?Z.land_ones by lia;
  Z.div_mod_to_equations; lia.

(** Four table-driven steps over the bytes of a word, most significant
    first, are 32 steps of the shift register on the register exclusive-or
    the word. *)
Lemma update_crc_word c data :
  0 <= c < 2 ^ 32 -> 0 <= data ->
  update_crc
    (update_crc
       (update_crc
          (update_crc c (Z.land (Z.shiftr data 24) 0xff))
          (Z.land (Z.shiftr data 16) 0xff))
       (Z.land (Z.shiftr data 8) 0xff))
    (Z.land data 0xff)
  = crc_bits 32 (Z.lxor c (data mod 2 ^ 32)).
Proof.
  intros Hc Hdata.
  set (b3 := Z.land (Z.shiftr data 24) 0xff).
  set (b2 := Z.land (Z.shiftr data 16) 0xff).
  set (b1 := Z.land (Z.shiftr data 8) 0xff).
  set (b0 := Z.land data 0xff).
  set (d0 := data mod 2 ^ 32).
  assert (Hd0 : 0 <= d0 < 2 ^ 32) by (apply Z.mod_pos_bound; lia).
  set (e1 := (d0 mod 2 ^ 24) * 2 ^ 8).
  set (e2 := (e1 mod 2 ^ 24) * 2 ^ 8).
  set (e3 := (e2 mod 2 ^ 24) * 2 ^ 8).
  assert (He1 : 0 <= e1 < 2 ^ 32) by (unfold e1; div_mod_lia).
  assert (He2 : 0 <= e2 < 2 ^ 32) by (unfold e2; div_mod_lia).
  assert (He3 : 0 <= e3 < 2 ^ 32) by (unfold e3; div_mod_lia).
  assert (H3 : Z.shiftr d0 24 = b3) by (unfold d0, b3; div_mod_lia).
  assert (H2 : Z.shiftr e1 24 = b2) by (unfold e1, d0, b2; div_mod_lia).
  assert (H1 : Z.shiftr e2 24 = b1) by (unfold e2, e1, d0, b1; div_mod_lia).
  assert (H0 : Z.shiftr e3 24 = b0) by (unfold e3, e2, e1, d0, b0; div_mod_lia).
  assert (H4 : (e3 mod 2 ^ 24) * 2 ^ 8 = 0) by (unfold e3, e2, e1; div_mod_lia).
  change 32%nat with (8 + (8 + (8 + 8)))%nat.
  rewrite !crc_bits_add.
  rewrite (crc_bits_8_word c d0) by done. fold e1. rewrite H3.
  pose proof (update_crc_range c b3) as R1.
  rewrite (crc_bits_8_word _ e1) by (unfold is_uint32, UINT32_MAX in *; lia).
  fold e2. rewrite H2.
  pose proof (update_crc_range (update_crc c b3) b2) as R2.
  rewrite (crc_bits_8_word _ e2) by (unfold is_uint32, UINT32_MAX in *; lia).
  fold e3. rewrite H1.
  pose proof (update_crc_range (update_crc (update_crc c b3) b2) b1) as R3.
  rewrite (crc_bits_8_word _ e3) by (unfold is_uint32, UINT32_MAX in *; lia).
  rewrite H0, H4. by rewrite Z.lxor_0_r.
Qed.

Lemma crc_bit_step_inj a b :
  0 <= a < 2 ^ 32 -> 0 <= b < 2 ^ 32 ->
  crc_bit_step a = crc_bit_step b -> a = b.
Proof.
  intros Ha Hb Heq.
  assert (Hbit : forall r, Z.testbit (crc_bit_step r) 0 = Z.testbit r 31).
  { intros r. unfold crc_bit_step, u32.
    assert (Z.testbit (Z.shiftl r 1 mod 2 ^ 32) 0 = false) as Hlow.
    { rewrite Z.testbit_mod_pow2 by lia. by rewrite Z.shiftl_spec_low by lia. }
    destruct (Z.testbit r 31); [|done].
    rewrite Z.lxor_spec, Hlow. reflexivity. }
  assert (H31 : Z.testbit a 31 = Z.testbit b 31) by (by rewrite <- !Hbit, Heq).
  assert (Hsh : u32 (Z.shiftl a 1) = u32 (Z.shiftl b 1)).
  { unfold crc_bit_step in Heq. rewrite H31 in Heq.
    destruct (Z.testbit b 31); [|done].
    apply (f_equal (fun z => Z.lxor z CRC_POLY)) in Heq.
    by rewrite !Z.lxor_assoc, !Z.lxor_nilpotent, !Z.lxor_0_r in Heq. }
  unfold u32 in Hsh. rewrite !Z.shiftl_mul_pow2 in Hsh by lia.
  assert (Hq : forall r, 0 <= r < 2 ^ 32 ->
             r / 2 ^ 31 = if Z.testbit r 31 then 1 else 0).
  { intros r Hr. rewrite Z.testbit_eqb by lia.
    assert (0 <= r / 2 ^ 31 < 2) by (Z.div_mod_to_equations; lia).
    destruct (Z.eqb_spec ((r / 2 ^ 31) mod 2) 1) as [E|E];
      Z.div_mod_to_equations; lia. }
  pose proof (Hq a Ha) as Hqa. pose proof (Hq b Hb) as Hqb.
  rewrite H31 in Hqa. rewrite <- Hqb in Hqa.
  Z.div_mod_to_equations. lia.
Qed.

Lemma crc_bits_inj n a b :
  0 <= a < 2 ^ 32 -> 0 <= b < 2 ^ 32 ->
  crc_bits n a = crc_bits n b -> a = b.
Proof.
  intros Ha Hb. induction n as [|n IH]; [done|].
  change (crc_bits (S n) ?r) with (crc_bit_step (crc_bits n r)).
  intros H. apply IH. apply crc_bit_step_inj; [..|done]; by apply crc_bits_range.
Qed.

Lemma crc_bits_0 n : crc_bits n 0 = 0.
Proof. by rewrite (crc_bits_low n 0) by lia. Qed.

Lemma lxor_cancel_l c a b : Z.lxor c a = Z.lxor c b -> a = b.
Proof.
  intros H. apply (f_equal (Z.lxor c)) in H.
  by rewrite <- !Z.lxor_assoc, Z.lxor_nilpotent, !Z.lxor_0_l in H.
Qed.

(** A write of a word to the data register. *)
Lemma f2xx_crc_write_DR s addr data :
  0 <= addr < 4 ->
  f2xx_crc_write s addr data 4 =
  (mk_f2xx_crc
     (update_crc
        (update_crc
           (update_crc
              (update_crc (crc s) (Z.land (Z.shiftr data 24) 0xff))
              (Z.land (Z.shiftr data 16) 0xff))
           (Z.land (Z.shiftr data 8) 0xff))
        (Z.land data 0xff))
     (idr s), []).
Proof.
  intros Ha. unfold f2xx_crc_write. simpl negb. cbv iota.
  assert (Z.shiftr addr 2 = 0) as -> by div_mod_lia.
  reflexivity.
Qed.

(** ** The properties of the CRC unit *)

(** X1.  [update_crc] with the table of the source computes the CRC of the
    comment above the table: for every 32-bit register value and every
    byte, the result is eight steps of the shift register with polynomial
    0x04C11DB7, most significant bit first, not reflected, started from the
    register exclusive-or the byte in its top eight bits; and it is a 32-bit
    value. *)
Theorem X1_update_crc_shift_register c b :
  is_uint32 c -> 0 <= b <= 255 ->
  update_crc c b = crc_bits 8 (Z.lxor c (Z.shiftl b 24)) /\
  is_uint32 (update_crc c b).
Proof.
  unfold is_uint32, UINT32_MAX. intros Hc Hb. split.
  - apply update_crc_bits; lia.
  - apply update_crc_range.
Qed.

Lemma X1_update_crc_shift_register_witness :
  update_crc 0xffffffff 0x12 = crc_bits 8 (Z.lxor 0xffffffff (Z.shiftl 0x12 24))
  /\ is_uint32 (update_crc 0xffffffff 0x12).
Proof.
  apply (X1_update_crc_shift_register 0xffffffff 0x12);
    unfold is_uint32, UINT32_MAX; lia.
Defined.

(** X2.  A 4-byte write to the data register (any address of its word)
    advances the CRC by the 32 bits of the word, most significant first:
    the new register is 32 steps of the shift register from the old
    register exclusive-or the low 32 bits of the data; the upper 32 bits of
    the data are ignored, the independent data register is kept and nothing
    is logged. *)
Theorem X2_write_DR_word s addr data :
  is_uint32 (crc s) -> 0 <= addr < 4 -> 0 <= data ->
  f2xx_crc_write s addr data 4
  = (mk_f2xx_crc (crc_bits 32 (Z.lxor (crc s) (data mod 2 ^ 32))) (idr s), []).
Proof.
  unfold is_uint32, UINT32_MAX. intros Hc Ha Hd.
  rewrite f2xx_crc_write_DR by done.
  by rewrite update_crc_word by lia.
Qed.

Lemma X2_write_DR_word_witness :
  f2xx_crc_write crc_reset_state 0 0x12345678 4
  = (mk_f2xx_crc (crc_bits 32 (Z.lxor (crc crc_reset_state)
                                      (0x12345678 mod 2 ^ 32)))
                 (idr crc_reset_state), []).
Proof.
  apply (X2_write_DR_word crc_reset_state 0 0x12345678);
    unfold is_uint32, UINT32_MAX, crc_reset_state, R_CRC_DR_RESET;
    cbn [crc]; lia.
Defined.

(** X3.  Writing the value of the data register back into the data register
    leaves 0 in it: a message followed by its CRC has CRC 0. *)
Theorem X3_write_DR_own_value s addr :
  is_uint32 (crc s) -> 0 <= addr < 4 ->
  f2xx_crc_write s addr (crc s) 4 = (mk_f2xx_crc 0 (idr s), []).
Proof.
  unfold is_uint32, UINT32_MAX. intros Hc Ha.
  rewrite f2xx_crc_write_DR by done.
  rewrite update_crc_word by lia.
  rewrite Z.mod_small by lia.
  by rewrite Z.lxor_nilpotent, crc_bits_0.
Qed.

Lemma X3_write_DR_own_value_witness :
  f2xx_crc_write crc_reset_state 0 (crc crc_reset_state) 4
  = (mk_f2xx_crc 0 (idr crc_reset_state), []).
Proof.
  apply (X3_write_DR_own_value crc_reset_state 0);
    unfold is_uint32, UINT32_MAX, crc_reset_state, R_CRC_DR_RESET;
    cbn [crc]; lia.
Defined.

(** X4.  A write to the data register loses nothing: from one register
    value, two words leave the same CRC only if they are the same word (in
    their low 32 bits), and one word written from two register values leaves
    the same CRC only if the register values were the same. *)
Theorem X4_write_DR_injective s s' addr data data' :
  is_uint32 (crc s) -> is_uint32 (crc s') -> 0 <= addr < 4 ->
  0 <= data -> 0 <= data' ->
  (crc (f2xx_crc_write s addr data 4).1
   = crc (f2xx_crc_write s addr data' 4).1 ->
   data mod 2 ^ 32 = data' mod 2 ^ 32) /\
  (crc (f2xx_crc_write s addr data 4).1
   = crc (f2xx_crc_write s' addr data 4).1 ->
   crc s = crc s').
Proof.
  unfold is_uint32, UINT32_MAX. intros Hc Hc' Ha Hd Hd'.
  pose proof (Z.mod_pos_bound data (2 ^ 32) ltac:(lia)) as Hm.
  pose proof (Z.mod_pos_bound data' (2 ^ 32) ltac:(lia)) as Hm'.
  rewrite !f2xx_crc_write_DR by done. simpl.
  rewrite !update_crc_word by lia. split; intros Heq.
  - apply crc_bits_inj in Heq; [|apply lxor_bound; lia..].
    by apply lxor_cancel_l in Heq.
  - apply crc_bits_inj in Heq; [|apply lxor_bound; lia..].
    rewrite (Z.lxor_comm (crc s)), (Z.lxor_comm (crc s')) in Heq.
    by apply lxor_cancel_l in Heq.
Qed.

Lemma X4_write_DR_injective_witness :
  (crc (f2xx_crc_write crc_reset_state 0 1 4).1
   = crc (f2xx_crc_write crc_reset_state 0 (1 + 2 ^ 32) 4).1 ->
   1 mod 2 ^ 32 = (1 + 2 ^ 32) mod 2 ^ 32) /\
  (crc (f2xx_crc_write crc_reset_state 0 1 4).1
   = crc (f2xx_crc_write (mk_f2xx_crc 0 0) 0 1 4).1 ->
   crc crc_reset_state = crc (mk_f2xx_crc 0 0)).
Proof.
  apply (X4_write_DR_injective crc_reset_state (mk_f2xx_crc 0 0) 0
           1 (1 + 2 ^ 32));
    unfold is_uint32, UINT32_MAX, crc_reset_state, R_CRC_DR_RESET;
    cbn [crc]; lia.
Defined.

(** X5.  The guards of the two accessors.  An access that is not 4 bytes
    wide, or whose address is at or past the end of the three registers
    (0x0c), does nothing but log one entry: a read returns 0, a write
    leaves the device as it is.  The width is checked first; the invalid
    register is logged by the address of its word, in 32 bits. *)
Theorem X5_access_guards s addr data size :
  size <> 4 \/ 0x0c <= addr ->
  f2xx_crc_read s addr size
  = (0, [if size =? 4
         then LOG_GUEST_ERROR_read ((4 * (addr / 4)) mod 2 ^ 32)
         else LOG_UNIMP_read]) /\
  f2xx_crc_write s addr data size
  = (s, [if size =? 4
         then LOG_GUEST_ERROR_write ((4 * (addr / 4)) mod 2 ^ 32)
         else LOG_UNIMP_write]).
Proof.
  intros H. unfold f2xx_crc_read, f2xx_crc_write.
  destruct (size =? 4) eqn:Hs; [|done]. simpl negb. cbv iota.
  apply Z.eqb_eq in Hs. destruct H as [H|Ha]; [done|].
  assert (Hge : (Z.shiftr addr 2 >=? R_CRC_MAX) = true).
  { apply Z.geb_le. unfold R_CRC_MAX. div_mod_lia. }
  rewrite Hge.
  assert (Hreg : u32 (Z.shiftl (u32 (Z.shiftr addr 2)) 2)
                 = (4 * (addr / 4)) mod 2 ^ 32).
  { unfold u32. rewrite Z.shiftl_mul_pow2, Z.shiftr_div_pow2 by lia.
    change (2 ^ 2) with 4. Z.div_mod_to_equations. lia. }
  by rewrite Hreg.
Qed.

Lemma X5_access_guards_witness :
  f2xx_crc_read crc_reset_state 0x0c 4
  = (0, [if 4 =? 4
         then LOG_GUEST_ERROR_read ((4 * (0x0c / 4)) mod 2 ^ 32)
         else LOG_UNIMP_read]) /\
  f2xx_crc_write crc_reset_state 0x0c 1 4
  = (crc_reset_state,
     [if 4 =? 4
      then LOG_GUEST_ERROR_write ((4 * (0x0c / 4)) mod 2 ^ 32)
      else LOG_UNIMP_write]).
Proof. apply (X5_access_guards crc_reset_state 0x0c 1 4). right. lia. Defined.

(** X6.  The independent data register is eight bits wide and stands
    alone: what a 4-byte read at its word returns after a 4-byte write
    there is the data modulo 256, the CRC is untouched by the write, and a
    later write to the data register does not change what it reads; the
    control register always reads 0. *)
Theorem X6_IDR_round_trip s addr addr' data data' :
  4 <= addr < 8 -> 0 <= addr' < 4 ->
  let s1 := (f2xx_crc_write s addr data 4).1 in
  f2xx_crc_read s1 addr 4 = (data mod 2 ^ 8, []) /\
  crc s1 = crc s /\
  f2xx_crc_read (f2xx_crc_write s1 addr' data' 4).1 addr 4
  = (data mod 2 ^ 8, []) /\
  forall a, 8 <= a < 12 -> f2xx_crc_read s1 a 4 = (0, []).
Proof.
  intros Ha Ha' s1.
  assert (Hidr : Z.shiftr addr 2 = 1) by div_mod_lia.
  assert (Hdr : Z.shiftr addr' 2 = 0) by div_mod_lia.
  assert (Hs1 : s1 = mk_f2xx_crc (crc s) (data mod 2 ^ 8)).
  { unfold s1, f2xx_crc_write. simpl negb. cbv iota. by rewrite Hidr. }
  assert (Hrd : forall t, f2xx_crc_read t addr 4 = (idr t, [])).
  { intros t. unfold f2xx_crc_read. simpl negb. cbv iota. by rewrite Hidr. }
  rewrite !Hrd, Hs1. split; [done|]. split; [done|]. split.
  - by rewrite f2xx_crc_write_DR.
  - intros a Hcr. unfold f2xx_crc_read. simpl negb. cbv iota.
    assert (Z.shiftr a 2 = 2) as -> by div_mod_lia. reflexivity.
Qed.

Lemma X6_IDR_round_trip_witness :
  f2xx_crc_read (f2xx_crc_write crc_reset_state 4 0x1ff 4).1 4 4
  = (0x1ff mod 2 ^ 8, []).
Proof.
  apply (X6_IDR_round_trip crc_reset_state 4 0 0x1ff 0); lia.
Defined.

(** X7.  A 4-byte write to the control register looks at bit 0 of the data
    alone: set, the data register becomes 0xffffffff, as after
    [f2xx_crc_reset]; clear, nothing changes.  Neither reset touches the
    independent data register. *)
Theorem X7_control_reset s addr data :
  8 <= addr < 12 -> 0 <= data ->
  f2xx_crc_write s addr data 4
  = (if Z.odd data then f2xx_crc_reset s else s, []) /\
  crc (f2xx_crc_reset s) = 0xffffffff /\
  idr (f2xx_crc_reset s) = idr s.
Proof.
  intros Ha Hd. split; [|done].
  unfold f2xx_crc_write. simpl negb. cbv iota.
  assert (Z.shiftr addr 2 = 2) as -> by div_mod_lia. simpl.
  change 1 with (Z.ones 1). rewrite Z.land_ones by lia.
  change (2 ^ 1) with 2. rewrite Zmod_odd.
  by destruct (Z.odd data).
Qed.

Lemma X7_control_reset_witness :
  f2xx_crc_write (mk_f2xx_crc 5 7) 8 3 4
  = (if Z.odd 3 then f2xx_crc_reset (mk_f2xx_crc 5 7)
     else mk_f2xx_crc 5 7, []).
Proof. apply (X7_control_reset (mk_f2xx_crc 5 7) 8 3); lia. Defined.

(** X8.  The two fields stay in the range of their types: from a device
    whose data register is within 32 bits and whose independent data
    register is within 8 bits, every write (any address, data and size)
    and the reset leave such a device, and every read returns a 32-bit
    value. *)
Theorem X8_crc_state_range s addr data size :
  crc_state_ok s -> 0 <= addr -> 0 <= data ->
  crc_state_ok (f2xx_crc_write s addr data size).1 /\
  crc_state_ok (f2xx_crc_reset s) /\
  is_uint32 (f2xx_crc_read s addr size).1.
Proof.
  unfold crc_state_ok, is_uint32, UINT32_MAX. intros [Hc Hi] Ha Hd.
  split; [|split].
  - unfold f2xx_crc_write.
    destruct (negb (size =? 4)); [done|].
    destruct (_ >=? _); [done|].
    destruct (_ =? R_CRC_DR).
    { simpl. split; [|done]. apply update_crc_range. }
    destruct (_ =? R_CRC_IDR).
    { simpl. split; [done|]. apply Z.mod_pos_bound. lia. }
    destruct (_ =? R_CRC_CR); [|done].
    destruct (negb _); [|done]. simpl. unfold R_CRC_DR_RESET. lia.
  - simpl. unfold R_CRC_DR_RESET. lia.
  - unfold f2xx_crc_read.
    destruct (negb (size =? 4)); [simpl; lia|].
    destruct (_ >=? _); [simpl; lia|].
    destruct (_ =? R_CRC_DR); [simpl; lia|].
    destruct (_ =? R_CRC_IDR); simpl; lia.
Qed.

Lemma X8_crc_state_range_witness :
  crc_state_ok (f2xx_crc_write crc_reset_state 0 0x12345678 4).1 /\
  crc_state_ok (f2xx_crc_reset crc_reset_state) /\
  is_uint32 (f2xx_crc_read crc_reset_state 0 4).1.
Proof.
  apply (X8_crc_state_range crc_reset_state 0 0x12345678 4);
    unfold crc_state_ok, is_uint32, UINT32_MAX, crc_reset_state,
      R_CRC_DR_RESET; cbn [crc idr]; lia.
Defined.

(** * Further properties: the clock tree *)

(** ** The events of a recalculation *)

Lemma Recalc_Propagate_event_ok :
  (forall x s s', Recalc x s s' ->
     exists evs, trace s' = trace s ++ evs /\
                 Forall (event_ok (wiring s)) evs) /\
  (forall x v l s s', Propagate x v l s s' ->
     exists evs, trace s' = trace s ++ evs /\
                 Forall (event_ok (wiring s)) evs).
Proof.
  apply Recalc_Propagate_ind.
  - intros x s c _ _. exists []. by rewrite app_nil_r.
  - intros x s c new s' Hc Hnew _ _ _ _ (evs & IHt & IHe).
    rewrite (wiring_changed_state _ _ _ _ Hc) in IHe.
    pose proof (wiring_lookup _ _ _ Hc) as Hwc.
    exists (change_events x c new ++ evs). split.
    { rewrite IHt. simpl. by rewrite app_assoc. }
    apply Forall_app. split; [|done].
    unfold change_events. apply Forall_app. split.
    + destruct (Z.gtb_spec new (max_output_freq c)) as [Hgt|_];
        [|constructor].
      repeat constructor. exists (static c). split; [done|].
      split; [done|]. apply new_output_freq_of_range in Hnew. lia.
    + apply Forall_fmap, Forall_forall. intros u Hu. split; [done|].
      by exists (static c).
  - intros x v s. exists []. by rewrite app_nil_r.
  - intros x v n ns s s' nc p _ _ _ _ IH. exact IH.
  - intros x v n ns s s1 s' nc Hn Hp HR (ev1 & Ht1 & He1) _ (ev2 & Ht2 & He2).
    rewrite (Recalc_wiring _ _ _ HR) in He2.
    rewrite (wiring_input_freq_state _ _ _ _ Hn) in He1, He2.
    exists (ev1 ++ ev2). split.
    + rewrite Ht2, Ht1. simpl. by rewrite app_assoc.
    + by apply Forall_app.
Qed.

Lemma Recalc_event_ok x s s' :
  Recalc x s s' ->
  exists evs, trace s' = trace s ++ evs /\ Forall (event_ok (wiring s)) evs.
Proof. apply Recalc_Propagate_event_ok. Qed.

(** X9.  Whatever a recalculation that returns has appended to the effects
    is well formed and comes from the recalculated node or from a node
    below it along the current selections: an observer is only ever raised
    (level 1, never lowered), and it is one of the live observers of its
    node; a diagnostic is only emitted for a frequency strictly above the
    maximum of its node. *)
Theorem X9_recalc_events fuel x s s' :
  clktree_recalc_output_freq fuel x s = Ok (tt, s') ->
  exists evs, trace s' = trace s ++ evs /\
    Forall (fun e => event_ok (wiring s) e /\
                     below (wiring s) x (event_clk e)) evs.
Proof.
  intros Hrun. apply Recalc_adequate in Hrun.
  destruct (Recalc_event_ok _ _ _ Hrun) as (evs & Ht & Hok).
  destruct (Recalc_events _ _ _ Hrun) as (evs' & Ht' & Hbelow).
  rewrite Ht in Ht'. apply app_inv_head in Ht' as <-.
  exists evs. split; [done|].
  apply Forall_forall. intros e He. split.
  - by apply (proj1 (Forall_forall _ _) Hok).
  - by apply (proj1 (Forall_forall _ _) Hbelow).
Qed.

Lemma X9_recalc_events_witness :
  exists evs,
    trace (Examples.after (clktree_recalc_output_freq 8 0)
                          Examples.chain_src_off)
    = trace Examples.chain_src_off ++ evs /\
    Forall (fun e => event_ok (wiring Examples.chain_src_off) e /\
                     below (wiring Examples.chain_src_off) 0 (event_clk e))
           evs.
Proof.
  apply (X9_recalc_events 8 0 Examples.chain_src_off). vm_compute. reflexivity.
Defined.

(** X10.  The diagnostic is out of reach of a node whose maximum is at
    least [UINT32_MAX]: the frequency compared with the maximum is the
    32-bit [new_output_freq].  In a memory where every node has such a
    maximum, all that a recalculation appends to the effects are
    notifications. *)
Theorem X10_diagnostic_unreachable fuel x s s' :
  (forall a c, heap s !! a = Some c -> UINT32_MAX <= max_output_freq c) ->
  clktree_recalc_output_freq fuel x s = Ok (tt, s') ->
  exists evs, trace s' = trace s ++ evs /\ Forall is_raise evs.
Proof.
  intros Hmax Hrun. apply Recalc_adequate in Hrun.
  destruct (Recalc_event_ok _ _ _ Hrun) as (evs & Ht & Hok).
  exists evs. split; [done|].
  eapply Forall_impl; [exact Hok|].
  intros [k f m|k u l]; simpl.
  - intros (w & Hw & -> & Hlt).
    apply wiring_lookup_inv in Hw as (c & Hc & ->).
    apply Hmax in Hc. simpl in Hlt. lia.
  - by intros [-> _].
Qed.

Lemma X10_diagnostic_unreachable_witness :
  exists evs,
    trace (Examples.after (clktree_recalc_output_freq 8 0)
                          Examples.chain_src_off)
    = trace Examples.chain_src_off ++ evs /\ Forall is_raise evs.
Proof.
  apply (X10_diagnostic_unreachable 8 0 Examples.chain_src_off).
  - intros a c Hc.
    assert (Hin : c ∈ heap Examples.chain_src_off)
      by (apply list_elem_of_lookup; eauto).
    vm_compute in Hin.
    repeat (apply elem_of_cons in Hin as [->|Hin]; [vm_compute; discriminate|]).
    by apply elem_of_nil in Hin.
  - vm_compute. reflexivity.
Defined.

(** X11.  When a recalculation in a well-wired memory finds a new frequency
    for its node, the effects of that node come first, once each and in
    this order: the diagnostic if the new frequency is above the maximum,
    then one notification per live observer, in the order of registration;
    everything after them comes from other nodes. *)
Theorem X11_own_events_first h fuel x s s' c new :
  heap_wf h (wiring s) ->
  heap s !! x = Some c ->
  new_output_freq_of c = Ok new -> new <> output_freq c ->
  clktree_recalc_output_freq fuel x s = Ok (tt, s') ->
  exists evs,
    trace s' = trace s
      ++ (if new >? max_output_freq c
          then [Diag x new (max_output_freq c)] else [])
      ++ ((fun u => SetIrq x u 1) <$> take (user_count c) (user c))
      ++ evs /\
    Forall (fun e => event_clk e <> x) evs.
Proof.
  intros Hwf Hc Hnew Hne Hrun. apply Recalc_adequate in Hrun.
  inversion Hrun as [? ? c0 Hc0 Hn|? ? c0 new0 ? Hc0 Hn _ _ _ HP]; subst;
    rewrite Hc in Hc0; injection Hc0 as <-; rewrite Hnew in Hn.
  { by injection Hn as ->. }
  injection Hn as <-.
  apply Recalc_Propagate_frame in HP as [_ (evs & Ht & He)].
  rewrite (wiring_changed_state _ _ _ _ Hc) in He.
  exists evs. split.
  - rewrite Ht. unfold changed_state, change_events. simpl.
    by rewrite <- !app_assoc.
  - eapply Forall_impl; [exact He|]. intros e Hb Heq. cbv beta in Hb.
    rewrite Heq in Hb. by apply (wf_not_sbelow_self _ _ _ Hwf) in Hb.
Qed.

Lemma X11_own_events_first_witness :
  exists evs,
    trace (Examples.after (clktree_recalc_output_freq 8 0)
                          Examples.chain_src_off)
    = trace Examples.chain_src_off
      ++ (if 0 >? max_output_freq (with_enabled false Examples.chain_src)
          then [Diag 0 0 (max_output_freq
                            (with_enabled false Examples.chain_src))]
          else [])
      ++ ((fun u => SetIrq 0 u 1)
            <$> take (user_count (with_enabled false Examples.chain_src))
                     (user (with_enabled false Examples.chain_src)))
      ++ evs /\
    Forall (fun e => event_clk e <> 0%nat) evs.
Proof.
  apply (X11_own_events_first Examples.height 8 0 Examples.chain_src_off
           _ (with_enabled false Examples.chain_src) 0).
  - apply heap_wfb_spec. vm_compute. reflexivity.
  - reflexivity.
  - reflexivity.
  - vm_compute. discriminate.
  - vm_compute. reflexivity.
Defined.

(** ** A node that reads 0 silences everything below it *)

Lemma settled_zero_below l x cx :
  settled l -> l !! x = Some cx -> output_freq cx = 0 ->
  forall y, below l x y ->
    exists cy, l !! y = Some cy /\ output_freq cy = 0 /\
               (y <> x -> input_freq cy = 0).
Proof.
  intros Hset Hx H0 y Hb. induction Hb as [|y z Hb IH Hsel].
  { exists cx. done. }
  destruct IH as (cy & Hy & Hy0 & _).
  destruct Hsel as (cz & Hz & Hsel).
  destruct (Hset _ _ Hz) as [Hl Hok].
  assert (Hin : input_freq cz = 0) by (by rewrite (Hl y cy Hsel Hy)).
  exists cz. split; [done|]. split; [|done].
  apply new_output_freq_of_Ok in Hok as [[_ ->]|(_ & _ & ->)]; [done|].
  by rewrite Hin.
Qed.

Lemma below_heap s x y : below (wiring s) x y -> below (heap s) x y.
Proof.
  induction 1 as [|y z Hb IH Hsel]; [apply below_refl|].
  eapply below_step; [exact IH|].
  apply selects_wiring_inv in Hsel as (cz & Hz & Hsel). by exists cz.
Qed.

(** What the two ways of cutting a node off have in common. *)
Lemma mutate_zero_below `{ClkConfig} h fuel x mu s c :
  heap_wf h (wiring s) -> settled (heap s) -> heap s !! x = Some c ->
  mutation_pre mu (heap s) c -> (h x < fuel)%nat ->
  (forall c1, written mu (heap s) c = Ok c1 -> new_output_freq_of c1 = Ok 0) ->
  exists s', mutate fuel x mu s = Ok (tt, s') /\
    heap_wf h (wiring s') /\ settled (heap s') /\
    forall y, below (wiring s') x y ->
      exists cy, heap s' !! y = Some cy /\ output_freq cy = 0 /\
                 (y <> x -> input_freq cy = 0).
Proof.
  intros Hwf Hset Hc Hpre Hfuel Hzero.
  destruct (mutate_settled h fuel x mu s c Hwf Hset Hc Hpre Hfuel)
    as (s' & Hrun & Hwf' & Hset' & _ & c1 & new & Hw & Hnew & Hx').
  rewrite (Hzero _ Hw) in Hnew. injection Hnew as <-.
  exists s'. do 3 (split; [done|]). intros y Hb.
  apply (settled_zero_below (heap s') x _ Hset' Hx'); [done|].
  by apply below_heap.
Qed.

(** X12.  Cutting a node off silences its whole subtree.  In a well-wired,
    settled memory, [clktree_set_enabled] with false and
    [clktree_set_selected_input] with the sentinel -1 both return (given
    fuel above the height of the node), and when they return the node and
    every node below it along the selections read an output frequency of 0,
    the nodes below it an input frequency of 0 as well. *)
Theorem X12_cut_off_zeroes_subtree h fuel x s c :
  heap_wf h (wiring s) -> settled (heap s) -> heap s !! x = Some c ->
  (h x < fuel)%nat ->
  (exists s', clktree_set_enabled fuel x false s = Ok (tt, s') /\
     forall y, below (wiring s') x y ->
       exists cy, heap s' !! y = Some cy /\ output_freq cy = 0 /\
                  (y <> x -> input_freq cy = 0)) /\
  (exists s', clktree_set_selected_input fuel x (-1) s = Ok (tt, s') /\
     forall y, below (wiring s') x y ->
       exists cy, heap s' !! y = Some cy /\ output_freq cy = 0 /\
                  (y <> x -> input_freq cy = 0)).
Proof.
  intros Hwf Hset Hc Hfuel.
  destruct (Hwf _ _ (wiring_lookup _ _ _ Hc)) as [Hd _ _ _ _ Hic Hint _ _].
  simpl in Hd, Hic, Hint.
  split.
  - destruct (mutate_zero_below (H := Build_ClkConfig 0 0 0 0) h fuel x
                (Set_enabled false) s c Hwf Hset Hc I Hfuel)
      as (s' & Hrun & _ & _ & Hz).
    { by intros c1 [= <-]. }
    by exists s'.
  - destruct (mutate_zero_below (H := Build_ClkConfig 0 0 0 0) h fuel x
                (Select_input (-1)) s c Hwf Hset Hc) as (s' & Hrun & _ & _ & Hz).
    { simpl. lia. }
    { done. }
    { intros c1. simpl. change (u32 (int32 (-1 + 1))) with 0.
      destruct (0 <? _); [|discriminate]. intros [= <-].
      apply new_output_freq_of_Ok. simpl.
      destruct (enabled c); [right|left]; done. }
    by exists s'.
Qed.

Lemma X12_cut_off_zeroes_subtree_witness :
  exists s', clktree_set_enabled 8 0 false Examples.chain = Ok (tt, s') /\
    forall y, below (wiring s') 0 y ->
      exists cy, heap s' !! y = Some cy /\ output_freq cy = 0 /\
                 (y <> 0%nat -> input_freq cy = 0).
Proof.
  apply (X12_cut_off_zeroes_subtree Examples.height 8 0 Examples.chain
           Examples.chain_src).
  - apply heap_wfb_spec. vm_compute. reflexivity.
  - apply settledb_spec. vm_compute. reflexivity.
  - reflexivity.
  - vm_compute. lia.
Defined.

(** ** The frequencies are a function of the wiring and of the sources *)

Lemma Clk_eq c1 c2 :
  static c1 = static c2 -> input_freq c1 = input_freq c2 ->
  output_freq c1 = output_freq c2 -> c1 = c2.
Proof.
  destruct c1, c2. unfold static. simpl. intros [= -> -> -> -> -> -> -> -> -> -> -> -> ->].
  by intros -> ->.
Qed.

Lemma sbelow_selects W x a : sbelow W x a -> exists p, selects W a p.
Proof.
  intros (z & Hz & Hb). destruct Hb as [|y a Hb Hsel]; eauto.
Qed.

Lemma settled_unique h s1 s2 :
  heap_wf h (wiring s1) -> wiring s1 = wiring s2 ->
  settled (heap s1) -> settled (heap s2) ->
  (forall a c1 c2, heap s1 !! a = Some c1 -> heap s2 !! a = Some c2 ->
     clktree_get_input_clk c1 = Ok None -> input_freq c1 = input_freq c2) ->
  heap s1 = heap s2.
Proof.
  intros Hwf HW Hs1 Hs2 Hsrc.
  set (B := max_list (h <$> seq 0 (length (heap s1)))).
  assert (HB : forall a, (a < length (heap s1))%nat -> (h a <= B)%nat).
  { intros a Ha. apply max_list_elem_of_le.
    apply list_elem_of_fmap. exists a. split; [done|].
    apply elem_of_seq. lia. }
  assert (Hlen : length (heap s2) = length (heap s1)).
  { symmetry. by apply wiring_length. }
  assert (Hall : forall n a c1 c2, (B - h a < n)%nat ->
            heap s1 !! a = Some c1 -> heap s2 !! a = Some c2 -> c1 = c2).
  { induction n as [|n IH]; intros a c1 c2 Hn H1 H2; [lia|].
    pose proof (wiring_lookup _ _ _ H1) as Hw1.
    pose proof (wiring_lookup _ _ _ H2) as Hw2.
    rewrite <- HW, Hw1 in Hw2.
    assert (Hst : static c2 = static c1) by congruence. clear Hw2.
    destruct (static_scalars _ _ Hst) as (He & Hm & Hd & Hg).
    destruct (Hs1 _ _ H1) as [Hl1 Hok1]. destruct (Hs2 _ _ H2) as [Hl2 Hok2].
    assert (Hin : input_freq c1 = input_freq c2).
    { destruct (wf_get_input _ _ _ _ Hwf Hw1) as [[_ Hg1]|(q & _ & Hg1 & Hh & Hmir)];
        rewrite get_input_clk_static in Hg1.
      - by apply (Hsrc a).
      - destruct Hmir as (qw & _ & Hq & _).
        apply wiring_lookup_inv in Hq as (qc1 & Hq1 & _).
        assert (Hq2 : is_Some (heap s2 !! q)).
        { apply lookup_lt_is_Some. rewrite Hlen. by eapply lookup_lt_Some. }
        destruct Hq2 as [qc2 Hq2].
        assert (qc1 = qc2) as <-.
        { apply (IH q); [|done|done].
          pose proof (HB q ltac:(by eapply lookup_lt_Some)).
          pose proof (HB a ltac:(by eapply lookup_lt_Some)). lia. }
        rewrite (Hl1 q qc1 Hg1 Hq1). symmetry. apply (Hl2 q); [|done].
        by rewrite Hg. }
    apply Clk_eq; [done|done|].
    unfold clk_ok, new_output_freq_of in Hok1, Hok2.
    rewrite He, Hm, Hd, <- Hin, Hok1 in Hok2. by injection Hok2. }
  apply list_eq. intros a.
  destruct (heap s1 !! a) as [c1|] eqn:H1.
  - assert (H2 : is_Some (heap s2 !! a)).
    { apply lookup_lt_is_Some. rewrite Hlen. by eapply lookup_lt_Some. }
    destruct H2 as [c2 H2]. rewrite H2. f_equal.
    by apply (Hall (S (B - h a)) a); [lia| |].
  - symmetry. apply lookup_ge_None. rewrite Hlen. by apply lookup_ge_None.
Qed.

(** The invariant of the memory, with what a mutation leaves alone: the
    wiring of the other nodes and the structs of the other sources. *)
Lemma mutate_settled_frame `{ClkConfig} h fuel x mu s c :
  heap_wf h (wiring s) -> settled (heap s) -> heap s !! x = Some c ->
  mutation_pre mu (heap s) c -> (h x < fuel)%nat ->
  exists s' c1 new, mutate fuel x mu s = Ok (tt, s') /\
    heap_wf h (wiring s') /\ settled (heap s') /\
    written mu (heap s) c = Ok c1 /\ new_output_freq_of c1 = Ok new /\
    heap s' !! x = Some (with_output_freq new c1) /\
    wiring s' = <[x := static c1]> (wiring s) /\
    (forall a ca, a <> x -> heap s' !! a = Some ca ->
       clktree_get_input_clk ca = Ok None -> heap s !! a = Some ca).
Proof.
  intros Hwf Hset Hc Hpre Hfuel.
  destruct (written_settled _ _ _ _ _ Hwf Hset Hc Hpre)
    as (Hr & c1 & Hw & Hwf0 & Hset0).
  set (s0 := mkState (<[x := c1]> (heap s)) (trace s)) in *.
  destruct (recalc_terminates h fuel x s0 Hwf0) as [s' Hrun]; [|done|].
  { simpl. rewrite length_insert. by eapply lookup_lt_Some. }
  pose proof (Recalc_adequate _ _ _ _ Hrun) as HR.
  pose proof (Recalc_wiring _ _ _ HR) as HW.
  assert (Hx0 : heap s0 !! x = Some c1) by (simpl; insert_eq).
  destruct (Recalc_self h x s0 s' c1 Hwf0 HR Hx0) as (new & Hnew & Hx').
  exists s', c1, new. split; [|split; [|split; [|split; [|split; [|split; [|split]]]]]];
    try done.
  - by rewrite (mutate_runtime _ _ _ _ _ Hr Hc), Hw.
  - by rewrite HW.
  - by apply (Recalc_settled h x s0 s').
  - rewrite HW. unfold wiring, s0. simpl. by rewrite list_fmap_insert.
  - intros a ca Ha Hca Hnone.
    destruct (Recalc_frame _ _ _ a HR) as [E|E].
    + rewrite E in Hca. simpl in Hca.
      by rewrite list_lookup_insert_ne in Hca.
    + exfalso. apply below_inv in E as [->|E]; [done|].
      apply sbelow_selects in E as (p & w & Hw' & Hp).
      rewrite <- HW, (wiring_lookup _ _ _ Hca) in Hw'. injection Hw' as <-.
      rewrite get_input_clk_static in Hp. congruence.
Qed.

(** Two mutations in a row, the second of which writes back what the first
    has written over, restore the memory. *)
Lemma mutate_restore `{ClkConfig} h fuel x mu1 mu2 f1 f2 s c :
  heap_wf h (wiring s) -> settled (heap s) -> heap s !! x = Some c ->
  (h x < fuel)%nat ->
  (forall l c0, written mu1 l c0 = Ok (f1 c0)) ->
  (forall l c0, written mu2 l c0 = Ok (f2 c0)) ->
  mutation_pre mu1 (heap s) c ->
  (forall l c0, mutation_pre mu2 l c0) ->
  (forall v, static (f2 (with_output_freq v (f1 c))) = static c) ->
  (forall v, input_freq (f2 (with_output_freq v (f1 c))) = input_freq c) ->
  exists s1 s2, mutate fuel x mu1 s = Ok (tt, s1) /\
    mutate fuel x mu2 s1 = Ok (tt, s2) /\ heap s2 = heap s.
Proof.
  intros Hwf Hset Hc Hfuel Hw1 Hw2 Hpre1 Hpre2 Hst Hin.
  destruct (mutate_settled_frame h fuel x mu1 s c Hwf Hset Hc Hpre1 Hfuel)
    as (s1 & c1 & v1 & Hrun1 & Hwf1 & Hset1 & Hc1 & _ & Hx1 & HW1 & Hsrc1).
  rewrite Hw1 in Hc1. injection Hc1 as <-.
  destruct (mutate_settled_frame h fuel x mu2 s1 _ Hwf1 Hset1 Hx1
              (Hpre2 _ _) Hfuel)
    as (s2 & c2 & v2 & Hrun2 & Hwf2 & Hset2 & Hc2 & _ & Hx2 & HW2 & Hsrc2).
  rewrite Hw2 in Hc2. injection Hc2 as <-.
  exists s1, s2. do 2 (split; [done|]).
  assert (HW : wiring s2 = wiring s).
  { rewrite HW2, HW1, list_insert_insert_eq, Hst.
    apply list_insert_id. by apply wiring_lookup. }
  apply (settled_unique h); try done.
  intros a ca c' Ha Hc' Hnone. destruct (decide (a = x)) as [->|Hax].
  - rewrite Hx2 in Ha. injection Ha as <-. rewrite Hc in Hc'.
    injection Hc' as <-. apply Hin.
  - apply (Hsrc2 a ca Hax Ha) in Hnone as Ha1.
    apply (Hsrc1 a ca Hax Ha1) in Hnone. congruence.
Qed.

(** X13.  In a well-wired memory the stored frequencies are a function of
    the wiring and of the input frequencies of the nodes that select no
    input: two settled memories with the same wiring (names, gates, ratios,
    arrays, counts and selections) that agree on the input frequency of
    every node whose selection is NULL hold the same structs. *)
Theorem X13_frequencies_determined h s1 s2 :
  heap_wf h (wiring s1) -> wiring s1 = wiring s2 ->
  settled (heap s1) -> settled (heap s2) ->
  (forall a c1 c2, heap s1 !! a = Some c1 -> heap s2 !! a = Some c2 ->
     clktree_get_input_clk c1 = Ok None -> input_freq c1 = input_freq c2) ->
  heap s1 = heap s2.
Proof. apply settled_unique. Qed.

Lemma X13_frequencies_determined_witness :
  heap (Examples.after (clktree_set_enabled 8 0 false ;;
                        clktree_set_enabled 8 0 true) Examples.chain)
  = heap Examples.chain.
Proof.
  apply (X13_frequencies_determined Examples.height).
  - apply heap_wfb_spec. vm_compute. reflexivity.
  - vm_compute. reflexivity.
  - apply settledb_spec. vm_compute. reflexivity.
  - apply settledb_spec. vm_compute. reflexivity.
  - intros [|[|[|a]]] c1 c2 H1 H2 _; vm_compute in H1; vm_compute in H2;
      try discriminate; injection H1 as <-; injection H2 as <-; reflexivity.
Defined.

(** X14.  Writing a gate or a ratio and writing the old value back
    restores every struct of a well-wired, settled memory: after
    [clktree_set_enabled] with any value and then with the old one, and
    after [clktree_set_scale] with any ratio of non-zero divisor and then
    with the old ratio, all frequencies are the ones from before (both calls
    return given fuel above the height of the node). *)
Theorem X14_write_back_restores h fuel x s c :
  heap_wf h (wiring s) -> settled (heap s) -> heap s !! x = Some c ->
  (h x < fuel)%nat ->
  (forall b, exists s1 s2,
     clktree_set_enabled fuel x b s = Ok (tt, s1) /\
     clktree_set_enabled fuel x (enabled c) s1 = Ok (tt, s2) /\
     heap s2 = heap s) /\
  (forall m d, d <> 0 -> exists s1 s2,
     clktree_set_scale fuel x m d s = Ok (tt, s1) /\
     clktree_set_scale fuel x (multiplier c) (divisor c) s1 = Ok (tt, s2) /\
     heap s2 = heap s).
Proof.
  intros Hwf Hset Hc Hfuel.
  destruct (Hwf _ _ (wiring_lookup _ _ _ Hc)) as [Hd _ _ _ _ _ _ _ _].
  simpl in Hd. split.
  - intros b.
    apply (mutate_restore (H := Build_ClkConfig 0 0 0 0) h fuel x
             (Set_enabled b) (Set_enabled (enabled c))
             (with_enabled b) (with_enabled (enabled c)) s c);
      try done; intros v; by destruct c.
  - intros m d Hd'.
    apply (mutate_restore (H := Build_ClkConfig 0 0 0 0) h fuel x
             (Set_scale m d) (Set_scale (multiplier c) (divisor c))
             (with_scale m d) (with_scale (multiplier c) (divisor c)) s c);
      try done; intros v; by destruct c.
Qed.

Lemma X14_write_back_restores_witness :
  exists s1 s2,
    clktree_set_enabled 8 0 false Examples.chain = Ok (tt, s1) /\
    clktree_set_enabled 8 0 (enabled Examples.chain_src) s1 = Ok (tt, s2) /\
    heap s2 = heap Examples.chain.
Proof.
  apply (X14_write_back_restores Examples.height 8 0 Examples.chain
           Examples.chain_src).
  - apply heap_wfb_spec. vm_compute. reflexivity.
  - apply settledb_spec. vm_compute. reflexivity.
  - reflexivity.
  - vm_compute. lia.
Defined.

(** ** A mutation repeated *)

(** In the memory a mutation has left, the same mutation writes the struct
    that is already there. *)
Lemma written_again mu s s' x c c1 new :
  written mu (heap s) c = Ok c1 ->
  settled (heap s') -> length (heap s') = length (heap s) ->
  heap s' !! x = Some (with_output_freq new c1) ->
  written mu (heap s') (with_output_freq new c1)
  = Ok (with_output_freq new c1).
Proof.
  intros Hw Hset Hlen Hx.
  destruct mu as [m d|b|i|v| |]; try discriminate;
    try (by injection Hw as <-).
  unfold written in Hw.
  destruct (u32 (int32 (i + 1)) <? Z.of_nat (input_count c)) eqn:Hcond;
    [|discriminate].
  destruct (i >? -1) eqn:Hi.
  - destruct (clktree_get_input_clk (with_selected_input i c))
      as [[a|]|] eqn:Hg; try discriminate.
    destruct (heap s !! a) as [ic|] eqn:Ha; [|discriminate].
    injection Hw as <-.
    set (cx := with_output_freq new _) in *. unfold written.
    change (input_count cx) with (input_count c). rewrite Hcond, Hi.
    change (clktree_get_input_clk (with_selected_input i cx))
      with (clktree_get_input_clk (with_selected_input i c)).
    rewrite Hg.
    assert (Ha' : is_Some (heap s' !! a)).
    { apply lookup_lt_is_Some. rewrite Hlen. by eapply lookup_lt_Some. }
    destruct Ha' as [ic' Ha']. rewrite Ha'.
    destruct (Hset _ _ Hx) as [Hl _].
    specialize (Hl a ic' Hg Ha'). by rewrite <- Hl.
  - injection Hw as <-.
    set (cx := with_output_freq new _) in *. unfold written.
    change (input_count cx) with (input_count c). by rewrite Hcond, Hi.
Qed.

(** X15.  A mutation repeated changes nothing.  In a well-wired, settled
    memory, after a runtime mutation within its precondition has returned,
    the same call again ([clktree_set_scale], [clktree_set_enabled],
    [clktree_set_selected_input] or [clktree_set_input_freq] with the same
    arguments) returns in the very state it was called in: no struct
    changes and no effect is produced. *)
Theorem X15_mutation_idempotent `{ClkConfig} h fuel x mu s c :
  heap_wf h (wiring s) -> settled (heap s) -> heap s !! x = Some c ->
  mutation_pre mu (heap s) c -> (h x < fuel)%nat ->
  exists s', mutate fuel x mu s = Ok (tt, s') /\
             mutate fuel x mu s' = Ok (tt, s').
Proof.
  intros Hwf Hset Hc Hpre Hfuel.
  destruct (mutate_settled_frame h fuel x mu s c Hwf Hset Hc Hpre Hfuel)
    as (s' & c1 & new & Hrun & _ & Hset' & Hw & _ & Hx' & HW & _).
  exists s'. split; [done|].
  assert (Hlen : length (heap s') = length (heap s)).
  { apply (f_equal length) in HW. unfold wiring in HW.
    by rewrite length_insert, !length_fmap in HW. }
  assert (Hr : runtime mu = true).
  { destruct mu; simpl in Hpre; done. }
  rewrite (mutate_runtime _ _ _ _ _ Hr Hx'),
    (written_again _ _ _ _ _ _ _ Hw Hset' Hlen Hx').
  rewrite (list_insert_id _ _ _ Hx').
  destruct fuel as [|fuel]; [lia|].
  destruct (Hset' _ _ Hx') as [_ Hok].
  rewrite (recalc_S_same fuel x _ (with_output_freq new c1)); [|done|done].
  by destruct s'.
Qed.

Lemma X15_mutation_idempotent_witness :
  exists s', mutate (H := Examples.cfg) 8 1 (Set_scale 3 1) Examples.chain
             = Ok (tt, s') /\
             mutate (H := Examples.cfg) 8 1 (Set_scale 3 1) s' = Ok (tt, s').
Proof.
  apply (X15_mutation_idempotent (H := Examples.cfg) Examples.height 8 1
           (Set_scale 3 1) Examples.chain Examples.chain_x2).
  - apply heap_wfb_spec. vm_compute. reflexivity.
  - apply settledb_spec. vm_compute. reflexivity.
  - reflexivity.
  - simpl. lia.
  - vm_compute. lia.
Defined.

(** ** The creation routines *)

Lemma create_generic_run `{ClkConfig} clk nm m d en s c :
  heap s !! clk = Some c -> (0 < length (input c))%nat ->
  clktree_create_generic clk nm m d en s =
  Ok (tt, mkState
            (<[clk := mkClk nm en 0 0 CLKTREE_NO_MAX_FREQ m d 0 (user c)
                            0 (output c) 1 CLKTREE_NO_INPUT
                            (<[0%nat := None]> (input c)) true]> (heap s))
            (trace s)).
Proof.
  intros Hc Hlen. unfold clktree_create_generic.
  rewrite (bind_run _ _ _ _ _ (load_run _ _ _ Hc)).
  rewrite (bind_run _ _ _ _ _ (array_set_run _ _ None s Hlen)).
  by apply store_run with (c0 := c).
Qed.

(** The run of [clktree_create_src_clk]. *)
Lemma create_src_clk_run `{ClkConfig} fuel clk nm src_freq en s c :
  heap s !! clk = Some c -> (0 < length (input c))%nat ->
  is_uint32 src_freq ->
  clktree_create_src_clk (S fuel) clk nm src_freq en s =
  Ok (tt, mkState
            (<[clk := mkClk nm en src_freq (if en then src_freq else 0)
                            CLKTREE_NO_MAX_FREQ 1 1 0 (user c)
                            0 (output c) 1 CLKTREE_NO_INPUT
                            (<[0%nat := None]> (input c)) true]> (heap s))
            (trace s ++
             if en && negb (src_freq =? 0) && (src_freq >? CLKTREE_NO_MAX_FREQ)
             then [Diag clk src_freq CLKTREE_NO_MAX_FREQ] else [])).
Proof.
  unfold is_uint32, UINT32_MAX. intros Hc Hlen Hfreq.
  unfold clktree_create_src_clk.
  rewrite (bind_run _ _ _ _ _ (create_generic_run _ _ _ _ _ _ _ Hc Hlen)).
  set (c1 := mkClk nm en 0 0 _ _ _ _ _ _ _ _ _ _ _).
  unfold clktree_set_input_freq, set_input_freq_then.
  assert (Hc1 : heap (mkState (<[clk := c1]> (heap s)) (trace s)) !! clk
                = Some c1) by (simpl; insert_eq).
  rewrite (bind_run _ _ _ _ _ (modify_run _ _ _ _ Hc1)). simpl heap.
  simpl trace. rewrite list_insert_insert_eq.
  set (c2 := with_input_freq src_freq c1).
  set (s2 := mkState (<[clk := c2]> (heap s)) (trace s)).
  assert (Hc2 : heap s2 !! clk = Some c2) by (simpl; insert_eq).
  assert (Hnew : new_output_freq_of c2 = Ok (if en then src_freq else 0)).
  { apply new_output_freq_of_Ok. simpl. destruct en; [right|left; done].
    split; [done|]. split; [done|].
    rewrite Z.mul_1_r, Z.div_1_r, Z.mod_small; lia. }
  destruct (decide ((if en then src_freq else 0) = 0)) as [E|E].
  - rewrite (recalc_S_same fuel clk s2 c2 Hc2) by (by rewrite Hnew, E).
    unfold s2. f_equal. f_equal.
    assert (en && negb (src_freq =? 0) = false) as ->.
    { destruct en; [|done]. subst. done. }
    simpl. rewrite app_nil_r. f_equal. f_equal.
    unfold c2, c1. simpl. by rewrite E.
  - rewrite (recalc_S_change fuel clk s2 c2 _ Hc2 Hnew E) by (simpl; lia).
    simpl. unfold changed_state, change_events. simpl.
    rewrite list_insert_insert_eq, app_nil_r.
    destruct en; [|done].
    by rewrite (proj2 (Z.eqb_neq _ _) E).
Qed.

(** X16.  [clktree_create_src_clk] on a struct whose input array has room
    for the reserved entry, with a 32-bit frequency: the call returns and
    has written this one struct; the node has ratio 1/1, no selection, one
    input entry (NULL), the maximum [CLKTREE_NO_MAX_FREQ] and both
    frequencies set, the output being the source frequency if the node is
    enabled and 0 if not.  The counts of observers and of fan-out entries
    are 0 whatever they were, so no observer is notified and no child is
    visited; the only effect there can be is the diagnostic, when the
    output has changed from 0 to above the maximum. *)
Theorem X16_create_src_clk `{ClkConfig} fuel clk nm src_freq en s c :
  heap s !! clk = Some c -> (0 < length (input c))%nat ->
  is_uint32 src_freq ->
  clktree_create_src_clk (S fuel) clk nm src_freq en s =
  Ok (tt, mkState
            (<[clk := mkClk nm en src_freq (if en then src_freq else 0)
                            CLKTREE_NO_MAX_FREQ 1 1 0 (user c)
                            0 (output c) 1 CLKTREE_NO_INPUT
                            (<[0%nat := None]> (input c)) true]> (heap s))
            (trace s ++
             if en && negb (src_freq =? 0) && (src_freq >? CLKTREE_NO_MAX_FREQ)
             then [Diag clk src_freq CLKTREE_NO_MAX_FREQ] else [])).
Proof. apply create_src_clk_run. Qed.

Lemma X16_create_src_clk_witness :
  clktree_create_src_clk (H := Examples.cfg) 1 1 "osc" 25000000 true
    Examples.chain
  = Ok (tt, mkState
      (<[1%nat := mkClk "osc" true 25000000 25000000
                 (CLKTREE_NO_MAX_FREQ (ClkConfig := Examples.cfg)) 1 1
                 0 (user Examples.chain_x2) 0 (output Examples.chain_x2) 1
                 CLKTREE_NO_INPUT
                 (<[0%nat := None]> (input Examples.chain_x2)) true]>
         (heap Examples.chain))
      (trace Examples.chain ++
       if true && negb (25000000 =? 0)
          && (25000000 >? CLKTREE_NO_MAX_FREQ (ClkConfig := Examples.cfg))
       then [Diag 1 25000000 (CLKTREE_NO_MAX_FREQ (ClkConfig := Examples.cfg))]
       else [])).
Proof.
  apply (X16_create_src_clk (H := Examples.cfg) 0 1 "osc" 25000000 true
           Examples.chain Examples.chain_x2).
  - reflexivity.
  - vm_compute. lia.
  - unfold is_uint32, UINT32_MAX. lia.
Defined.

Lemma with_inputs_id c n : n = input_count c -> with_inputs n (input c) c = c.
Proof. intros ->. by destruct c. Qed.

Lemma with_outputs_id c : with_outputs (output_count c) (output c) c = c.
Proof. by destruct c. Qed.

(** The loop of [clktree_create_clk] over input clocks other than the node
    itself. *)
Lemma create_clk_links_spec `{ClkConfig} clk ins :
  forall s s' c, clktree_create_clk_links clk ins s = Ok (tt, s') ->
    heap s !! clk = Some c -> clk ∉ ins ->
    trace s' = trace s /\
    length (heap s') = length (heap s) /\
    (exists c', heap s' !! clk = Some c' /\
       c' = with_inputs (input_count c + length ins) (input c') c /\
       length (input c') = length (input c) /\
       (ins <> [] -> (input_count c + length ins <= length (input c))%nat) /\
       (forall i, (i < input_count c)%nat -> input c' !! i = input c !! i) /\
       (forall i p, ins !! i = Some p ->
                    input c' !! (input_count c + i)%nat = Some (Some p))) /\
    (forall p, p ∈ ins -> mirrored (heap s') clk p) /\
    (forall y cy, y <> clk -> heap s !! y = Some cy ->
       exists cy', heap s' !! y = Some cy' /\
         cy' = with_outputs (output_count cy') (output cy') cy /\
         length (output cy') = length (output cy) /\
         (output_count cy <= output_count cy')%nat /\
         ((output_count cy <= length (output cy))%nat ->
          (output_count cy' <= length (output cy'))%nat) /\
         (forall i, (i < output_count cy)%nat ->
                    output cy' !! i = output cy !! i) /\
         (forall i, (output_count cy <= i < output_count cy')%nat ->
                    output cy' !! i = Some (Some clk)) /\
         (y ∉ ins -> cy' = cy)).
Proof.
  induction ins as [|p rest IH]; intros s s' c Hrun Hc Hnotin.
  { injection Hrun as <-. split; [done|]. split; [done|]. split; [|split].
    - exists c. split; [done|]. split.
      { symmetry. apply with_inputs_id. simpl. lia. }
      split; [done|]. split; [done|]. split; [done|]. intros i p Hi. done.
    - intros p Hp. by apply elem_of_nil in Hp.
    - intros y cy _ Hy. exists cy. split; [done|]. split.
      { symmetry. apply with_outputs_id. }
      do 4 (split; [done|]). split; [|done]. intros i Hi. lia. }
  apply not_elem_of_cons in Hnotin as [Hclkp Hnotin].
  assert (Hpclk : p <> clk) by congruence.
  simpl in Hrun.
  apply bind_Ok in Hrun as (c0 & s0 & [Hc0 ->]%load_Ok & Hrun).
  rewrite Hc in Hc0. injection Hc0 as <-.
  apply bind_Ok in Hrun as (r & sa & Hadd & Hrun).
  assert (Hroom : (input_count c < length (input c))%nat).
  { unfold CLKTREE_ADD_LINK in Hadd.
    apply bind_Ok in Hadd as ([] & sb & _ & Hadd).
    by apply bind_Ok in Hadd as (a' & sc & (Hroom & _ & _)%array_set_Ok & _). }
  apply ADD_LINK_Ok in Hadd as (_ & -> & ->).
  apply bind_Ok in Hrun as ([] & s1 & [_ ->]%store_Ok & Hrun).
  apply bind_Ok in Hrun as (pc & s2 & [Hpc ->]%load_Ok & Hrun).
  apply bind_Ok in Hrun as (r' & sa & Hadd & Hrun).
  assert (Hroomp : (output_count pc < length (output pc))%nat).
  { unfold CLKTREE_ADD_LINK in Hadd.
    apply bind_Ok in Hadd as ([] & sb & _ & Hadd).
    by apply bind_Ok in Hadd as (a' & sc & (Hroomp & _ & _)%array_set_Ok & _). }
  apply ADD_LINK_Ok in Hadd as (_ & -> & ->).
  apply bind_Ok in Hrun as ([] & s3 & [_ ->]%store_Ok & Hrun).
  simpl in Hpc, Hrun.
  rewrite list_lookup_insert_ne in Hpc by done.
  set (n := input_count c) in *. set (k := output_count pc) in *.
  set (c1 := with_inputs (S n) (<[n := Some p]> (input c)) c) in *.
  set (pc1 := with_outputs (S k) (<[k := Some clk]> (output pc)) pc) in *.
  set (s1 := mkState (<[p := pc1]> (<[clk := c1]> (heap s))) (trace s)) in *.
  assert (Hc1 : heap s1 !! clk = Some c1).
  { simpl. rewrite list_lookup_insert_ne by done. insert_eq. }
  assert (Hp1 : heap s1 !! p = Some pc1).
  { simpl. apply list_lookup_insert_eq. rewrite length_insert.
    by eapply lookup_lt_Some. }
  destruct (IH s1 s' c1 Hrun Hc1 Hnotin)
    as (Htr & Hlen & (c' & Hc' & Ec' & Hlenin & Hcap & Hold & Hnew)
        & Hmir & Hoth).
  split; [done|]. split.
  { rewrite Hlen. simpl. by rewrite !length_insert. }
  split; [|split].
  - exists c'. split; [done|]. split.
    { rewrite Ec'. simpl. unfold with_inputs. simpl. f_equal. lia. }
    split.
    { rewrite Hlenin. simpl. by rewrite length_insert. }
    split.
    { intros _. destruct rest as [|q rest]; [simpl; lia|].
      specialize (Hcap ltac:(done)). simpl in Hcap.
      rewrite length_insert in Hcap. simpl. lia. }
    split.
    + intros i Hi. rewrite Hold by (simpl; lia). simpl.
      apply list_lookup_insert_ne. lia.
    + intros [|i] q Hq; simpl in Hq.
      * injection Hq as <-. rewrite Nat.add_0_r, Hold by (simpl; lia).
        simpl. by apply list_lookup_insert_eq.
      * replace (n + S i)%nat with (input_count c1 + i)%nat by (simpl; lia).
        by apply Hnew.
  - intros q Hq. apply elem_of_cons in Hq as [->|Hq]; [|by apply Hmir].
    destruct (decide (p ∈ rest)) as [Hin|Hnin]; [by apply Hmir|].
    destruct (Hoth p pc1 Hpclk Hp1)
      as (pc' & Hpc' & _ & _ & _ & _ & _ & _ & Heq).
    rewrite (Heq Hnin) in Hpc'.
    exists pc1, k. split; [done|]. simpl. split; [lia|].
    by apply list_lookup_insert_eq.
  - intros y cy Hy Hcy. destruct (decide (y = p)) as [->|Hyp].
    + rewrite Hpc in Hcy. injection Hcy as <-.
      destruct (Hoth p pc1 Hpclk Hp1)
        as (pc' & Hpc' & E & Hlo & Hcnt & Hle & Holdo & Hnewo & _).
      simpl in Hcnt, Hle, Holdo, Hnewo. rewrite length_insert in Hle.
      exists pc'. split; [done|]. split; [by rewrite E|].
      split; [rewrite Hlo; simpl; by rewrite length_insert|].
      split; [lia|]. split; [intros _; apply Hle; lia|]. split; [|split].
      * intros i Hi. rewrite Holdo by lia.
        apply list_lookup_insert_ne. fold k in Hi. lia.
      * intros i Hi. fold k in Hi. destruct (decide (i = k)) as [->|Hik].
        -- rewrite Holdo by lia. by apply list_lookup_insert_eq.
        -- apply Hnewo. lia.
      * intros Hnin. exfalso. apply Hnin. apply elem_of_cons. by left.
    + assert (Hy1 : heap s1 !! y = Some cy).
      { simpl. by rewrite !list_lookup_insert_ne. }
      destruct (Hoth y cy Hy Hy1)
        as (cy' & Hcy' & E & Hlo & Hcnt & Hle & Holdo & Hnewo & Heq).
      exists cy'. do 7 (split; [done|]).
      intros Hnin. apply Heq. intros Hin. apply Hnin.
      apply elem_of_cons. by right.
Qed.

(** The loop returns when there is room for every link. *)
Lemma create_clk_links_returns `{ClkConfig} clk ins :
  forall s c, heap s !! clk = Some c -> clk ∉ ins ->
    (input_count c + length ins <= CLKTREE_MAX_INPUT)%nat ->
    (input_count c + length ins <= length (input c))%nat ->
    (forall p, p ∈ ins -> exists pc, heap s !! p = Some pc /\
       (output_count pc + length ins <= CLKTREE_MAX_OUTPUT)%nat /\
       (output_count pc + length ins <= length (output pc))%nat) ->
    exists s', clktree_create_clk_links clk ins s = Ok (tt, s').
Proof.
  induction ins as [|p rest IH]; intros s c Hc Hnotin Hmax Hlen Hroom.
  { by exists s. }
  apply not_elem_of_cons in Hnotin as [Hclkp Hnotin].
  assert (Hpclk : p <> clk) by congruence.
  destruct (Hroom p) as (pc & Hpc & Hpmax & Hplen);
    [apply elem_of_cons; by left|].
  simpl in Hmax, Hlen, Hpmax, Hplen. cbn [clktree_create_clk_links].
  rewrite (bind_run _ _ _ _ _ (load_run _ _ _ Hc)).
  assert (Hadd : forall st, CLKTREE_ADD_LINK (input c) (input_count c) (Some p)
            CLKTREE_MAX_INPUT st
          = Ok ((<[input_count c := Some p]> (input c), S (input_count c)), st)).
  { intros st. unfold CLKTREE_ADD_LINK, assert.
    rewrite (proj2 (Nat.leb_le _ _)) by lia.
    rewrite (bind_run _ _ _ _ _ eq_refl).
    assert (Hin : (input_count c < length (input c))%nat) by lia.
    by rewrite (bind_run _ _ _ _ _ (array_set_run _ _ (Some p) st Hin)). }
  rewrite (bind_run _ _ _ _ _ (Hadd s)).
  rewrite (bind_run _ _ _ _ _ (store_run _ _ _ _ Hc)). cbn [fst snd].
  set (c1 := with_inputs _ _ c).
  set (s1 := mkState (<[clk := c1]> (heap s)) (trace s)).
  assert (Hpc1 : heap s1 !! p = Some pc).
  { simpl. by rewrite list_lookup_insert_ne. }
  rewrite (bind_run _ _ _ _ _ (load_run _ _ _ Hpc1)).
  assert (Haddp : forall st, CLKTREE_ADD_LINK (output pc) (output_count pc)
            (Some clk) CLKTREE_MAX_OUTPUT st
          = Ok ((<[output_count pc := Some clk]> (output pc),
                 S (output_count pc)), st)).
  { intros st. unfold CLKTREE_ADD_LINK, assert.
    rewrite (proj2 (Nat.leb_le _ _)) by lia.
    rewrite (bind_run _ _ _ _ _ eq_refl).
    assert (Hin : (output_count pc < length (output pc))%nat) by lia.
    by rewrite (bind_run _ _ _ _ _ (array_set_run _ _ (Some clk) st Hin)). }
  rewrite (bind_run _ _ _ _ _ (Haddp s1)).
  rewrite (bind_run _ _ _ _ _ (store_run _ _ _ _ Hpc1)). cbn [fst snd].
  set (pc1 := with_outputs _ _ pc).
  apply (IH _ c1).
  - simpl. rewrite list_lookup_insert_ne by done. insert_eq.
  - done.
  - simpl. lia.
  - simpl. rewrite length_insert. lia.
  - intros q Hq. destruct (decide (q = p)) as [->|Hqp].
    + exists pc1. split.
      { simpl. apply list_lookup_insert_eq. rewrite length_insert.
        by eapply lookup_lt_Some. }
      simpl. rewrite length_insert. lia.
    + destruct (Hroom q) as (qc & Hqc & Hqmax & Hqlen);
        [apply elem_of_cons; by right|].
      simpl in Hqmax, Hqlen.
      assert (Hqclk : q <> clk) by (intros ->; done).
      exists qc. split; [|lia].
      simpl. by rewrite !list_lookup_insert_ne.
Qed.

(** X17.  The loop of [clktree_create_clk] over input clocks other than the
    node itself, when it returns: the effects are as they were; the node
    has the input clocks appended to its candidate inputs, in the order
    given, after the entries it had, and nothing else of it has changed;
    each input clock holds the node among its live fan-out entries; the
    other structs differ from what they were in their fan-out only, where
    the node has been appended after the live entries, and the structs
    that are not among the input clocks are untouched. *)
Theorem X17_input_links `{ClkConfig} clk ins s s' c :
  clktree_create_clk_links clk ins s = Ok (tt, s') ->
  heap s !! clk = Some c -> clk ∉ ins ->
  trace s' = trace s /\
  (exists c', heap s' !! clk = Some c' /\
     c' = with_inputs (input_count c + length ins) (input c') c /\
     (forall i, (i < input_count c)%nat -> input c' !! i = input c !! i) /\
     (forall i p, ins !! i = Some p ->
                  input c' !! (input_count c + i)%nat = Some (Some p))) /\
  (forall p, p ∈ ins -> mirrored (heap s') clk p) /\
  (forall y cy, y <> clk -> heap s !! y = Some cy ->
     exists cy', heap s' !! y = Some cy' /\
       cy' = with_outputs (output_count cy') (output cy') cy /\
       (forall i, (i < output_count cy)%nat ->
                  output cy' !! i = output cy !! i) /\
       (forall i, (output_count cy <= i < output_count cy')%nat ->
                  output cy' !! i = Some (Some clk)) /\
       (y ∉ ins -> cy' = cy)).
Proof.
  intros Hrun Hc Hnotin.
  destruct (create_clk_links_spec clk ins s s' c Hrun Hc Hnotin)
    as (Htr & _ & (c' & Hc' & Ec' & _ & _ & Hold & Hnew) & Hmir & Hoth).
  split; [done|]. split; [by exists c'|]. split; [done|].
  intros y cy Hy Hcy.
  destruct (Hoth y cy Hy Hcy) as (cy' & Hcy' & E & _ & _ & _ & Ho & Hn & Heq).
  by exists cy'.
Qed.

Lemma X17_input_links_witness :
  trace (Examples.after (clktree_create_clk_links (H := Examples.cfg) 2 [0%nat])
                        Examples.chain)
  = trace Examples.chain.
Proof.
  apply (X17_input_links (H := Examples.cfg) 2 [0%nat] Examples.chain
           _ Examples.chain_div2).
  - vm_compute. reflexivity.
  - reflexivity.
  - intros Hin. apply elem_of_cons in Hin as [Hin|Hin]; [discriminate|].
    by apply elem_of_nil in Hin.
Defined.

(** ** The creation routines establish the invariant of the memory *)

Lemma prefix_lookup k s a c :
  heap (prefix k s) !! a = Some c <-> heap s !! a = Some c /\ (a < k)%nat.
Proof. apply lookup_take_Some. Qed.

Lemma wiring_prefix_lookup k s a w :
  wiring (prefix k s) !! a = Some w <->
  exists c, heap s !! a = Some c /\ (a < k)%nat /\ w = static c.
Proof.
  split.
  - intros (c & [Hc Ha]%prefix_lookup & ->)%wiring_lookup_inv. eauto.
  - intros (c & Hc & Ha & ->). apply wiring_lookup. by apply prefix_lookup.
Qed.

(** [clktree_set_selected_input] on a node without observers and without
    children. *)
Lemma set_selected_input_leaf fuel k sel s c v :
  heap s !! k = Some c ->
  user_count c = 0%nat -> output_count c = 0%nat -> divisor c <> 0 ->
  -1 <= sel < Z.of_nat (input_count c) - 1 ->
  Z.of_nat (input_count c) <= INT_MAX ->
  (sel = -1 /\ v = 0) \/
  (0 <= sel /\ exists p pc,
     input c !! Z.to_nat (sel + 1) = Some (Some p) /\
     heap s !! p = Some pc /\ v = output_freq pc) ->
  exists new tr,
    new_output_freq_of (with_input_freq v (with_selected_input sel c))
    = Ok new /\
    clktree_set_selected_input (S fuel) k sel s
    = Ok (tt, mkState
                (<[k := with_output_freq new
                          (with_input_freq v (with_selected_input sel c))]>
                   (heap s))
                (trace s ++ tr)).
Proof.
  intros Hc Hu Ho Hd Hsel Hint Hv.
  set (c4 := with_input_freq v (with_selected_input sel c)).
  assert (Hw : written (Select_input sel) (heap s) c = Ok c4).
  { unfold written.
    rewrite (proj2 (select_cond sel (Z.of_nat (input_count c))
                      ltac:(unfold is_int, INT_MIN, INT_MAX in *; lia)
                      ltac:(lia))) by done.
    destruct Hv as [[-> ->]|(Hpos & p & pc & Hp & Hpc & ->)]; [done|].
    rewrite (proj2 (Z.gtb_gt _ _)) by lia.
    unfold clktree_get_input_clk. simpl.
    rewrite int32_small by (unfold INT_MIN, INT_MAX in *; lia).
    rewrite (proj2 (Z.ltb_ge _ _)) by lia. by rewrite Hp, Hpc. }
  pose proof (mutate_runtime (H := Build_ClkConfig 0 0 0 0) (S fuel) k
                (Select_input sel) s c eq_refl Hc) as Hrun.
  rewrite Hw in Hrun. cbn [mutate] in Hrun. rewrite Hrun.
  set (s3 := mkState (<[k := c4]> (heap s)) (trace s)).
  assert (Hc4 : heap s3 !! k = Some c4) by (simpl; insert_eq).
  assert (Hnew : exists new, new_output_freq_of c4 = Ok new).
  { destruct (enabled c4) eqn:He.
    - eexists. apply new_output_freq_of_Ok. right. eauto.
    - exists 0. apply new_output_freq_of_Ok. left. eauto. }
  destruct Hnew as [new Hnew]. exists new.
  destruct (decide (new = output_freq c4)) as [E|E].
  - exists []. split; [done|].
    rewrite (recalc_S_same fuel k s3 c4 Hc4) by (by rewrite Hnew, E).
    unfold s3. rewrite app_nil_r. do 4 f_equal. rewrite E. by destruct c4.
  - exists (change_events k c4 new). split; [done|].
    rewrite (recalc_S_change fuel k s3 c4 new Hc4 Hnew E)
      by (simpl; rewrite ?Hu, ?Ho; lia).
    simpl output_count. rewrite Ho. simpl.
    unfold changed_state, ret. simpl. by rewrite list_insert_insert_eq.
Qed.

Lemma with_outputs_fields n o c c' :
  c' = with_outputs n o c ->
  enabled c' = enabled c /\ input_freq c' = input_freq c /\
  output_freq c' = output_freq c /\ multiplier c' = multiplier c /\
  divisor c' = divisor c /\ user_count c' = user_count c /\
  user c' = user c /\ input_count c' = input_count c /\
  input c' = input c /\ selected_input c' = selected_input c.
Proof. intros ->. repeat split. Qed.

(** The nodes created so far stay well wired and settled when fan-out
    entries for a new node [k] are appended after their live ones. *)
Lemma prefix_grow h k s s' :
  heap_wf h (wiring (prefix k s)) -> settled (heap (prefix k s)) ->
  length (heap s') = length (heap s) -> (k < length (heap s))%nat ->
  (forall a ca, (a < k)%nat -> heap s !! a = Some ca ->
     exists ca', heap s' !! a = Some ca' /\
       ca' = with_outputs (output_count ca') (output ca') ca /\
       (output_count ca <= output_count ca')%nat /\
       ((output_count ca <= length (output ca))%nat ->
        (output_count ca' <= length (output ca'))%nat) /\
       (forall i, (i < output_count ca)%nat ->
                  output ca' !! i = output ca !! i) /\
       (forall i, (output_count ca <= i < output_count ca')%nat ->
                  output ca' !! i = Some (Some k))) ->
  forall a ca', (a < k)%nat -> heap s' !! a = Some ca' ->
    node_wf h (wiring (prefix (S k) s')) a (static ca') /\
    linked (heap (prefix (S k) s')) ca' /\ clk_ok ca'.
Proof.
  intros Hwf Hset Hlen Hk Hgrow a ca' Ha Hca'.
  destruct (lookup_lt_is_Some_2 (heap s) a) as [ca Hca]; [lia|].
  destruct (Hgrow a ca Ha Hca) as (ca'' & Hca'' & E & Hcnt & Hle & Hold & Hnew).
  rewrite Hca' in Hca''. injection Hca'' as <-.
  destruct (with_outputs_fields _ _ _ _ E)
    as (Een & Ein & Eout & Em & Ed & Euc & Eu & Eic & Ei & Esel).
  assert (Hwa : wiring (prefix k s) !! a = Some (static ca)).
  { apply wiring_prefix_lookup. eauto. }
  destruct (Hwf _ _ Hwa) as [H1 H2 H3 H4 H5 H6 H7 H8 H9]. simpl in *.
  destruct (Hset a ca) as [Hl Hok]; [by apply prefix_lookup|].
  assert (HlenW : length (wiring (prefix (S k) s')) = S k).
  { unfold wiring, prefix. simpl. rewrite length_fmap, length_take. lia. }
  assert (HlenW0 : (length (wiring (prefix k s)) <= k)%nat).
  { unfold wiring, prefix. simpl. rewrite length_fmap, length_take. lia. }
  assert (Hmir : forall q, mirrored (wiring (prefix k s)) a q ->
            (q < k)%nat /\ mirrored (wiring (prefix (S k) s')) a q /\
            exists qc qc', heap s !! q = Some qc /\ heap s' !! q = Some qc' /\
                           output_freq qc' = output_freq qc).
  { intros q (qw & j & Hq & Hj & Hqj).
    apply wiring_prefix_lookup in Hq as (qc & Hqc & Hqk & ->). simpl in *.
    destruct (Hgrow q qc Hqk Hqc) as (qc' & Hqc' & Eq & Hcq & _ & Holdq & _).
    split; [done|]. split.
    - exists (static qc'), j. split.
      { apply wiring_prefix_lookup. exists qc'. split; [done|]. split; [lia|done]. }
      simpl. split; [lia|]. by rewrite Holdq.
    - exists qc, qc'. do 2 (split; [done|]).
      by destruct (with_outputs_fields _ _ _ _ Eq) as (_ & _ & ? & _). }
  split; [|split].
  - split; simpl; rewrite ?Ed, ?Euc, ?Eu, ?Eic, ?Ei, ?Esel; try done.
    + by apply Hle.
    + intros i Hi. rewrite HlenW.
      destruct (decide (i < output_count ca)%nat) as [Hlt|Hge].
      * destruct (H4 i Hlt) as (n & Hn & Hnk). exists n.
        rewrite Hold by done. split; [done|lia].
      * exists k. split; [apply Hnew; lia | lia].
    + intros i Hi. destruct (H8 i Hi) as (q & Hq & Hh & Hm).
      exists q. split; [done|]. split; [done|]. by apply Hmir.
  - intros p pc' Hg [Hp Hpk]%prefix_lookup.
    assert (Hg' : clktree_get_input_clk ca = Ok (Some p)).
    { unfold clktree_get_input_clk in *. by rewrite Esel, Ei in Hg. }
    destruct (wf_get_input _ _ _ _ Hwf Hwa) as [[_ Hn]|(q & _ & Hq & _ & Hm)];
      rewrite get_input_clk_static in *; [congruence|].
    rewrite Hg' in Hq. injection Hq as <-.
    destruct (Hmir p Hm) as (Hpk' & _ & qc & qc' & Hqc & Hqc' & Eo).
    rewrite Hp in Hqc'. injection Hqc' as <-.
    rewrite Ein, Eo. apply (Hl p); [done|]. by apply prefix_lookup.
  - unfold clk_ok, new_output_freq_of in *.
    by rewrite Een, Ein, Em, Ed, Eout.
Qed.

Lemma with_inputs_fields n i c c' :
  c' = with_inputs n i c ->
  enabled c' = enabled c /\ input_freq c' = input_freq c /\
  output_freq c' = output_freq c /\ multiplier c' = multiplier c /\
  divisor c' = divisor c /\ user_count c' = user_count c /\
  user c' = user c /\ output_count c' = output_count c /\
  output c' = output c /\ input_count c' = n /\
  selected_input c' = selected_input c.
Proof. intros ->. repeat split. Qed.

(** X18.  [clktree_create_clk] establishes the invariant of the memory for
    the node it creates.  In a memory whose first [k] structs are well
    wired and settled, creating struct [k] with a non-zero divisor, input
    clocks among the first [k] structs (higher in the tree), a selection
    that is -1 or the position of one of them, and room for every link,
    returns, and the first [k + 1] structs are then well wired and settled;
    the structs after [k] are untouched. *)
Theorem X18_create_clk_invariant `{ClkConfig} h fuel k nm m d en mx sel ins s c :
  heap s !! k = Some c ->
  heap_wf h (wiring (prefix k s)) -> settled (heap (prefix k s)) ->
  d <> 0 ->
  -1 <= sel < Z.of_nat (length ins) ->
  (1 + length ins <= CLKTREE_MAX_INPUT)%nat ->
  (1 + length ins <= length (input c))%nat ->
  Z.of_nat (1 + length ins) <= INT_MAX ->
  (forall p, p ∈ ins -> (p < k)%nat /\ (h k < h p)%nat) ->
  (forall p pc, p ∈ ins -> heap s !! p = Some pc ->
     (output_count pc + length ins <= CLKTREE_MAX_OUTPUT)%nat /\
     (output_count pc + length ins <= length (output pc))%nat) ->
  exists s',
    clktree_create_clk (S fuel) k nm m d en mx sel ins s = Ok (tt, s') /\
    heap_wf h (wiring (prefix (S k) s')) /\
    settled (heap (prefix (S k) s')) /\
    (forall y, (k < y)%nat -> heap s' !! y = heap s !! y).
Proof.
  intros Hc Hwf Hset Hd Hsel Hmax Hlen Hint Hins Hroom.
  assert (Hk : (k < length (heap s))%nat) by (by eapply lookup_lt_Some).
  assert (Hnotin : k ∉ ins).
  { intros Hin. destruct (Hins k Hin). lia. }
  assert (Hlen0 : (0 < length (input c))%nat) by lia.
  unfold clktree_create_clk.
  rewrite (bind_run _ _ _ _ _ (create_generic_run k nm m d en s c Hc Hlen0)).
  set (g := mkClk nm en 0 0 _ m d _ _ _ _ _ _ _ _).
  set (s1 := mkState (<[k := g]> (heap s)) (trace s)).
  assert (Hg : heap s1 !! k = Some g) by (simpl; insert_eq).
  assert (Hs1 : forall a, a <> k -> heap s1 !! a = heap s !! a).
  { intros a Ha. simpl. by apply list_lookup_insert_ne. }
  destruct (create_clk_links_returns k ins s1 g Hg Hnotin) as [s2 Hlinks].
  { simpl. lia. }
  { simpl. rewrite length_insert. lia. }
  { intros p Hp. destruct (Hins p Hp) as [Hpk _].
    destruct (lookup_lt_is_Some_2 (heap s) p) as [pc Hpc]; [lia|].
    exists pc. split; [rewrite Hs1 by lia; done|]. by apply (Hroom p). }
  rewrite (bind_run _ _ _ _ _ Hlinks).
  destruct (create_clk_links_spec k ins s1 s2 g Hlinks Hg Hnotin)
    as (Htr & Hlen2 & (c2 & Hc2 & Ec2 & Hlenin & _ & Hold & Hnew) & Hmir & Hoth).
  unfold s1, g in Hlen2, Hlenin, Hold, Hnew.
  cbn [heap input input_count] in Hlen2, Hlenin, Hold, Hnew.
  rewrite length_insert in Hlen2. rewrite length_insert in Hlenin.
  destruct (with_inputs_fields _ _ _ _ Ec2)
    as (Een & Ein & Eout & Em & Ed & Euc & Eu & Eoc & Eo & Eic & Esel).
  unfold g in Een, Ein, Eout, Em, Ed, Euc, Eu, Eoc, Eo, Eic, Esel.
  simpl in Een, Ein, Eout, Em, Ed, Euc, Eu, Eoc, Eo, Eic, Esel.
  assert (Hin0 : input c2 !! 0%nat = Some None).
  { rewrite Hold by lia. by apply list_lookup_insert_eq. }
  assert (Hv : exists v,
    (sel = -1 /\ v = 0) \/
    (0 <= sel /\ exists p pc, p ∈ ins /\
       input c2 !! Z.to_nat (sel + 1) = Some (Some p) /\
       heap s2 !! p = Some pc /\ v = output_freq pc)).
  { destruct (decide (sel = -1)) as [->|Hne]; [exists 0; by left|].
    destruct (lookup_lt_is_Some_2 ins (Z.to_nat sel)) as [p Hp]; [lia|].
    assert (Hpin : p ∈ ins) by (apply list_elem_of_lookup; eauto).
    destruct (Hins p Hpin) as [Hpk _].
    destruct (lookup_lt_is_Some_2 (heap s2) p) as [pc Hpc]; [lia|].
    exists (output_freq pc). right. split; [lia|]. exists p, pc.
    split; [done|]. split; [|done].
    replace (Z.to_nat (sel + 1)) with (1 + Z.to_nat sel)%nat by lia.
    by apply Hnew. }
  destruct Hv as [v Hv].
  destruct (set_selected_input_leaf fuel k sel s2 c2 v Hc2)
    as (new & tr & Hnew' & Hrun); try done.
  { by rewrite Ed. }
  { rewrite Eic. lia. }
  { rewrite Eic. lia. }
  { destruct Hv as [Hv|(Hpos & p & pc & _ & Hp & Hpc & ->)]; [by left|right].
    split; [done|]. by exists p, pc. }
  rewrite Hrun. eexists. split; [reflexivity|].
  set (c4 := with_input_freq v (with_selected_input sel c2)) in *.
  set (ck := with_output_freq new c4).
  set (s' := mkState (<[k := ck]> (heap s2)) (trace s2 ++ tr)).
  assert (Hk' : heap s' !! k = Some ck) by (simpl; insert_eq).
  assert (Hne' : forall a, a <> k -> heap s' !! a = heap s2 !! a).
  { intros a Ha. simpl. by apply list_lookup_insert_ne. }
  assert (Hlen' : length (heap s') = length (heap s)).
  { simpl. rewrite length_insert. lia. }
  assert (Hgrow : forall a ca, (a < k)%nat -> heap s !! a = Some ca ->
     exists ca', heap s' !! a = Some ca' /\
       ca' = with_outputs (output_count ca') (output ca') ca /\
       (output_count ca <= output_count ca')%nat /\
       ((output_count ca <= length (output ca))%nat ->
        (output_count ca' <= length (output ca'))%nat) /\
       (forall i, (i < output_count ca)%nat ->
                  output ca' !! i = output ca !! i) /\
       (forall i, (output_count ca <= i < output_count ca')%nat ->
                  output ca' !! i = Some (Some k))).
  { intros a ca Ha Hca.
    destruct (Hoth a ca) as (ca' & Hca' & E & _ & Hcnt & Hle & Ho & Hn & _);
      [lia | by rewrite Hs1 by lia|].
    exists ca'. rewrite Hne' by lia. done. }
  pose proof (prefix_grow h k s s' Hwf Hset Hlen' Hk Hgrow) as Hpre.
  split; [|split].
  - intros a w (ca' & Hca' & Ha & ->)%wiring_prefix_lookup.
    destruct (decide (a = k)) as [->|Hak]; [|by apply Hpre; [lia|]].
    rewrite Hk' in Hca'. injection Hca' as <-.
    split; simpl; rewrite ?Ed, ?Euc, ?Eoc, ?Eic; try done; try lia.
    + intros i Hi.
      destruct (lookup_lt_is_Some_2 ins (i - 1)) as [p Hp]; [lia|].
      assert (Hpin : p ∈ ins) by (apply list_elem_of_lookup; eauto).
      destruct (Hins p Hpin) as [Hpk Hh].
      exists p. split; [|split; [done|]].
      * replace i with (1 + (i - 1))%nat by lia. by apply Hnew.
      * destruct (Hmir p Hpin) as (qc & j & Hq & Hj & Hqj).
        exists (static qc), j. split; [|done].
        apply wiring_prefix_lookup. exists qc.
        split; [by rewrite Hne' by lia|]. split; [lia|done].
  - intros a ca' [Hca' Ha]%prefix_lookup.
    destruct (decide (a = k)) as [->|Hak].
    + rewrite Hk' in Hca'. injection Hca' as <-. split; [|exact Hnew'].
      intros p pc' Hg' [Hp Hpk]%prefix_lookup.
      unfold clktree_get_input_clk in Hg'. simpl in Hg'.
      rewrite int32_small in Hg' by (unfold INT_MIN, INT_MAX in *; lia).
      rewrite (proj2 (Z.ltb_ge _ _)) in Hg' by lia.
      destruct Hv as [[-> ->]|(Hpos & p0 & pc0 & Hpin & Hp0 & Hpc0 & ->)].
      * change (Z.to_nat (-1 + 1)) with 0%nat in Hg'.
        rewrite Hin0 in Hg'. discriminate.
      * rewrite Hp0 in Hg'. injection Hg' as <-.
        destruct (Hins p0 Hpin) as [Hpk0 _].
        rewrite Hne' in Hp by lia. rewrite Hpc0 in Hp. by injection Hp as <-.
    + destruct (Hpre a ca') as (_ & Hl & Hok); [lia|done|done].
  - intros y Hy. rewrite Hne' by lia.
    destruct (heap s !! y) as [cy|] eqn:E.
    + destruct (Hoth y cy) as (cy' & Hcy' & _ & _ & _ & _ & _ & _ & Heq);
        [lia | by rewrite Hs1 by lia|].
      rewrite Hcy', Heq; [done|].
      intros Hin. destruct (Hins y Hin). lia.
    + apply lookup_ge_None. apply lookup_ge_None in E. lia.
Qed.

Lemma X18_create_clk_invariant_witness :
  exists s',
    clktree_create_clk (H := Examples.cfg) 8 2 "div2" 1 2 true UINT32_MAX 0
                       [1%nat] two_created = Ok (tt, s') /\
    heap_wf Examples.height (wiring (prefix 3 s')) /\
    settled (heap (prefix 3 s')) /\
    (forall y, (2 < y)%nat -> heap s' !! y = heap two_created !! y).
Proof.
  apply (X18_create_clk_invariant (H := Examples.cfg) Examples.height 7 2
           "div2" 1 2 true UINT32_MAX 0 [1%nat] two_created
           Examples.zero_clk).
  - reflexivity.
  - apply heap_wfb_spec. vm_compute. reflexivity.
  - apply settledb_spec. vm_compute. reflexivity.
  - lia.
  - simpl. lia.
  - vm_compute. lia.
  - vm_compute. lia.
  - vm_compute. discriminate.
  - intros p Hp. apply elem_of_cons in Hp as [->|Hp];
      [vm_compute; lia | by apply elem_of_nil in Hp].
  - intros p pc Hp Hpc. apply elem_of_cons in Hp as [->|Hp];
      [|by apply elem_of_nil in Hp].
    vm_compute in Hpc. injection Hpc as <-. vm_compute. lia.
Defined.

(** X19.  [clktree_create_src_clk] establishes the invariant of the memory
    for the node it creates.  In a memory whose first [k] structs are well
    wired and settled, creating struct [k] as a source with a 32-bit
    frequency returns, and the first [k + 1] structs are then well wired
    and settled; the structs after [k] are untouched. *)
Theorem X19_create_src_clk_invariant `{ClkConfig} h fuel k nm src_freq en s c :
  heap s !! k = Some c ->
  heap_wf h (wiring (prefix k s)) -> settled (heap (prefix k s)) ->
  (0 < length (input c))%nat -> is_uint32 src_freq ->
  exists s',
    clktree_create_src_clk (S fuel) k nm src_freq en s = Ok (tt, s') /\
    heap_wf h (wiring (prefix (S k) s')) /\
    settled (heap (prefix (S k) s')) /\
    (forall y, (k < y)%nat -> heap s' !! y = heap s !! y).
Proof.
  intros Hc Hwf Hset Hlen0 Hfreq.
  assert (Hk : (k < length (heap s))%nat) by (by eapply lookup_lt_Some).
  rewrite (create_src_clk_run fuel k nm src_freq en s c Hc Hlen0 Hfreq).
  eexists. split; [reflexivity|].
  set (ck := mkClk nm en src_freq _ _ _ _ _ _ _ _ _ _ _ _).
  set (s' := mkState (<[k := ck]> (heap s)) _).
  assert (Hk' : heap s' !! k = Some ck) by (simpl; insert_eq).
  assert (Hne' : forall a, a <> k -> heap s' !! a = heap s !! a).
  { intros a Ha. simpl. by apply list_lookup_insert_ne. }
  assert (Hlen' : length (heap s') = length (heap s)).
  { simpl. by rewrite length_insert. }
  assert (Hgrow : forall a ca, (a < k)%nat -> heap s !! a = Some ca ->
     exists ca', heap s' !! a = Some ca' /\
       ca' = with_outputs (output_count ca') (output ca') ca /\
       (output_count ca <= output_count ca')%nat /\
       ((output_count ca <= length (output ca))%nat ->
        (output_count ca' <= length (output ca'))%nat) /\
       (forall i, (i < output_count ca)%nat ->
                  output ca' !! i = output ca !! i) /\
       (forall i, (output_count ca <= i < output_count ca')%nat ->
                  output ca' !! i = Some (Some k))).
  { intros a ca Ha Hca. exists ca. rewrite Hne' by lia.
    split; [done|]. split; [by rewrite with_outputs_id|].
    do 3 (split; [done|]). intros i Hi. lia. }
  pose proof (prefix_grow h k s s' Hwf Hset Hlen' Hk Hgrow) as Hpre.
  split; [|split].
  - intros a w (ca' & Hca' & Ha & ->)%wiring_prefix_lookup.
    destruct (decide (a = k)) as [->|Hak]; [|by apply Hpre; [lia|]].
    rewrite Hk' in Hca'. injection Hca' as <-.
    split; simpl; try done; try lia.
    + by apply list_lookup_insert_eq.
    + rewrite length_insert. lia.
  - intros a ca' [Hca' Ha]%prefix_lookup.
    destruct (decide (a = k)) as [->|Hak].
    + rewrite Hk' in Hca'. injection Hca' as <-. split.
      * intros p pc' Hg' _. unfold clktree_get_input_clk in Hg'.
        simpl in Hg'. change (Z.to_nat (int32 (-1 + 1))) with 0%nat in Hg'.
        change (int32 (-1 + 1) <? 0) with false in Hg'. cbv iota in Hg'.
        rewrite list_lookup_insert_eq in Hg' by done. discriminate.
      * apply new_output_freq_of_Ok. simpl.
        unfold is_uint32, UINT32_MAX in Hfreq.
        destruct en; [right|left; done]. split; [done|]. split; [done|].
        rewrite Z.mul_1_r, Z.div_1_r, Z.mod_small; lia.
    + destruct (Hpre a ca') as (_ & Hl & Hok); [lia|done|done].
  - intros y Hy. apply Hne'. lia.
Qed.

Lemma X19_create_src_clk_invariant_witness :
  exists s',
    clktree_create_src_clk (H := Examples.cfg) 8 0 "src" 8000000 true
                           (Examples.zero_state 3) = Ok (tt, s') /\
    heap_wf Examples.height (wiring (prefix 1 s')) /\
    settled (heap (prefix 1 s')) /\
    (forall y, (0 < y)%nat ->
               heap s' !! y = heap (Examples.zero_state 3) !! y).
Proof.
  apply (X19_create_src_clk_invariant (H := Examples.cfg) Examples.height 7 0
           "src" 8000000 true (Examples.zero_state 3) Examples.zero_clk).
  - reflexivity.
  - apply heap_wfb_spec. vm_compute. reflexivity.
  - apply settledb_spec. vm_compute. reflexivity.
  - vm_compute. lia.
  - unfold is_uint32, UINT32_MAX. lia.
Defined.

(** ** Observers *)

Lemma heap_wf_insert_users h s x c n l tr :
  heap_wf h (wiring s) -> heap s !! x = Some c ->
  (n <= length l)%nat ->
  heap_wf h (wiring (mkState (<[x := with_users n l c]> (heap s)) tr)).
Proof.
  intros Hwf Hc Hn. set (c1 := with_users n l c).
  pose proof (wiring_lookup _ _ _ Hc) as Hwc.
  assert (HW : wiring (mkState (<[x := c1]> (heap s)) tr)
               = <[x := static c1]> (wiring s)).
  { unfold wiring. simpl. by rewrite list_fmap_insert. }
  rewrite HW.
  assert (Hmir : forall a q, mirrored (wiring s) a q ->
                             mirrored (<[x := static c1]> (wiring s)) a q).
  { intros a q (qc & i & Hq & Hlt & Hqi).
    destruct (decide (q = x)) as [->|Hqx].
    - rewrite Hwc in Hq. injection Hq as <-. simpl in *.
      exists (static c1), i. simpl. split; [|done]. insert_eq.
    - exists qc, i. by rewrite list_lookup_insert_ne. }
  assert (Hnode : forall a w, node_wf h (wiring s) a w ->
                    node_wf h (<[x := static c1]> (wiring s)) a w).
  { intros a w [H1 H2 H3 H4 H5 H6 H7 H8 H9]. split; try done.
    - intros i Hi'. destruct (H4 i Hi') as (n' & Hn' & Hlen).
      exists n'. by rewrite length_insert.
    - intros i Hi'. destruct (H8 i Hi') as (q & Hq & Hh & Hm).
      exists q. auto. }
  intros a w Ha. destruct (decide (a = x)) as [->|Hax].
  - rewrite list_lookup_insert_eq in Ha by (by eapply lookup_lt_Some).
    injection Ha as <-. apply Hnode.
    destruct (Hwf _ _ Hwc) as [H1 H2 H3 H4 H5 H6 H7 H8 H9]. simpl in *.
    split; simpl; done.
  - rewrite list_lookup_insert_ne in Ha by done. by apply Hnode, Hwf.
Qed.

(** X20.  [clktree_adduser] with room in the observer array registers the
    observer after the live ones and does nothing else: the call returns,
    produces no effect, and leaves a well-wired, settled memory well wired
    and settled; the live observers of the node are the former ones, in
    order, followed by the new one (the order in which a change of
    frequency notifies them), and the other structs are untouched. *)
Theorem X20_adduser `{ClkConfig} h x u s c :
  heap_wf h (wiring s) -> settled (heap s) -> heap s !! x = Some c ->
  (user_count c < CLKTREE_MAX_IRQ)%nat ->
  (user_count c < length (user c))%nat ->
  exists s1 c1, clktree_adduser x u s = Ok (tt, s1) /\
    heap s1 !! x = Some c1 /\
    heap_wf h (wiring s1) /\ settled (heap s1) /\ trace s1 = trace s /\
    take (user_count c1) (user c1) = take (user_count c) (user c) ++ [u] /\
    (forall y, y <> x -> heap s1 !! y = heap s !! y).
Proof.
  intros Hwf Hset Hc Hmax Hlen.
  set (c1 := with_users (S (user_count c)) (<[user_count c := u]> (user c)) c).
  exists (mkState (<[x := c1]> (heap s)) (trace s)), c1.
  split; [|split; [|split; [|split; [|split; [|split]]]]].
  - unfold clktree_adduser.
    rewrite (bind_run _ _ _ _ _ (load_run _ _ _ Hc)).
    assert (Hadd : CLKTREE_ADD_LINK (user c) (user_count c) u
                     CLKTREE_MAX_IRQ s
                   = Ok ((<[user_count c := u]> (user c), S (user_count c)), s)).
    { unfold CLKTREE_ADD_LINK, assert.
      rewrite (proj2 (Nat.leb_le _ _)) by lia.
      rewrite (bind_run _ _ _ _ _ eq_refl).
      by rewrite (bind_run _ _ _ _ _ (array_set_run _ _ u s Hlen)). }
    rewrite (bind_run _ _ _ _ _ Hadd). by apply store_run with (c0 := c).
  - simpl. insert_eq.
  - apply heap_wf_insert_users; [done|done|]. rewrite length_insert. lia.
  - intros a ca Ha. simpl in Ha.
    assert (Hout : forall p pc, <[x := c1]> (heap s) !! p = Some pc ->
              exists pc0, heap s !! p = Some pc0 /\
                          output_freq pc = output_freq pc0).
    { intros p pc Hp. destruct (decide (p = x)) as [->|Hpx].
      - rewrite list_lookup_insert_eq in Hp by (by eapply lookup_lt_Some).
        injection Hp as <-. eauto.
      - rewrite list_lookup_insert_ne in Hp by done. eauto. }
    assert (Hold : exists ca0, heap s !! a = Some ca0 /\
              input_freq ca = input_freq ca0 /\
              clktree_get_input_clk ca = clktree_get_input_clk ca0 /\
              new_output_freq_of ca = new_output_freq_of ca0 /\
              output_freq ca = output_freq ca0).
    { destruct (decide (a = x)) as [->|Hax].
      - rewrite list_lookup_insert_eq in Ha by (by eapply lookup_lt_Some).
        injection Ha as <-. exists c. done.
      - rewrite list_lookup_insert_ne in Ha by done. exists ca. done. }
    destruct Hold as (ca0 & Ha0 & Ein & Eg & En & Eo).
    destruct (Hset _ _ Ha0) as [Hl Hok]. split.
    + intros p pc Hp Hpc. destruct (Hout _ _ Hpc) as (pc0 & Hpc0 & ->).
      rewrite Ein. apply (Hl p); [by rewrite <- Eg | done].
    + unfold clk_ok in *. by rewrite En, Eo.
  - done.
  - simpl. rewrite (take_S_r _ _ u) by (by apply list_lookup_insert_eq).
    by rewrite take_insert_ge by lia.
  - intros y Hy. simpl. by apply list_lookup_insert_ne.
Qed.

Lemma X20_adduser_witness :
  exists s1 c1, clktree_adduser (H := Examples.cfg) 2 9%nat Examples.chain
                = Ok (tt, s1) /\
    heap s1 !! 2%nat = Some c1 /\
    heap_wf Examples.height (wiring s1) /\ settled (heap s1) /\
    trace s1 = trace Examples.chain /\
    take (user_count c1) (user c1)
    = take (user_count Examples.chain_div2) (user Examples.chain_div2)
      ++ [9%nat] /\
    (forall y, y <> 2%nat -> heap s1 !! y = heap Examples.chain !! y).
Proof.
  apply (X20_adduser (H := Examples.cfg) Examples.height 2 9%nat
           Examples.chain Examples.chain_div2).
  - apply heap_wfb_spec. vm_compute. reflexivity.
  - apply settledb_spec. vm_compute. reflexivity.
  - reflexivity.
  - vm_compute. lia.
  - vm_compute. lia.
Defined.

(** ** The query of the output frequency *)

(** X21.  [clktree_get_output_freq] returns the stored output frequency of
    the node, in the state it was called in; and in a settled memory the
    values it returns compose along a selection: what it returns for a node
    is what the node (its gate, then its ratio, in 32 bits) makes of what
    it returns for the node's selected input. *)
Theorem X21_get_output_freq s y cy :
  heap s !! y = Some cy ->
  clktree_get_output_freq y s = Ok (output_freq cy, s) /\
  forall p pc, settled (heap s) ->
    clktree_get_input_clk cy = Ok (Some p) -> heap s !! p = Some pc ->
    clktree_get_output_freq p s = Ok (output_freq pc, s) /\
    clktree_get_output_freq y s = Ok (clk_apply cy (output_freq pc), s).
Proof.
  intros Hy.
  assert (Hq : forall a ca, heap s !! a = Some ca ->
                 clktree_get_output_freq a s = Ok (output_freq ca, s)).
  { intros a ca Ha. unfold clktree_get_output_freq.
    by rewrite (bind_run _ _ _ _ _ (load_run _ _ _ Ha)). }
  split; [by apply Hq|]. intros p pc Hset Hg Hpc.
  split; [by apply Hq|]. rewrite (Hq _ _ Hy). do 2 f_equal.
  destruct (Hset _ _ Hy) as [Hl Hok].
  apply clk_ok_equation in Hok. unfold freq_equation in Hok.
  unfold clk_apply. by rewrite Hok, (Hl p pc Hg Hpc).
Qed.

Lemma X21_get_output_freq_witness :
  clktree_get_output_freq 2 Examples.chain
  = Ok (output_freq Examples.chain_div2, Examples.chain) /\
  forall p pc, settled (heap Examples.chain) ->
    clktree_get_input_clk Examples.chain_div2 = Ok (Some p) ->
    heap Examples.chain !! p = Some pc ->
    clktree_get_output_freq p Examples.chain
    = Ok (output_freq pc, Examples.chain) /\
    clktree_get_output_freq 2 Examples.chain
    = Ok (clk_apply Examples.chain_div2 (output_freq pc), Examples.chain).
Proof.
  apply (X21_get_output_freq Examples.chain 2 Examples.chain_div2).
  reflexivity.
Defined.

(** ** The invariant and the bound of the recursion *)

(** X22.  The invariant of the memory under the runtime mutations.  In a
    well-wired memory where every node satisfies the equation of the
    output frequency and has the output of its selected input as input,
    [clktree_set_scale] with a non-zero divisor, [clktree_set_enabled],
    [clktree_set_selected_input] with an index in range and
    [clktree_set_input_freq] (with the frequency of the selected input if
    there is one) return, given fuel above the height of the node, and
    leave a memory of the same kind; the wiring has changed in the mutated
    node only, which holds what the mutation wrote with the output
    frequency recomputed from it; and the nodes other than the mutated one
    whose selection is NULL are untouched. *)
Theorem X22_invariant `{ClkConfig} h fuel x mu s c :
  heap_wf h (wiring s) -> settled (heap s) -> heap s !! x = Some c ->
  mutation_pre mu (heap s) c -> (h x < fuel)%nat ->
  exists s' c1 new, mutate fuel x mu s = Ok (tt, s') /\
    heap_wf h (wiring s') /\ settled (heap s') /\
    written mu (heap s) c = Ok c1 /\ new_output_freq_of c1 = Ok new /\
    heap s' !! x = Some (with_output_freq new c1) /\
    wiring s' = <[x := static c1]> (wiring s) /\
    (forall a ca, a <> x -> heap s' !! a = Some ca ->
       clktree_get_input_clk ca = Ok None -> heap s !! a = Some ca).
Proof. apply mutate_settled_frame. Qed.

Lemma X22_invariant_witness :
  exists s' c1 new,
    mutate (H := Examples.cfg) 8 0 (Set_input_freq 16000000) Examples.chain
    = Ok (tt, s') /\
    heap_wf Examples.height (wiring s') /\ settled (heap s') /\
    written (Set_input_freq 16000000) (heap Examples.chain) Examples.chain_src
    = Ok c1 /\
    new_output_freq_of c1 = Ok new /\
    heap s' !! 0%nat = Some (with_output_freq new c1) /\
    wiring s' = <[0%nat := static c1]> (wiring Examples.chain) /\
    (forall a ca, a <> 0%nat -> heap s' !! a = Some ca ->
       clktree_get_input_clk ca = Ok None ->
       heap Examples.chain !! a = Some ca).
Proof.
  apply (X22_invariant (H := Examples.cfg) Examples.height 8 0
           (Set_input_freq 16000000) Examples.chain Examples.chain_src).
  - apply heap_wfb_spec. vm_compute. reflexivity.
  - apply settledb_spec. vm_compute. reflexivity.
  - reflexivity.
  - intros p pc Hp. vm_compute in Hp. discriminate.
  - vm_compute. lia.
Defined.

Lemma recalc_fuel_mono f :
  forall f' x s r, (f <= f')%nat ->
    clktree_recalc_output_freq f x s = Ok r ->
    clktree_recalc_output_freq f' x s = Ok r.
Proof.
  induction f as [|f IH]; intros f' x s r Hle Hrun; [discriminate|].
  destruct f' as [|f']; [lia|].
  apply recalc_S_Ok in Hrun
    as (c & new & Hc & Hn & [[-> ->]|(Hne & Hu & Ho & Hrun)]).
  { by apply recalc_S_same with (c := c). }
  rewrite (recalc_S_change _ _ _ _ _ Hc Hn Hne Hu Ho).
  revert Hrun. generalize (changed_state x c new s).
  generalize (take (output_count c) (output c)).
  intros l. induction l as [|o l IHl]; intros s0 Hrun; simpl in *; [done|].
  apply bind_Ok in Hrun as ([] & s1 & Ho1 & Hrun).
  rewrite (bind_run _ _ _ tt s1); [by apply IHl|].
  apply propagate_to_Ok in Ho1
    as (n & nc & p & -> & Hnc & Hp & [[Hne' [= <-]]|[-> Hr]]).
  - by apply propagate_to_skip with (nc := nc) (p := p).
  - rewrite (propagate_to_visit _ _ _ _ _ _ Hnc Hp). apply IH; [lia|done].
Qed.

(** X23.  In a well-wired memory [clktree_recalc_output_freq] returns, and
    its recursion (through [clktree_set_input_freq], into the fan-out
    children that have selected the node) is no deeper than the height of
    the node: one more level than the height suffices, more levels change
    nothing of the result, and the wiring is as it was. *)
Theorem X23_recalc_bounded h x s :
  heap_wf h (wiring s) -> (x < length (heap s))%nat ->
  exists s', wiring s' = wiring s /\
    forall fuel, (h x < fuel)%nat ->
      clktree_recalc_output_freq fuel x s = Ok (tt, s').
Proof.
  intros Hwf Hx.
  destruct (recalc_terminates h (S (h x)) x s Hwf Hx) as [s' Hrun]; [lia|].
  exists s'. split.
  - by apply Recalc_adequate, Recalc_wiring in Hrun.
  - intros fuel Hfuel. apply (recalc_fuel_mono (S (h x))); [lia|done].
Qed.

Lemma X23_recalc_bounded_witness :
  exists s', wiring s' = wiring Examples.chain_src_off /\
    forall fuel, (Examples.height 0 < fuel)%nat ->
      clktree_recalc_output_freq fuel 0 Examples.chain_src_off = Ok (tt, s').
Proof.
  apply (X23_recalc_bounded Examples.height 0 Examples.chain_src_off).
  - apply heap_wfb_spec. vm_compute. reflexivity.
  - vm_compute. lia.
Defined.

(** * Further properties of the CRC unit: linearity and use *)

Lemma lxor_interchange a b c d :
  Z.lxor (Z.lxor a b) (Z.lxor c d) = Z.lxor (Z.lxor a c) (Z.lxor b d).
Proof.
  apply Z.bits_inj'. intros n _. rewrite !Z.lxor_spec. bool_cases.
Qed.

Lemma lxor_nonneg a b : 0 <= a -> 0 <= b -> 0 <= Z.lxor a b.
Proof. intros Ha Hb. by apply Z.lxor_nonneg. Qed.

(** X24.  The CRC is linear over exclusive-or, in the register and in the
    data together: one table-driven step, and one 4-byte write to the data
    register, applied to the exclusive-or of two registers and of two data
    give the exclusive-or of the results.  (So an error pattern in the
    data changes the CRC by the CRC of the pattern from a zero register.) *)
Theorem X24_crc_linear c1 c2 :
  is_uint32 c1 -> is_uint32 c2 ->
  (forall b1 b2, 0 <= b1 <= 255 -> 0 <= b2 <= 255 ->
     update_crc (Z.lxor c1 c2) (Z.lxor b1 b2)
     = Z.lxor (update_crc c1 b1) (update_crc c2 b2)) /\
  (forall i addr d1 d2, 0 <= addr < 4 -> 0 <= d1 -> 0 <= d2 ->
     crc (f2xx_crc_write (mk_f2xx_crc (Z.lxor c1 c2) i) addr
                         (Z.lxor d1 d2) 4).1
     = Z.lxor (crc (f2xx_crc_write (mk_f2xx_crc c1 i) addr d1 4).1)
              (crc (f2xx_crc_write (mk_f2xx_crc c2 i) addr d2 4).1)).
Proof.
  unfold is_uint32, UINT32_MAX. intros Hc1 Hc2.
  assert (Hc : 0 <= Z.lxor c1 c2 < 2 ^ 32) by (apply lxor_bound; lia).
  split.
  - intros b1 b2 Hb1 Hb2.
    assert (Hb : 0 <= Z.lxor b1 b2 < 2 ^ 8) by (apply lxor_bound; lia).
    rewrite !update_crc_bits by lia.
    rewrite <- crc_bits_lxor. f_equal.
    rewrite lxor_interchange. f_equal.
    apply Z.bits_inj'. intros n Hn.
    rewrite Z.lxor_spec.
    destruct (Z.ltb_spec n 24).
    + by rewrite !Z.shiftl_spec_low by lia.
    + by rewrite !Z.shiftl_spec, Z.lxor_spec by lia.
  - intros i addr d1 d2 Ha Hd1 Hd2.
    pose proof (lxor_nonneg d1 d2 Hd1 Hd2) as Hd.
    rewrite !f2xx_crc_write_DR by done. cbn [fst crc].
    rewrite !update_crc_word by lia.
    rewrite <- crc_bits_lxor. f_equal.
    by rewrite lxor_interchange, mod_pow2_lxor by lia.
Qed.

Lemma X24_crc_linear_witness :
  update_crc (Z.lxor 0xffffffff 0x12345678) (Z.lxor 0xa5 0x5a)
  = Z.lxor (update_crc 0xffffffff 0xa5) (update_crc 0x12345678 0x5a).
Proof.
  apply (X24_crc_linear 0xffffffff 0x12345678);
    unfold is_uint32, UINT32_MAX; lia.
Defined.

(** X25.  The use of the unit: a 4-byte write with bit 0 set to the control
    register, a 4-byte write of a word to the data register, a 4-byte read
    of the data register.  The read returns the CRC of the word from the
    initial value 0xffffffff (32 steps of the shift register on
    0xffffffff exclusive-or the word), whatever the data register held
    before, and nothing is logged on the way. *)
Theorem X25_reset_write_read s ctl w :
  0 <= ctl -> Z.odd ctl = true -> 0 <= w ->
  let r1 := f2xx_crc_write s 0x08 ctl 4 in
  let r2 := f2xx_crc_write r1.1 0x00 w 4 in
  f2xx_crc_read r2.1 0x00 4
  = (crc_bits 32 (Z.lxor 0xffffffff (w mod 2 ^ 32)), []) /\
  r1.2 = [] /\ r2.2 = [] /\ idr r2.1 = idr s.
Proof.
  intros Hctl Hodd Hw r1 r2.
  assert (Hr1 : r1 = (mk_f2xx_crc R_CRC_DR_RESET (idr s), [])).
  { unfold r1, f2xx_crc_write. simpl.
    change 1 with (Z.ones 1). rewrite Z.land_ones by lia.
    change (2 ^ 1) with 2. rewrite Zmod_odd, Hodd. reflexivity. }
  assert (Hr2 : r2 = (mk_f2xx_crc
                        (crc_bits 32 (Z.lxor 0xffffffff (w mod 2 ^ 32)))
                        (idr s), [])).
  { unfold r2. rewrite Hr1. cbn [fst].
    rewrite f2xx_crc_write_DR by lia. cbn [crc idr].
    by rewrite update_crc_word by (unfold R_CRC_DR_RESET; lia). }
  rewrite Hr1, Hr2. done.
Qed.

Lemma X25_reset_write_read_witness :
  f2xx_crc_read
    (f2xx_crc_write (f2xx_crc_write (mk_f2xx_crc 5 7) 0x08 1 4).1
                    0x00 0x12345678 4).1 0x00 4
  = (crc_bits 32 (Z.lxor 0xffffffff (0x12345678 mod 2 ^ 32)), []).
Proof.
  apply (X25_reset_write_read (mk_f2xx_crc 5 7) 1 0x12345678);
    [lia | reflexivity | lia].
Defined.

(** * Further properties: the gate, read back *)

(** X26.  [clktree_set_enabled] read back through the two queries.  In a
    well-wired, settled memory, after [clktree_set_enabled] has returned,
    [clktree_is_enabled] returns the value written if the node is
    initialized (false if it is not), and [clktree_get_output_freq] returns
    the quotient of the node's input frequency by its ratio, in 32 bits, if
    the value written is true, and 0 if it is false; both queries leave the
    state as it is. *)
Theorem X26_gate_read_back h fuel x b s c :
  heap_wf h (wiring s) -> settled (heap s) -> heap s !! x = Some c ->
  (h x < fuel)%nat ->
  exists s', clktree_set_enabled fuel x b s = Ok (tt, s') /\
    clktree_is_enabled x s' = Ok (b && is_initialized c, s') /\
    clktree_get_output_freq x s'
    = Ok (if b then (input_freq c * multiplier c / divisor c) mod 2 ^ 32
          else 0, s').
Proof.
  intros Hwf Hset Hc Hfuel.
  destruct (mutate_settled_frame (H := Build_ClkConfig 0 0 0 0) h fuel x
              (Set_enabled b) s c Hwf Hset Hc I Hfuel)
    as (s' & c1 & new & Hrun & _ & _ & Hw & Hnew & Hx' & _).
  injection Hw as <-. exists s'. split; [done|].
  unfold clktree_is_enabled, clktree_get_output_freq.
  rewrite !(bind_run _ _ _ _ _ (load_run _ _ _ Hx')). split; [done|].
  unfold ret. simpl. do 2 f_equal.
  apply new_output_freq_of_Ok in Hnew as [[Hb ->]|(Hb & _ & ->)];
    simpl in Hb; by rewrite Hb.
Qed.

Lemma X26_gate_read_back_witness :
  exists s', clktree_set_enabled 8 1 false Examples.chain = Ok (tt, s') /\
    clktree_is_enabled 1 s'
    = Ok (false && is_initialized Examples.chain_x2, s') /\
    clktree_get_output_freq 1 s'
    = Ok (if false
          then (input_freq Examples.chain_x2 * multiplier Examples.chain_x2
                / divisor Examples.chain_x2) mod 2 ^ 32
          else 0, s').
Proof.
  apply (X26_gate_read_back Examples.height 8 1 false Examples.chain
           Examples.chain_x2).
  - apply heap_wfb_spec. vm_compute. reflexivity.
  - apply settledb_spec. vm_compute. reflexivity.
  - reflexivity.
  - vm_compute. lia.
Defined.

(** * Further properties: chains of any length *)

Lemma settled_chain l path :
  settled l ->
  forall x cx, l !! x = Some cx -> chain_from l x path ->
    exists y cy, last (x :: path) = Some y /\ l !! y = Some cy /\
                 output_freq cy = apply_path l path (output_freq cx).
Proof.
  intros Hset. induction path as [|n rest IH]; intros x cx Hx Hch.
  { exists x, cx. done. }
  destruct Hch as [(cn & Hn & Hsel) Hch].
  destruct (IH n cn Hn Hch) as (y & cy & Hlast & Hy & Hout).
  exists y, cy. split; [|split; [done|]].
  - rewrite <- Hlast. by destruct rest.
  - simpl. rewrite Hn, Hout. f_equal.
    destruct (Hset _ _ Hn) as [Hl Hok].
    apply clk_ok_equation in Hok. unfold freq_equation in Hok.
    unfold clk_apply. by rewrite Hok, (Hl x cx Hsel Hx).
Qed.

Lemma chain_height h s path :
  heap_wf h (wiring s) ->
  forall x, chain_from (heap s) x path ->
            forall n, n ∈ path -> (h n < h x)%nat.
Proof.
  intros Hwf. induction path as [|m rest IH]; intros x Hch n Hn.
  { by apply elem_of_nil in Hn. }
  destruct Hch as [(cm & Hm & Hsel) Hch].
  pose proof (wf_selects _ _ _ _ Hwf (selects_wiring _ _ _ _ Hm Hsel))
    as [Hlt _].
  apply elem_of_cons in Hn as [->|Hn]; [done|].
  specialize (IH m Hch n Hn). lia.
Qed.

(** A chain, and what its nodes make of a frequency, depend on the wiring
    of the nodes of the chain only. *)
Lemma chain_transfer l l' path :
  (forall n, n ∈ path -> (static <$> l') !! n = (static <$> l) !! n) ->
  forall x v, chain_from l x path ->
    chain_from l' x path /\ apply_path l' path v = apply_path l path v.
Proof.
  induction path as [|m rest IH]; intros Hst x v Hch; [done|].
  destruct Hch as [(cm & Hm & Hsel) Hch].
  assert (Hm' : exists cm', l' !! m = Some cm' /\ static cm' = static cm).
  { specialize (Hst m ltac:(apply elem_of_cons; by left)).
    rewrite !list_lookup_fmap, Hm in Hst.
    destruct (l' !! m) as [cm'|]; [|discriminate].
    exists cm'. split; [done|]. simpl in Hst. by apply (inj Some) in Hst. }
  destruct Hm' as (cm' & Hm' & Est).
  destruct (static_scalars _ _ Est) as (Een & Em & Ed & Eg).
  assert (Hrest : forall n, n ∈ rest ->
            (static <$> l') !! n = (static <$> l) !! n).
  { intros n Hn. apply Hst. apply elem_of_cons. by right. }
  assert (Happ : clk_apply cm' v = clk_apply cm v).
  { unfold clk_apply. by rewrite Een, Em, Ed. }
  destruct (IH Hrest m (clk_apply cm v) Hch) as [Hch' Hap'].
  split.
  - split; [|done]. exists cm'. by rewrite Eg.
  - simpl. by rewrite Hm, Hm', Happ.
Qed.

(** X27.  Propagation along a chain of any length.  In a well-wired,
    settled memory, for every chain of selections hanging from a node (each
    node of the chain has selected the one before, the first one the node
    itself), a runtime mutation of the node within its precondition
    returns, the node then holds what the mutation wrote with the output
    frequency recomputed from it, and the node at the end of the chain
    reads that output frequency passed through the nodes of the chain in
    order, each applying its gate and then its ratio in 32 bits. *)
Theorem X27_chain_propagation `{ClkConfig} h fuel x mu s c path :
  heap_wf h (wiring s) -> settled (heap s) -> heap s !! x = Some c ->
  mutation_pre mu (heap s) c -> (h x < fuel)%nat ->
  chain_from (heap s) x path ->
  exists s' c1 new y cy,
    mutate fuel x mu s = Ok (tt, s') /\
    written mu (heap s) c = Ok c1 /\ new_output_freq_of c1 = Ok new /\
    heap s' !! x = Some (with_output_freq new c1) /\
    last (x :: path) = Some y /\ heap s' !! y = Some cy /\
    output_freq cy = apply_path (heap s) path new.
Proof.
  intros Hwf Hset Hc Hpre Hfuel Hch.
  destruct (mutate_settled_frame h fuel x mu s c Hwf Hset Hc Hpre Hfuel)
    as (s' & c1 & new & Hrun & _ & Hset' & Hw & Hnew & Hx' & HW & _).
  assert (Hst : forall n, n ∈ path ->
            (static <$> heap s') !! n = (static <$> heap s) !! n).
  { intros n Hn. pose proof (chain_height h s path Hwf x Hch n Hn) as Hlt.
    change (wiring s' !! n = wiring s !! n). rewrite HW.
    apply list_lookup_insert_ne. intros ->. lia. }
  destruct (chain_transfer (heap s) (heap s') path Hst x new Hch)
    as [Hch' Hap].
  destruct (settled_chain (heap s') path Hset' x _ Hx' Hch')
    as (y & cy & Hlast & Hy & Hout).
  exists s', c1, new, y, cy. do 5 (split; [done|]). split; [done|].
  by rewrite Hout, <- Hap.
Qed.

Lemma X27_chain_propagation_witness :
  exists s' c1 new y cy,
    mutate (H := Examples.cfg) 8 0 (Set_input_freq 16000000) Examples.chain
    = Ok (tt, s') /\
    written (Set_input_freq 16000000) (heap Examples.chain)
            Examples.chain_src = Ok c1 /\
    new_output_freq_of c1 = Ok new /\
    heap s' !! 0%nat = Some (with_output_freq new c1) /\
    last [0%nat; 1%nat; 2%nat] = Some y /\ heap s' !! y = Some cy /\
    output_freq cy = apply_path (heap Examples.chain) [1%nat; 2%nat] new.
Proof.
  apply (X27_chain_propagation (H := Examples.cfg) Examples.height 8 0
           (Set_input_freq 16000000) Examples.chain Examples.chain_src
           [1%nat; 2%nat]).
  - apply heap_wfb_spec. vm_compute. reflexivity.
  - apply settledb_spec. vm_compute. reflexivity.
  - reflexivity.
  - intros p pc Hp. vm_compute in Hp. discriminate.
  - vm_compute. lia.
  - simpl. split; [|split; [|exact I]].
    + exists Examples.chain_x2. split; reflexivity.
    + exists Examples.chain_div2. split; reflexivity.
Defined.

(** * C8: the capacities of the three arrays *)

Lemma never_load_ne e clk : e <> BadAccess -> never e (load clk).
Proof.
  intros He s. unfold load. destruct (heap s !! clk); congruence.
Qed.

Lemma never_modify_ne e clk f : e <> BadAccess -> never e (modify clk f).
Proof.
  intros He. apply never_bind; [by apply never_load_ne|]. intros c s.
  unfold store. destruct (heap s !! clk); congruence.
Qed.

Lemma never_array_get_ne {A} e (arr : list A) i :
  e <> BadAccess -> never e (array_get arr i).
Proof.
  intros He s. unfold array_get. destruct (arr !! i); [discriminate|].
  unfold abort. congruence.
Qed.

(** The recalculation holds no capacity assertion. *)
Lemma never_recalc_cap fuel :
  forall clk, never (AssertFail assert_link_capacity)
                    (clktree_recalc_output_freq fuel clk).
Proof.
  induction fuel as [|fuel IH]; intros clk; [intros s; discriminate|].
  simpl. apply never_bind; [by apply never_load_ne|]. intros c.
  apply never_bind.
  { apply never_lift. intros E%new_output_freq_of_abort. discriminate. }
  intros new. destruct (negb _); [|apply never_ret].
  apply never_bind; [by apply never_modify_ne|]. intros _.
  apply never_bind.
  { destruct (_ >? _); [apply never_emit | apply never_ret]. }
  intros _. apply never_bind.
  { apply never_for_range. intros i.
    apply never_bind; [by apply never_array_get_ne|]. intros u.
    apply never_emit. }
  intros _. apply never_for_range. intros i.
  apply never_bind; [by apply never_array_get_ne|]. intros [next|]; simpl.
  - apply never_bind; [by apply never_load_ne|]. intros nc.
    apply never_bind.
    { apply never_lift. intros E%get_input_clk_abort. discriminate. }
    intros p. destruct (decide _); [|apply never_ret].
    unfold set_input_freq_then.
    apply never_bind; [by apply never_modify_ne | intros _; apply IH].
  - intros s. discriminate.
Qed.

(** Nor does [clktree_set_selected_input]. *)
Lemma never_select_cap fuel clk i :
  never (AssertFail assert_link_capacity)
        (clktree_set_selected_input fuel clk i).
Proof.
  unfold clktree_set_selected_input.
  apply never_bind; [by apply never_load_ne|]. intros c.
  apply never_bind.
  { unfold assert. destruct (_ <? _); [apply never_ret|].
    intros s. discriminate. }
  intros _. apply never_bind; [by apply never_modify_ne|]. intros _.
  apply never_bind.
  { destruct (i >? -1); [|apply never_ret].
    apply never_bind; [by apply never_load_ne|]. intros c'.
    apply never_bind.
    { apply never_lift. intros E%get_input_clk_abort. discriminate. }
    intros [a|]; [|intros s; discriminate].
    apply never_bind; [by apply never_load_ne|]. intros ic.
    apply never_ret. }
  intros v. unfold clktree_set_input_freq, set_input_freq_then.
  apply never_bind; [by apply never_modify_ne|]. intros _.
  apply never_recalc_cap.
Qed.

Lemma sized_insert `{ClkConfig} l a c c' :
  sized l -> l !! a = Some c ->
  length (user c') = length (user c) ->
  length (output c') = length (output c) ->
  length (input c') = length (input c) ->
  sized (<[a := c']> l).
Proof.
  intros Hsz Ha Hu Ho Hi b cb Hb. destruct (decide (b = a)) as [->|Hba].
  - rewrite list_lookup_insert_eq in Hb by (by eapply lookup_lt_Some).
    injection Hb as <-. rewrite Hu, Ho, Hi. by apply (Hsz a).
  - rewrite list_lookup_insert_ne in Hb by done. by apply (Hsz b).
Qed.

(** With arrays of their capacity and input clocks that exist, the loop of
    [clktree_create_clk] returns or ends in the capacity assertion. *)
Lemma create_clk_links_total `{ClkConfig} clk ins :
  forall s, sized (heap s) -> (clk < length (heap s))%nat ->
    (forall p, p ∈ ins -> (p < length (heap s))%nat) ->
    (exists s', clktree_create_clk_links clk ins s = Ok (tt, s')) \/
    clktree_create_clk_links clk ins s
    = Abort (AssertFail assert_link_capacity).
Proof.
  induction ins as [|p rest IH]; intros s Hsz Hclk Hval.
  { left. by exists s. }
  destruct (lookup_lt_is_Some_2 _ _ Hclk) as [c Hc].
  destruct (Hsz _ _ Hc) as (_ & _ & Hleni).
  cbn [clktree_create_clk_links].
  rewrite (bind_run _ _ _ _ _ (load_run _ _ _ Hc)).
  destruct (decide (input_count c < CLKTREE_MAX_INPUT)%nat) as [Hroom|Hfull];
    [|right; apply bind_Abort, ADD_LINK_full; lia].
  rewrite (bind_run _ _ _ _ _ (ADD_LINK_room _ _ _ _ _ Hroom Hleni)).
  rewrite (bind_run _ _ _ _ _ (store_run _ _ _ _ Hc)). cbn [fst snd].
  set (c1 := with_inputs _ _ c).
  set (s1 := mkState (<[clk := c1]> (heap s)) (trace s)).
  assert (Hsz1 : sized (heap s1)).
  { apply (sized_insert _ _ c); try done. simpl. by rewrite length_insert. }
  assert (Hp : (p < length (heap s1))%nat).
  { simpl. rewrite length_insert. apply Hval, elem_of_cons. by left. }
  destruct (lookup_lt_is_Some_2 _ _ Hp) as [pc Hpc].
  destruct (Hsz1 _ _ Hpc) as (_ & Hleno & _).
  rewrite (bind_run _ _ _ _ _ (load_run _ _ _ Hpc)).
  destruct (decide (output_count pc < CLKTREE_MAX_OUTPUT)%nat) as [Hroomp|Hfullp];
    [|right; apply bind_Abort, ADD_LINK_full; lia].
  rewrite (bind_run _ _ _ _ _ (ADD_LINK_room _ _ _ _ _ Hroomp Hleno)).
  rewrite (bind_run _ _ _ _ _ (store_run _ _ _ _ Hpc)). cbn [fst snd].
  apply IH.
  - apply (sized_insert _ _ pc); try done. simpl. by rewrite length_insert.
  - simpl. by rewrite !length_insert.
  - intros q Hq. simpl. rewrite !length_insert. apply Hval, elem_of_cons.
    by right.
Qed.

Lemma create_generic_sized `{ClkConfig} clk nm m d en s c :
  sized (heap s) -> heap s !! clk = Some c ->
  sized (<[clk := mkClk nm en 0 0 CLKTREE_NO_MAX_FREQ m d 0 (user c)
                        0 (output c) 1 CLKTREE_NO_INPUT
                        (<[0%nat := None]> (input c)) true]> (heap s)).
Proof.
  intros Hsz Hc. apply (sized_insert _ _ c); try done.
  simpl. by rewrite length_insert.
Qed.


Lemma occurrences_notin p ins : p ∉ ins -> occurrences p ins = 0%nat.
Proof.
  induction ins as [|q rest IH]; [done|].
  intros [Hne Hn]%not_elem_of_cons. simpl.
  rewrite decide_False by congruence. by rewrite IH.
Qed.

Lemma occurrences_in p ins : p ∈ ins -> (1 <= occurrences p ins)%nat.
Proof.
  induction ins as [|q rest IH]; intros Hin; [by apply elem_of_nil in Hin|].
  simpl. destruct (decide (q = p)) as [_|Hne]; [lia|].
  apply elem_of_cons in Hin as [->|Hin]; [done|]. specialize (IH Hin). lia.
Qed.

(** One turn of the loop of [clktree_create_clk] that is followed by a
    return: both links have found room. *)
Lemma create_clk_links_step `{ClkConfig} clk p rest s r :
  clktree_create_clk_links clk (p :: rest) s = Ok r ->
  exists c pc,
    heap s !! clk = Some c /\
    (input_count c < CLKTREE_MAX_INPUT)%nat /\
    (input_count c < length (input c))%nat /\
    <[clk := with_inputs (S (input_count c))
               (<[input_count c := Some p]> (input c)) c]> (heap s) !! p
    = Some pc /\
    (output_count pc < CLKTREE_MAX_OUTPUT)%nat /\
    (output_count pc < length (output pc))%nat /\
    clktree_create_clk_links clk rest
      (mkState
         (<[p := with_outputs (S (output_count pc))
                   (<[output_count pc := Some clk]> (output pc)) pc]>
            (<[clk := with_inputs (S (input_count c))
                        (<[input_count c := Some p]> (input c)) c]> (heap s)))
         (trace s)) = Ok r.
Proof.
  intros Hrun. simpl in Hrun.
  apply bind_Ok in Hrun as (c & s0 & [Hc ->]%load_Ok & Hrun).
  apply bind_Ok in Hrun as (r1 & sa & Hadd & Hrun).
  assert (Hroom : (input_count c < length (input c))%nat).
  { unfold CLKTREE_ADD_LINK in Hadd.
    apply bind_Ok in Hadd as ([] & sb & _ & Hadd).
    by apply bind_Ok in Hadd as (a' & sc & (Hroom & _ & _)%array_set_Ok & _). }
  apply ADD_LINK_Ok in Hadd as (Hle & -> & ->).
  apply bind_Ok in Hrun as ([] & s1 & [_ ->]%store_Ok & Hrun).
  apply bind_Ok in Hrun as (pc & s2 & [Hpc ->]%load_Ok & Hrun).
  apply bind_Ok in Hrun as (r2 & sa & Hadd & Hrun).
  assert (Hroomp : (output_count pc < length (output pc))%nat).
  { unfold CLKTREE_ADD_LINK in Hadd.
    apply bind_Ok in Hadd as ([] & sb & _ & Hadd).
    by apply bind_Ok in Hadd as (a' & sc & (Hroomp & _ & _)%array_set_Ok & _). }
  apply ADD_LINK_Ok in Hadd as (Hlep & -> & ->).
  apply bind_Ok in Hrun as ([] & s3 & [_ ->]%store_Ok & Hrun).
  exists c, pc. simpl in Hpc, Hrun. split; [done|]. split; [lia|].
  split; [done|]. split; [done|]. split; [lia|]. done.
Qed.

(** What a turn of the loop for the input clock [p] makes of the struct at
    an address [y]. *)
Lemma links_turn_lookup clk p (l : list Clk) c pc y cy :
  l !! clk = Some c ->
  <[clk := with_inputs (S (input_count c))
             (<[input_count c := Some p]> (input c)) c]> l !! p = Some pc ->
  l !! y = Some cy ->
  exists cy2,
    <[p := with_outputs (S (output_count pc))
              (<[output_count pc := Some clk]> (output pc)) pc]>
      (<[clk := with_inputs (S (input_count c))
                  (<[input_count c := Some p]> (input c)) c]> l) !! y
    = Some cy2 /\
    output_count cy2
    = (output_count cy + if decide (p = y) then 1 else 0)%nat /\
    output cy2 = (if decide (p = y)
                  then <[output_count cy := Some clk]> (output cy)
                  else output cy) /\
    input_count cy2
    = (input_count cy + if decide (y = clk) then 1 else 0)%nat /\
    input cy2 = (if decide (y = clk)
                 then <[input_count cy := Some p]> (input cy)
                 else input cy) /\
    user cy2 = user cy /\
    (p = y -> output_count pc = output_count cy /\ output pc = output cy).
Proof.
  intros Hc Hpc Hy.
  set (c1 := with_inputs _ _ c) in *. set (pc1 := with_outputs _ _ pc).
  assert (Hlt : (clk < length l)%nat) by (by eapply lookup_lt_Some).
  assert (Hp : (p < length (<[clk := c1]> l))%nat) by (by eapply lookup_lt_Some).
  destruct (decide (p = y)) as [->|Hpy].
  - exists pc1. rewrite list_lookup_insert_eq by done.
    destruct (decide (y = clk)) as [->|Hyc].
    + rewrite list_lookup_insert_eq in Hpc by done. injection Hpc as <-.
      rewrite Hc in Hy. injection Hy as <-. simpl.
      repeat split; try done; lia.
    + rewrite list_lookup_insert_ne in Hpc by done.
      rewrite Hy in Hpc. injection Hpc as <-. simpl.
      repeat split; try done; lia.
  - rewrite list_lookup_insert_ne by done.
    destruct (decide (y = clk)) as [->|Hyc].
    + exists c1. rewrite list_lookup_insert_eq by done.
      rewrite Hc in Hy. injection Hy as <-. simpl.
      repeat split; try done; lia.
    + exists cy. rewrite list_lookup_insert_ne by done.
      repeat split; try done; lia.
Qed.

(** The loop returns when the input clocks fit. *)
Lemma create_clk_links_fit_returns `{ClkConfig} clk ins :
  forall s c, sized (heap s) -> heap s !! clk = Some c ->
    (forall p, p ∈ ins -> (p < length (heap s))%nat) ->
    (input_count c + length ins <= CLKTREE_MAX_INPUT)%nat ->
    (forall p pc, p ∈ ins -> heap s !! p = Some pc ->
       (output_count pc + occurrences p ins <= CLKTREE_MAX_OUTPUT)%nat) ->
    exists s', clktree_create_clk_links clk ins s = Ok (tt, s').
Proof.
  induction ins as [|p rest IH]; intros s c Hsz Hc Hval Hmax Hroom.
  { by exists s. }
  assert (Hpin : p ∈ p :: rest) by (apply elem_of_cons; by left).
  destruct (Hsz _ _ Hc) as (_ & _ & Hleni).
  destruct (lookup_lt_is_Some_2 _ _ (Hval p Hpin)) as [pc0 Hpc0].
  simpl in Hmax. cbn [clktree_create_clk_links].
  rewrite (bind_run _ _ _ _ _ (load_run _ _ _ Hc)).
  assert (Hri : (input_count c < CLKTREE_MAX_INPUT)%nat) by lia.
  rewrite (bind_run _ _ _ _ _ (ADD_LINK_room _ _ _ _ _ Hri Hleni)).
  rewrite (bind_run _ _ _ _ _ (store_run _ _ _ _ Hc)). cbn [fst snd].
  set (c1 := with_inputs _ _ c).
  set (s1 := mkState (<[clk := c1]> (heap s)) (trace s)).
  assert (Hsz1 : sized (heap s1)).
  { apply (sized_insert _ _ c); try done. simpl. by rewrite length_insert. }
  assert (Hp : (p < length (heap s1))%nat).
  { simpl. rewrite length_insert. by apply Hval. }
  destruct (lookup_lt_is_Some_2 _ _ Hp) as [pc Hpc].
  destruct (Hsz1 _ _ Hpc) as (_ & Hleno & _).
  rewrite (bind_run _ _ _ _ _ (load_run _ _ _ Hpc)).
  destruct (links_turn_lookup clk p (heap s) c pc p pc0 Hc Hpc Hpc0)
    as (_ & _ & _ & _ & _ & _ & _ & Heq).
  destruct (Heq eq_refl) as [Ecnt _].
  pose proof (Hroom p pc0 Hpin Hpc0) as Hr0.
  pose proof (occurrences_in p (p :: rest) Hpin) as Hocc.
  assert (Hro : (output_count pc < CLKTREE_MAX_OUTPUT)%nat) by lia.
  rewrite (bind_run _ _ _ _ _ (ADD_LINK_room _ _ _ _ _ Hro Hleno)).
  rewrite (bind_run _ _ _ _ _ (store_run _ _ _ _ Hpc)). cbn [fst snd].
  destruct (links_turn_lookup clk p (heap s) c pc clk c Hc Hpc Hc)
    as (c2 & Hc2 & _ & _ & Eic & _).
  rewrite decide_True in Eic by done.
  apply (IH _ c2).
  - apply (sized_insert _ _ pc); try done. simpl. by rewrite length_insert.
  - exact Hc2.
  - intros q Hq. simpl. rewrite !length_insert. apply Hval, elem_of_cons.
    by right.
  - lia.
  - intros q qc2 Hq Hqc2.
    assert (Hqin : q ∈ p :: rest) by (apply elem_of_cons; by right).
    destruct (lookup_lt_is_Some_2 _ _ (Hval q Hqin)) as [qc Hqc].
    destruct (links_turn_lookup clk p (heap s) c pc q qc Hc Hpc Hqc)
      as (qc2' & Hqc2' & Ecq & _).
    pose proof (eq_trans (eq_sym Hqc2') Hqc2) as E. injection E as ->.
    pose proof (Hroom q qc Hqin Hqc) as Hrq. simpl in Hrq. lia.
Qed.

(** The loop returns only when each input clock had room in its fan-out
    array for as many entries as it occurs among the input clocks. *)
Lemma create_clk_links_Ok_fit `{ClkConfig} clk ins :
  forall s s', clktree_create_clk_links clk ins s = Ok (tt, s') ->
    forall p pc, p ∈ ins -> heap s !! p = Some pc ->
      (output_count pc + occurrences p ins <= CLKTREE_MAX_OUTPUT)%nat.
Proof.
  induction ins as [|p0 rest IH]; intros s s' Hrun p pc Hin Hp.
  { by apply elem_of_nil in Hin. }
  apply create_clk_links_step in Hrun
    as (c & pc0 & Hc & _ & _ & Hpc0 & Hlt & _ & Hrun).
  destruct (links_turn_lookup clk p0 (heap s) c pc0 p pc Hc Hpc0 Hp)
    as (pc2 & Hpc2 & Ecnt & _ & _ & _ & _ & Heq).
  simpl. destruct (decide (p ∈ rest)) as [Hrest|Hrest].
  - pose proof (IH _ _ Hrun p pc2 Hrest Hpc2). lia.
  - rewrite (occurrences_notin _ _ Hrest).
    apply elem_of_cons in Hin as [->|Hin]; [|done].
    destruct (Heq eq_refl) as [E _]. rewrite decide_True by done. lia.
Qed.

(** What the loop has made of every struct when it returns. *)
Lemma create_clk_links_gen `{ClkConfig} clk ins :
  forall s s', clktree_create_clk_links clk ins s = Ok (tt, s') ->
    forall y cy, heap s !! y = Some cy ->
      exists cy', heap s' !! y = Some cy' /\
        output_count cy' = (output_count cy + occurrences y ins)%nat /\
        (forall i, (i < output_count cy)%nat ->
                   output cy' !! i = output cy !! i) /\
        (forall i, (output_count cy <= i < output_count cy')%nat ->
                   output cy' !! i = Some (Some clk)) /\
        (y <> clk -> input_count cy' = input_count cy /\
                     input cy' = input cy) /\
        (y = clk ->
         input_count cy' = (input_count cy + length ins)%nat /\
         (forall i, (i < input_count cy)%nat ->
                    input cy' !! i = input cy !! i) /\
         (forall i p, ins !! i = Some p ->
                      input cy' !! (input_count cy + i)%nat = Some (Some p))).
Proof.
  induction ins as [|p0 rest IH]; intros s s' Hrun y cy Hy.
  { injection Hrun as <-. exists cy. split; [done|]. simpl.
    split; [lia|]. split; [done|]. split; [intros i Hi; lia|].
    split; [done|]. intros _. split; [lia|]. split; [done|].
    intros i p Hi. done. }
  apply create_clk_links_step in Hrun
    as (c & pc0 & Hc & _ & Hlti & Hpc0 & _ & Hlto & Hrun).
  destruct (links_turn_lookup clk p0 (heap s) c pc0 y cy Hc Hpc0 Hy)
    as (cy2 & Hcy2 & Ecnt & Eout & Eic & Ein & _ & Heq).
  destruct (IH _ _ Hrun y cy2 Hcy2)
    as (cy' & Hcy' & Ecnt' & Hold & Hnew & Hin_ne & Hin_eq).
  exists cy'. split; [done|]. simpl.
  split; [lia|]. split; [|split; [|split]].
  - intros i Hi. rewrite Hold by lia. rewrite Eout.
    destruct (decide (p0 = y)); [|done].
    apply list_lookup_insert_ne. lia.
  - intros i Hi. destruct (decide (i < output_count cy2)%nat) as [Hlt|Hge].
    + rewrite Hold by done. rewrite Eout.
      destruct (decide (p0 = y)) as [Epy|Hne]; [|lia].
      assert (i = output_count cy) as -> by lia.
      apply list_lookup_insert_eq.
      destruct (Heq Epy) as [E1 E2]. rewrite <- E1, <- E2. done.
    + apply Hnew. lia.
  - intros Hyc. destruct (Hin_ne Hyc) as [E1 E2].
    rewrite decide_False in Eic by done. rewrite decide_False in Ein by done.
    rewrite E1, E2, Eic, Ein. split; [lia|done].
  - intros ->. destruct (Hin_eq eq_refl) as (E1 & Hio & Hin').
    rewrite decide_True in Eic by done. rewrite decide_True in Ein by done.
    rewrite Hc in Hy. injection Hy as <-.
    split; [lia|]. split.
    + intros i Hi. rewrite Hio by lia. rewrite Ein.
      apply list_lookup_insert_ne. lia.
    + intros [|i] q Hq; simpl in Hq.
      * injection Hq as <-. rewrite Nat.add_0_r, Hio by lia. rewrite Ein.
        by apply list_lookup_insert_eq.
      * replace (input_count c + S i)%nat with (input_count cy2 + i)%nat
          by lia.
        by apply Hin'.
Qed.

(** [clktree_create_clk] with input clocks that do not fit. *)
Lemma create_clk_not_fits `{ClkConfig} fuel clk nm m d en mx sel ins s :
  sized (heap s) -> (clk < length (heap s))%nat ->
  (forall p, p ∈ ins -> (p < length (heap s))%nat) ->
  (1 <= CLKTREE_MAX_INPUT)%nat ->
  ~ fits (heap s) clk ins ->
  clktree_create_clk fuel clk nm m d en mx sel ins s
  = Abort (AssertFail assert_link_capacity).
Proof.
  intros Hsz Hclk Hval Hone Hnot.
  destruct (lookup_lt_is_Some_2 _ _ Hclk) as [c Hc].
  destruct (Hsz _ _ Hc) as (_ & _ & Hleni).
  assert (Hlen0 : (0 < length (input c))%nat) by lia.
  unfold clktree_create_clk.
  rewrite (bind_run _ _ _ _ _ (create_generic_run clk nm m d en s c Hc Hlen0)).
  set (g := mkClk nm en 0 0 _ m d _ _ _ _ _ _ _ _).
  set (s1 := mkState (<[clk := g]> (heap s)) (trace s)).
  assert (Hg : heap s1 !! clk = Some g) by (simpl; insert_eq).
  destruct (create_clk_links_total clk ins s1) as [[s2 Hlinks]|Hab].
  - by apply create_generic_sized.
  - simpl. by rewrite length_insert.
  - intros p Hp. simpl. rewrite length_insert. by apply Hval.
  - exfalso. apply Hnot. split.
    + destruct (create_clk_links_Ok _ _ _ _ _ Hlinks Hg) as (c' & _ & Hn & Hcap).
      destruct ins as [|p rest]; [simpl; lia|].
      specialize (Hcap ltac:(done)). rewrite Hn in Hcap. exact Hcap.
    + intros p pc Hp Hpc. destruct (decide (p = clk)) as [->|Hne].
      * exact (create_clk_links_Ok_fit _ _ _ _ Hlinks clk g Hp Hg).
      * apply (create_clk_links_Ok_fit _ _ _ _ Hlinks p pc Hp).
        simpl. by rewrite list_lookup_insert_ne.
  - by apply bind_Abort.
Qed.

(** [clktree_create_clk] with input clocks that fit. *)
Lemma create_clk_fits `{ClkConfig} fuel clk nm m d en mx sel ins s :
  sized (heap s) -> (clk < length (heap s))%nat ->
  (forall p, p ∈ ins -> (p < length (heap s))%nat) ->
  (1 <= CLKTREE_MAX_INPUT)%nat ->
  fits (heap s) clk ins ->
  clktree_create_clk fuel clk nm m d en mx sel ins s
  <> Abort (AssertFail assert_link_capacity) /\
  forall s', clktree_create_clk fuel clk nm m d en mx sel ins s = Ok (tt, s') ->
    (exists c', heap s' !! clk = Some c' /\
       input_count c' = (1 + length ins)%nat /\
       input c' !! 0%nat = Some None /\
       forall i p, ins !! i = Some p ->
                   input c' !! (1 + i)%nat = Some (Some p)) /\
    forall p pc, p ∈ ins -> heap s !! p = Some pc ->
      exists pc', heap s' !! p = Some pc' /\
        output_count pc'
        = ((if decide (p = clk) then 0 else output_count pc)
           + occurrences p ins)%nat /\
        (forall i, (i < if decide (p = clk) then 0 else output_count pc)%nat ->
                   output pc' !! i = output pc !! i) /\
        (forall i, ((if decide (p = clk) then 0 else output_count pc) <= i
                    < output_count pc')%nat ->
                   output pc' !! i = Some (Some clk)).
Proof.
  intros Hsz Hclk Hval Hone [Hmax Hroom].
  destruct (lookup_lt_is_Some_2 _ _ Hclk) as [c Hc].
  destruct (Hsz _ _ Hc) as (_ & _ & Hleni).
  assert (Hlen0 : (0 < length (input c))%nat) by lia.
  unfold clktree_create_clk.
  rewrite (bind_run _ _ _ _ _ (create_generic_run clk nm m d en s c Hc Hlen0)).
  set (g := mkClk nm en 0 0 _ m d _ _ _ _ _ _ _ _).
  set (s1 := mkState (<[clk := g]> (heap s)) (trace s)).
  assert (Hg : heap s1 !! clk = Some g) by (simpl; insert_eq).
  assert (Hs1 : forall a, a <> clk -> heap s1 !! a = heap s !! a).
  { intros a Ha. simpl. by apply list_lookup_insert_ne. }
  destruct (create_clk_links_fit_returns clk ins s1 g) as [s2 Hlinks].
  { by apply create_generic_sized. }
  { done. }
  { intros p Hp. simpl. rewrite length_insert. by apply Hval. }
  { simpl. lia. }
  { intros p pc1 Hp Hpc1. destruct (decide (p = clk)) as [->|Hne].
    - rewrite Hg in Hpc1. injection Hpc1 as <-.
      pose proof (Hroom clk c Hp Hc) as Hr.
      rewrite decide_True in Hr by done. exact Hr.
    - rewrite Hs1 in Hpc1 by done. pose proof (Hroom p pc1 Hp Hpc1) as Hr.
      rewrite decide_False in Hr by done. exact Hr. }
  rewrite (bind_run _ _ _ _ _ Hlinks).
  split; [apply never_select_cap|]. intros s' Hrun.
  pose proof (create_clk_links_gen clk ins s1 s2 Hlinks) as Hgen.
  destruct (Hgen clk g Hg) as (c2 & Hc2 & _ & _ & _ & _ & Hin2).
  destruct (Hin2 eq_refl) as (Eic2 & Hold2 & Hnew2).
  unfold g in Eic2, Hold2, Hnew2.
  cbn [input input_count] in Eic2, Hold2, Hnew2.
  pose proof (mutate_runtime fuel clk (Select_input sel) s2 c2
                eq_refl Hc2) as Hsel.
  cbn [mutate] in Hsel. rewrite Hsel in Hrun.
  destruct (written (Select_input sel) (heap s2) c2) as [c3|e] eqn:Hw;
    [|discriminate].
  destruct (written_shape _ _ _ _ Hw) as (_ & _ & Eoc & Eo & Eic3 & Ei3).
  set (s0 := mkState (<[clk := c3]> (heap s2)) (trace s2)) in *.
  apply Recalc_adequate, Recalc_wiring in Hrun.
  assert (Hkeep : forall y cy2, heap s2 !! y = Some cy2 ->
            exists cy', heap s' !! y = Some cy' /\
              output cy' = output cy2 /\ output_count cy' = output_count cy2 /\
              input cy' = input cy2 /\ input_count cy' = input_count cy2).
  { intros y cy2 Hy.
    assert (Hy0 : exists cy0, heap s0 !! y = Some cy0 /\
              output cy0 = output cy2 /\ output_count cy0 = output_count cy2 /\
              input cy0 = input cy2 /\ input_count cy0 = input_count cy2).
    { destruct (decide (y = clk)) as [->|Hne].
      - rewrite Hc2 in Hy. injection Hy as <-. exists c3.
        split; [simpl; insert_eq|done].
      - exists cy2. split; [|done]. simpl. by rewrite list_lookup_insert_ne. }
    destruct Hy0 as (cy0 & Hy0 & E1 & E2 & E3 & E4).
    destruct (wiring_static s0 s' y cy0 Hrun Hy0) as (cy' & Hcy' & Est).
    exists cy'. split; [done|].
    rewrite <- E1, <- E2, <- E3, <- E4.
    split; [by apply (f_equal output) in Est|].
    split; [by apply (f_equal output_count) in Est|].
    split; [by apply (f_equal input) in Est|].
    by apply (f_equal input_count) in Est. }
  split.
  - destruct (Hkeep clk c2 Hc2) as (c' & Hc' & _ & _ & Ei & Eic).
    exists c'. split; [done|]. rewrite Ei, Eic. split; [done|]. split.
    + rewrite Hold2 by lia. by apply list_lookup_insert_eq.
    + intros i p Hi. by apply Hnew2.
  - intros p pc Hp Hpc.
    assert (Hp1 : exists pc1, heap s1 !! p = Some pc1 /\
              output_count pc1
              = (if decide (p = clk) then 0%nat else output_count pc) /\
              (p <> clk -> output pc1 = output pc)).
    { destruct (decide (p = clk)) as [->|Hne].
      - exists g. done.
      - exists pc. by rewrite Hs1. }
    destruct Hp1 as (pc1 & Hp1 & Ecnt & Eout).
    destruct (Hgen p pc1 Hp1) as (pc2 & Hpc2 & Ecnt2 & Hold & Hnew & _).
    destruct (Hkeep p pc2 Hpc2) as (pc' & Hpc' & Eo' & Eoc' & _).
    exists pc'. split; [done|]. rewrite Eo', Eoc', <- Ecnt.
    split; [done|]. split; [|done].
    intros i Hi. rewrite Hold by done.
    destruct (decide (p = clk)) as [->|Hne]; [lia|]. by rewrite Eout.
Qed.

(** C8.  Exceeding a capacity is a failed assertion, at once, and within
    capacity the assertion cannot fail and each element is appended: for
    the macro [CLKTREE_ADD_LINK] on any array; for the observer array in
    [clktree_adduser]; and for [clktree_create_clk], in a memory whose
    arrays have their capacity and whose input clocks exist.  A call of
    [clktree_create_clk] whose input clocks do not fit ends in the
    capacity assertion: so with more input clocks than the
    candidate-input array (whose first entry is reserved) has room for,
    and so with an input clock whose fan-out array is full.  A call whose
    input clocks fit cannot end in it, and when it returns the node holds
    NULL and then the input clocks, in order, as its candidate inputs, and
    each input clock holds the node in its fan-out array, once for every
    time it occurs among the input clocks, appended after the live entries
    it had.  In any memory, a call of [clktree_create_clk] that returns was
    given no more input clocks than fit. *)
Theorem C8_capacity `{ClkConfig} :
  (forall (A : Type) (array : list A) count value array_size s,
     ((array_size <= count)%nat ->
      CLKTREE_ADD_LINK array count value array_size s
      = Abort (AssertFail assert_link_capacity)) /\
     ((count < array_size)%nat -> length array = array_size ->
      CLKTREE_ADD_LINK array count value array_size s
      = Ok ((<[count := value]> array, S count), s))) /\
  (forall clk u s c,
     heap s !! clk = Some c -> length (user c) = CLKTREE_MAX_IRQ ->
     ((CLKTREE_MAX_IRQ <= user_count c)%nat ->
      clktree_adduser clk u s = Abort (AssertFail assert_link_capacity)) /\
     ((user_count c < CLKTREE_MAX_IRQ)%nat ->
      clktree_adduser clk u s =
      Ok (tt, mkState (<[clk := with_users (S (user_count c))
                                  (<[user_count c := u]> (user c)) c]> (heap s))
                      (trace s)))) /\
  (forall fuel clk name m d en max sel ins s,
     sized (heap s) -> (clk < length (heap s))%nat ->
     (forall p, p ∈ ins -> (p < length (heap s))%nat) ->
     (1 <= CLKTREE_MAX_INPUT)%nat ->
     (~ fits (heap s) clk ins ->
      clktree_create_clk fuel clk name m d en max sel ins s
      = Abort (AssertFail assert_link_capacity)) /\
     ((CLKTREE_MAX_INPUT < 1 + length ins)%nat ->
      clktree_create_clk fuel clk name m d en max sel ins s
      = Abort (AssertFail assert_link_capacity)) /\
     (forall p pc, p ∈ ins -> p <> clk -> heap s !! p = Some pc ->
        (CLKTREE_MAX_OUTPUT <= output_count pc)%nat ->
        clktree_create_clk fuel clk name m d en max sel ins s
        = Abort (AssertFail assert_link_capacity)) /\
     (fits (heap s) clk ins ->
      clktree_create_clk fuel clk name m d en max sel ins s
      <> Abort (AssertFail assert_link_capacity) /\
      forall s',
        clktree_create_clk fuel clk name m d en max sel ins s = Ok (tt, s') ->
        (exists c', heap s' !! clk = Some c' /\
           input_count c' = (1 + length ins)%nat /\
           input c' !! 0%nat = Some None /\
           forall i p, ins !! i = Some p ->
                       input c' !! (1 + i)%nat = Some (Some p)) /\
        forall p pc, p ∈ ins -> heap s !! p = Some pc ->
          exists pc', heap s' !! p = Some pc' /\
            output_count pc'
            = ((if decide (p = clk) then 0 else output_count pc)
               + occurrences p ins)%nat /\
            (forall i,
               (i < if decide (p = clk) then 0 else output_count pc)%nat ->
               output pc' !! i = output pc !! i) /\
            (forall i,
               ((if decide (p = clk) then 0 else output_count pc) <= i
                < output_count pc')%nat ->
               output pc' !! i = Some (Some clk)))) /\
  (forall fuel clk name m d en max sel ins s r,
     clktree_create_clk fuel clk name m d en max sel ins s = Ok r ->
     ins = [] \/ (1 + length ins <= CLKTREE_MAX_INPUT)%nat).
Proof.
  split; [|split; [|split]].
  - intros A array count value array_size s. split.
    + apply ADD_LINK_full.
    + apply ADD_LINK_room.
  - intros clk u s c Hc Hlen. unfold clktree_adduser.
    rewrite !(bind_run _ _ _ _ _ (load_run _ _ _ Hc)). split.
    + intros Hfull. apply bind_Abort. by apply ADD_LINK_full.
    + intros Hroom.
      rewrite (bind_run _ _ _ _ _ (ADD_LINK_room _ _ _ _ _ Hroom Hlen)).
      by apply store_run with (c0 := c).
  - intros fuel clk name m d en max sel ins s Hsz Hclk Hval Hone.
    split; [|split; [|split]].
    + by apply create_clk_not_fits.
    + intros Hover. apply create_clk_not_fits; try done.
      intros [Hmax _]. lia.
    + intros p pc Hp Hpclk Hpc Hfull. apply create_clk_not_fits; try done.
      intros [_ Hroom]. specialize (Hroom p pc Hp Hpc).
      rewrite decide_False in Hroom by done.
      pose proof (occurrences_in p ins Hp). lia.
    + by apply create_clk_fits.
  - intros fuel clk name m d en max sel ins s [[] s'] Hrun.
    unfold clktree_create_clk in Hrun.
    apply bind_Ok in Hrun as ([] & s1 & Hgen & Hrun).
    apply bind_Ok in Hrun as ([] & s2 & Hlinks & _).
    unfold clktree_create_generic in Hgen.
    apply bind_Ok in Hgen as (c & s0 & [Hc ->]%load_Ok & Hgen).
    apply bind_Ok in Hgen as (i' & s0 & (_ & -> & ->)%array_set_Ok & Hgen).
    apply store_Ok in Hgen as [_ ->].
    set (c1 := mkClk _ _ _ _ _ _ _ _ _ _ _ _ _ _ _) in *.
    assert (Hc1 : heap (mkState (<[clk := c1]> (heap s)) (trace s)) !! clk
                  = Some c1).
    { simpl. insert_eq. }
    destruct ins as [|p rest]; [by left|right].
    destruct (create_clk_links_Ok _ _ _ _ _ Hlinks Hc1) as (c' & _ & Hn & Hcap).
    assert (Hne : p :: rest <> []) by done.
    specialize (Hcap Hne). rewrite Hn in Hcap. exact Hcap.
Qed.

Lemma C8_capacity_witness :
  clktree_adduser (H := Examples.cfg) 0 9%nat Examples.crowded
  = Abort (AssertFail assert_link_capacity) /\
  (exists s', clktree_adduser (H := Examples.cfg) 2 9%nat Examples.chain
              = Ok (tt, s') /\
              (user_count <$> heap s' !! 2%nat) = Some 2%nat /\
              (user <$> heap s' !! 2%nat)
              = Some (<[1%nat := 9%nat]> (user Examples.chain_div2))) /\
  clktree_create_clk (H := Examples.cfg) 8 2 "wide" 1 1 true UINT32_MAX 0
                     (replicate 24 0%nat) Examples.chain
  = Abort (AssertFail assert_link_capacity) /\
  clktree_create_clk (H := Examples.cfg) 8 2 "div2" 1 2 true UINT32_MAX 0
                     [1%nat] two_created
  <> Abort (AssertFail assert_link_capacity).
Proof.
  destruct (C8_capacity (H := Examples.cfg)) as (_ & Hadd & Hcreate & _).
  split; [|split; [|split]].
  - eapply (Hadd 0%nat 9%nat Examples.crowded); [reflexivity|reflexivity|].
    vm_compute. lia.
  - eexists. split.
    + eapply (Hadd 2%nat 9%nat Examples.chain Examples.chain_div2);
        [reflexivity|reflexivity|]. vm_compute. lia.
    + split; reflexivity.
  - apply (Hcreate 8%nat 2%nat "wide" 1 1 true UINT32_MAX 0
             (replicate 24 0%nat) Examples.chain).
    + intros [|[|[|a]]] c Hc; vm_compute in Hc; try discriminate;
        injection Hc as <-; vm_compute; repeat split.
    + vm_compute. lia.
    + intros p [-> _]%elem_of_replicate. vm_compute. lia.
    + vm_compute. lia.
    + vm_compute. lia.
  - apply (Hcreate 8%nat 2%nat "div2" 1 2 true UINT32_MAX 0
             [1%nat] two_created).
    + intros [|[|[|a]]] c Hc; vm_compute in Hc; try discriminate;
        injection Hc as <-; vm_compute; repeat split.
    + vm_compute. lia.
    + intros p Hp. apply elem_of_cons in Hp as [->|Hp];
        [vm_compute; lia | by apply elem_of_nil in Hp].
    + vm_compute. lia.
    + split; [vm_compute; lia|].
      intros p pc Hp Hpc. apply elem_of_cons in Hp as [->|Hp];
        [|by apply elem_of_nil in Hp].
      vm_compute in Hpc. injection Hpc as <-. vm_compute. lia.
Defined.
